(** * LstCompass: the protocol table and the token card

    A shallow embedding of [src/pages/Protocols.tsx] and
    [src/components/TokenCard.tsx] together with the fragment of ECMAScript
    the two components run on, followed by the properties of the
    components.

    - [JS]        numbers (IEEE 754 binary64, the kernel's [float]), strings,
                  JSON values, conversions, exceptions, [Array.prototype.sort]
                  and a store of mutable arrays;
    - [TokenCard] the card's helpers and its platform list;
    - [Protocols] the fetch cycle, the merge, the formatters and the sort of
                  the table page. *)

From Stdlib Require Import ZArith List String Ascii Bool Lia Floats.
From Stdlib Require Import DecimalString Permutation Sorted.
From Stdlib Require Import DecimalN.
From stdpp Require Import gmap strings.

Open Scope string_scope.

(* ===================================================================== *)
(** * The ECMAScript fragment                                             *)
(* ===================================================================== *)

Module JS.

(** ** Numbers

    A Number is an IEEE 754 binary64 value.  Arithmetic and comparisons are
    the kernel's; the digits of a number are read off its exact value
    [m * 2^e] ([Prim2SF]). *)

Abbreviation number := float.

Definition NaN : number := nan.

(** [x >= y]: false as soon as one side is NaN. *)
Definition ge (x y : number) : bool := (y <=? x)%float.
Definition lt (x y : number) : bool := (x <? y)%float.

Definition of_Z (z : Z) : number := SF2Prim (binary_normalize prec emax z 0 false).

(** *** Decimal digits *)

(** The decimal representation of a natural number, no leading zero. *)
Definition decimal (n : Z) : string := NilZero.string_of_uint (N.to_uint (Z.to_N n)).

Fixpoint zeros (n : nat) : string :=
  match n with O => "" | S k => String "0" (zeros k) end.

(** Steps 11.a - 11.c of Number.prototype.toFixed: the integer [n] printed
    with [f] digits after the point. *)
Definition fixed_point (n : Z) (f : nat) : string :=
  let m := decimal n in
  match f with
  | O => m
  | _ =>
      let m := zeros (S f - String.length m) ++ m in
      let k := String.length m in
      substring 0 (k - f) m ++ "." ++ substring (k - f) f m
  end.

(** The integer [n] for which [n / 10^f - m * 2^e] is as close to zero as
    possible, the larger one of two. *)
Definition scaled_round (m : positive) (e : Z) (f : nat) : Z :=
  let p := (Zpos m * 10 ^ Z.of_nat f)%Z in
  if (0 <=? e)%Z then (p * 2 ^ e)%Z else ((2 * p + 2 ^ (- e)) / 2 ^ (1 - e))%Z.

(** *** Number::toString (radix 10) *)

(** A positive rational [a / b] against an integer power of ten. *)
Definition lt_pow10 (a b : Z) (n : Z) : bool :=
  if (0 <=? n)%Z then (a <? b * 10 ^ n)%Z else (a * 10 ^ (- n) <? b)%Z.

Fixpoint magnitude (fuel : nat) (a b : Z) (n : Z) : Z :=
  match fuel with
  | O => n
  | S fuel' => if lt_pow10 a b n then n else magnitude fuel' a b (n + 1)
  end.

(** [x = a / b], [lo = la / b], [hi = ha / b]: the digits [s] (with [k]
    digits) and the exponent [n] of the shortest decimal [s * 10^(n-k)]
    that lies in the rounding interval of [x], the closest to [x] among
    those, the even one of two. *)
Section Shortest.
Variables (a la ha b : Z) (closed : bool) (n : Z).

Definition inside (s p : Z) : bool :=
  let '(cn, cd) := if (0 <=? p)%Z then (s * 10 ^ p, 1)%Z else (s, 10 ^ (- p))%Z in
  if closed
  then ((la * cd <=? cn * b) && (cn * b <=? ha * cd))%Z
  else ((la * cd <? cn * b) && (cn * b <? ha * cd))%Z.

(** [floor (x / 10^p)] and twice the remainder against the divisor *)
Definition quot (p : Z) : Z * comparison :=
  let '(u, v) := if (0 <=? p)%Z then (a, b * 10 ^ p)%Z else (a * 10 ^ (- p), b)%Z in
  ((u / v)%Z, (2 * (u mod v) ?= v)%Z).

Definition candidate (k : Z) : option (Z * Z) :=
  let p := (n - k)%Z in
  let '(s, half) := quot p in
  let low := inside s p in
  let high := inside (s + 1) p in
  let up := if (s + 1 =? 10 ^ k)%Z then (10 ^ (k - 1), n + 1)%Z else (s + 1, n)%Z in
  match low, high with
  | false, false => None
  | true, false => Some (s, n)
  | false, true => Some up
  | true, true =>
      match half with
      | Lt => Some (s, n)
      | Gt => Some up
      | Eq => if Z.even s then Some (s, n) else Some up
      end
  end.

Fixpoint shortest (fuel : nat) (k : Z) : Z * Z * Z :=
  match fuel with
  | O => (fst (quot (n - k)), k, n)
  | S fuel' =>
      match candidate k with
      | Some (s, n') => (s, k, n')
      | None => shortest fuel' (k + 1)
      end
  end.
End Shortest.

Definition exponent_part (n : Z) : string :=
  "e" ++ (if (0 <=? n - 1)%Z then "+" else "-") ++ decimal (Z.abs (n - 1)).

(** Steps 6 - 10 of Number::toString. *)
Definition layout (s k n : Z) : string :=
  let d := decimal s in
  if ((k <=? n) && (n <=? 21))%Z then d ++ zeros (Z.to_nat (n - k))
  else if ((0 <? n) && (n <=? 21))%Z then
    substring 0 (Z.to_nat n) d ++ "." ++ substring (Z.to_nat n) (Z.to_nat (k - n)) d
  else if ((-6 <? n) && (n <=? 0))%Z then "0." ++ zeros (Z.to_nat (- n)) ++ d
  else if (k =? 1)%Z then d ++ exponent_part n
  else substring 0 1 d ++ "." ++ substring 1 (Z.to_nat (k - 1)) d ++ exponent_part n.

Definition positive_toString (m : positive) (e : Z) : string :=
  (* in units of 2^(e-2): x = 4m, the interval reaches up to 4m + 2 and
     down to 4m - 2, or to 4m - 1 below a power of two *)
  let num := if (2 <=? e)%Z then (2 ^ (e - 2))%Z else 1%Z in
  let den := if (2 <=? e)%Z then 1%Z else (2 ^ (2 - e))%Z in
  let below := if ((Zpos m =? 2 ^ 52) && (-1074 <? e))%Z then 1%Z else 2%Z in
  let a := (4 * Zpos m * num)%Z in
  let la := ((4 * Zpos m - below) * num)%Z in
  let ha := ((4 * Zpos m + 2) * num)%Z in
  let est := (((Z.log2 (Zpos m) + e) * 30103) / 100000)%Z in
  let n := magnitude 4 a den est in
  let '(s, k, n') := shortest a la ha den (Z.even (Zpos m)) n 17 1 in
  layout s k n'.

Definition Number_toString (x : number) : string :=
  match Prim2SF x with
  | S754_nan => "NaN"
  | S754_zero _ => "0"
  | S754_infinity s => (if s then "-" else "") ++ "Infinity"
  | S754_finite s m e => (if s then "-" else "") ++ positive_toString m e
  end.

(** *** Number.prototype.toFixed

    [fractionDigits] is a natural number; the components pass 2. *)

Definition toFixed (x : number) (fractionDigits : nat) : string :=
  match Prim2SF x with
  | S754_nan | S754_infinity _ => Number_toString x
  | S754_zero _ => fixed_point 0 fractionDigits
  | S754_finite s m e =>
      (if s then "-" else "") ++
      (if (1e21 <=? abs x)%float then Number_toString (abs x)
       else fixed_point (scaled_round m e fractionDigits) fractionDigits)
  end.

(** ** Strings

    A String is a sequence of code units; a [string] holds the code units
    0 - 255, one per character. *)

Definition code (c : ascii) : N := N_of_ascii c.

(** String.prototype.toLowerCase on these code units: A - Z and the
    capital letters of U+00C0 - U+00DE. *)
Definition lower (c : ascii) : ascii :=
  let n := code c in
  if ((65 <=? n) && (n <=? 90) || (192 <=? n) && (n <=? 222) && negb (n =? 215))%N
  then ascii_of_N (n + 32) else c.

Fixpoint toLowerCase (s : string) : string :=
  match s with
  | "" => ""
  | String c s' => String (lower c) (toLowerCase s')
  end.

(** [s.split(sep)] for a separator of one code unit. *)
Fixpoint split (sep : ascii) (s : string) : list string :=
  match s with
  | "" => [""]
  | String c s' =>
      if Ascii.eqb c sep then "" :: split sep s'
      else match split sep s' with
           | h :: t => String c h :: t
           | [] => [String c ""]
           end
  end.

(** *** StringToNumber *)

Definition is_white (c : ascii) : bool :=
  let n := code c in ((9 <=? n) && (n <=? 13) || (n =? 32) || (n =? 160))%N.

Fixpoint trim_start (l : list ascii) : list ascii :=
  match l with
  | c :: l' => if is_white c then trim_start l' else l
  | [] => []
  end.

Definition trim (l : list ascii) : list ascii := rev (trim_start (rev (trim_start l))).

Definition digit_value (base : Z) (c : ascii) : option Z :=
  let n := Z.of_N (code c) in
  let d := if ((48 <=? n) && (n <=? 57))%Z then (n - 48)%Z
           else if ((97 <=? n) && (n <=? 102))%Z then (n - 87)%Z
           else if ((65 <=? n) && (n <=? 70))%Z then (n - 55)%Z
           else 16%Z in
  if (d <? base)%Z then Some d else None.

(** The digits at the front of [l], their value on top of [acc], how many
    they are, and what follows them. *)
Fixpoint digits (base : Z) (l : list ascii) (acc : Z) (count : nat) : Z * nat * list ascii :=
  match l with
  | c :: l' =>
      match digit_value base c with
      | Some d => digits base l' (acc * base + d)%Z (S count)
      | None => (acc, count, l)
      end
  | [] => (acc, count, [])
  end.

(** The Number nearest to [m * 10^e] ([m > 0]), ties to even. *)
Definition round_decimal (negative : bool) (m e : Z) : number :=
  if (310 <? e)%Z then (if negative then neg_infinity else infinity)
  else if (e + ((Z.log2 m + 1) * 30103 / 100000 + 1) <? -330)%Z then (if negative then neg_zero else zero)
  else
    match m with
    | Zpos p =>
        if (0 <=? e)%Z then SF2Prim (binary_normalize prec emax (if negative then - (m * 10 ^ e) else m * 10 ^ e)%Z 0 false)
        else SF2Prim (SFdiv prec emax (S754_finite negative p 0) (S754_finite false (Z.to_pos (10 ^ (- e))) 0))
    | _ => if negative then neg_zero else zero
    end.

Definition signed (l : list ascii) : bool * list ascii :=
  match l with
  | "+"%char :: l' => (false, l')
  | "-"%char :: l' => (true, l')
  | _ => (false, l)
  end.

Definition ExponentPart (l : list ascii) : option Z :=
  match l with
  | [] => Some 0%Z
  | c :: l' =>
      if (Ascii.eqb c "e" || Ascii.eqb c "E")%bool then
        let '(neg, l'') := signed l' in
        match digits 10 l'' 0 0 with
        | (x, S _, []) => Some (if neg then - x else x)%Z
        | _ => None
        end
      else None
  end.

Definition StrUnsignedDecimalLiteral (negative : bool) (l : list ascii) : number :=
  if String.eqb (string_of_list_ascii l) "Infinity" then (if negative then neg_infinity else infinity)
  else
    let '(i, ni, r) := digits 10 l 0 0 in
    let '(m, nf, r) :=
      match r with
      | "."%char :: r' => let '(m, nf, r'') := digits 10 r' i 0 in (m, nf, r'')
      | _ => (i, O, r)
      end in
    match (ni + nf)%nat, ExponentPart r with
    | S _, Some x => round_decimal negative m (x - Z.of_nat nf)
    | _, _ => NaN
    end.

Definition NonDecimalIntegerLiteral (base : Z) (l : list ascii) : number :=
  match digits base l 0 0 with
  | (x, S _, []) => of_Z x
  | _ => NaN
  end.

Definition StringToNumber (s : string) : number :=
  match trim (list_ascii_of_string s) with
  | [] => zero
  | "0"%char :: c :: l =>
      if (Ascii.eqb c "x" || Ascii.eqb c "X")%bool then NonDecimalIntegerLiteral 16 l
      else if (Ascii.eqb c "o" || Ascii.eqb c "O")%bool then NonDecimalIntegerLiteral 8 l
      else if (Ascii.eqb c "b" || Ascii.eqb c "B")%bool then NonDecimalIntegerLiteral 2 l
      else StrUnsignedDecimalLiteral false ("0"%char :: c :: l)
  | l => let '(neg, l') := signed l in StrUnsignedDecimalLiteral neg l'
  end.

(** ** Values

    What [JSON.parse] can return, and [undefined].  The properties of an
    object are listed in insertion order and their names are distinct. *)

Inductive value :=
| VUndefined
| VNull
| VBoolean (b : bool)
| VNumber (x : number)
| VString (s : string)
| VArray (elements : list value)
| VObject (properties : list (string * value)).

(** ** Exceptions *)

(** A thrown value: an Error object (an [Error], or the [TypeError] or
    [SyntaxError] the engine raises) with its message, or anything else. *)
Inductive exn :=
| Error (message : string)
| Thrown (v : value).

Inductive result (A : Type) :=
| Ok (a : A)
| Throw (e : exn).
Arguments Ok {A} a.
Arguments Throw {A} e.

#[global] Instance result_ret : MRet result := @Ok.
#[global] Instance result_bind : MBind result :=
  fun A B f m => match m with Ok a => f a | Throw e => Throw e end.

(** The engine's TypeError; the text of its message is the engine's. *)
Definition TypeError {A} (message : string) : result A := Throw (Error message).

(** ** Property access *)

Fixpoint own (properties : list (string * value)) (key : string) : option value :=
  match properties with
  | [] => None
  | (k, v) :: rest => if String.eqb k key then Some v else own rest key
  end.

(** An array index written canonically: ["0"], ["1"], ["2"], ... *)
Definition array_index (key : string) : option nat :=
  match digits 10 (list_ascii_of_string key) 0 0 with
  | (i, S _, []) => if String.eqb (decimal i) key then Some (Z.to_nat i) else None
  | _ => None
  end.

(** [Get(O, key)] on an object that has a value: own properties, the
    length and the elements of arrays and strings.  Members inherited from
    the built-in prototypes are not part of the model; they are functions,
    and the components read none of them through this operation. *)
Definition Get (o : value) (key : string) : value :=
  match o with
  | VObject properties => default VUndefined (own properties key)
  | VArray elements =>
      if String.eqb key "length" then VNumber (of_Z (Z.of_nat (List.length elements)))
      else match array_index key with
           | Some i => nth i elements VUndefined
           | None => VUndefined
           end
  | VString s =>
      if String.eqb key "length" then VNumber (of_Z (Z.of_nat (String.length s)))
      else match array_index key with
           | Some i => match String.get i s with Some c => VString (String c "") | None => VUndefined end
           | None => VUndefined
           end
  | _ => VUndefined
  end.

(** [o.key] and [o[key]]: reading a property of undefined or null throws. *)
Definition get (o : value) (key : string) : result value :=
  match o with
  | VUndefined => TypeError ("Cannot read properties of undefined (reading '" ++ key ++ "')")
  | VNull => TypeError ("Cannot read properties of null (reading '" ++ key ++ "')")
  | _ => Ok (Get o key)
  end.

(** ** Operators and conversions *)

Definition ToBoolean (v : value) : bool :=
  match v with
  | VUndefined | VNull => false
  | VBoolean b => b
  | VNumber x => negb (x =? 0)%float && negb (is_nan x)
  | VString s => negb (String.eqb s "")
  | VArray _ | VObject _ => true
  end.

(** [a || b] *)
Definition or (a b : value) : value := if ToBoolean a then a else b.

Definition typeof (v : value) : string :=
  match v with
  | VUndefined => "undefined"
  | VNull | VArray _ | VObject _ => "object"
  | VBoolean _ => "boolean"
  | VNumber _ => "number"
  | VString _ => "string"
  end.

(** [v === s] for a string [s] *)
Definition strict_equals_string (v : value) (s : string) : bool :=
  match v with VString s' => String.eqb s' s | _ => false end.

(** [ToString].  A parsed object inherits [Object.prototype.toString]
    unless a property of its own, never a function, shadows it; then the
    conversion has no method to call and throws. *)
Fixpoint ToString (v : value) : result string :=
  match v with
  | VUndefined => Ok "undefined"
  | VNull => Ok "null"
  | VBoolean b => Ok (if b then "true" else "false")
  | VNumber x => Ok (Number_toString x)
  | VString s => Ok s
  | VArray elements =>
      (* Array.prototype.join *)
      let element v := match v with VUndefined | VNull => Ok "" | _ => ToString v end in
      (fix join (l : list value) : result string :=
         match l with
         | [] => Ok ""
         | [v] => element v
         | v :: l' => s ← element v; r ← join l'; Ok (s ++ "," ++ r)
         end) elements
  | VObject properties =>
      match own properties "toString" with
      | Some _ => TypeError "Cannot convert object to primitive value"
      | None => Ok "[object Object]"
      end
  end.

Definition ToPrimitive (v : value) : result value :=
  match v with
  | VArray _ | VObject _ => s ← ToString v; Ok (VString s)
  | _ => Ok v
  end.

(** [ToNumber] of a primitive *)
Definition ToNumber (p : value) : number :=
  match p with
  | VNumber x => x
  | VString s => StringToNumber s
  | VBoolean b => if b then 1%float else 0%float
  | VNull => 0%float
  | _ => NaN
  end.

(** [IsLessThan] on primitives: [None] is the answer "undefined" of a
    comparison with NaN. *)
Definition less_than (px py : value) : option bool :=
  match px, py with
  | VString sx, VString sy => Some (String.ltb sx sy)
  | _, _ =>
      let nx := ToNumber px in
      let ny := ToNumber py in
      if (is_nan nx || is_nan ny)%bool then None else Some (nx <? ny)%float
  end.

(** [a < b] and [a > b]; the left operand is converted first. *)
Definition js_lt (a b : value) : result bool :=
  pa ← ToPrimitive a; pb ← ToPrimitive b;
  Ok (match less_than pa pb with Some true => true | _ => false end).

Definition js_gt (a b : value) : result bool :=
  pa ← ToPrimitive a; pb ← ToPrimitive b;
  Ok (match less_than pb pa with Some true => true | _ => false end).

(** ** Arrays of the components' state

    A component holds its arrays by reference.  A store maps the locations
    in use to the elements of the array that lives there. *)

Definition loc := positive.

Section Arrays.
Context {A : Type}.

Definition alloc (elements : list A) (σ : gmap loc (list A)) : loc * gmap loc (list A) :=
  let a := fresh (dom σ) in (a, <[a := elements]> σ).

(** [[...a]]: a new array with the elements of [a] *)
Definition spread (a : loc) (σ : gmap loc (list A)) : loc * gmap loc (list A) :=
  alloc (σ !!! a) σ.

(** *** Array.prototype.sort

    ECMAScript fixes the order [sort] leaves behind for a consistent
    comparator only: the elements are permuted, ordered by the
    comparator, and elements that compare equal keep their order.  The
    model is insertion sort, which does that; for other comparators the
    order is the engine's. *)
Variable comparefn : A → A → result number.

(** The comparator's answer: NaN counts as +0. *)
Definition SortCompare (x y : A) : result number :=
  v ← comparefn x y; Ok (if is_nan v then 0%float else v).

Fixpoint insert (x : A) (sorted : list A) : result (list A) :=
  match sorted with
  | [] => Ok [x]
  | y :: rest =>
      v ← SortCompare x y;
      if (0 <? v)%float then r ← insert x rest; Ok (y :: r) else Ok (x :: sorted)
  end.

Fixpoint sort (elements : list A) : result (list A) :=
  match elements with
  | [] => Ok []
  | x :: rest => s ← sort rest; insert x s
  end.

(** [a.sort(comparefn)] sorts the array at [a] in place and returns [a].
    When the comparator throws, the exception leaves [sort]; the array is
    then kept as it was. *)
Definition Array_prototype_sort (a : loc) (σ : gmap loc (list A)) : result loc * gmap loc (list A) :=
  match sort (σ !!! a) with
  | Ok sorted => (Ok a, <[a := sorted]> σ)
  | Throw e => (Throw e, σ)
  end.
End Arrays.

(** ** Array methods on parsed values *)

(** [v.map(f)] and [v.filter(f)]: only an array has the method. *)
Definition method_of_array {A} (name : string) (v : value) (run : list value → result A) : result A :=
  match v with
  | VArray elements => run elements
  | VUndefined => TypeError ("Cannot read properties of undefined (reading '" ++ name ++ "')")
  | VNull => TypeError ("Cannot read properties of null (reading '" ++ name ++ "')")
  | _ => TypeError (name ++ " is not a function")
  end.

Definition Array_map {B} (f : value → result B) (v : value) : result (list B) :=
  method_of_array "map" v (mapM (M := result) f).

Fixpoint filterM (f : value → result bool) (l : list value) : result (list value) :=
  match l with
  | [] => Ok []
  | x :: l' => keep ← f x; r ← filterM f l'; Ok (if keep : bool then x :: r else r)
  end.

Definition Array_filter (f : value → result bool) (v : value) : result (list value) :=
  method_of_array "filter" v (filterM f).

(** [keys.reduce(f, init)] *)
Fixpoint reduce {A B} (f : A → B → result A) (l : list B) (init : A) : result A :=
  match l with
  | [] => Ok init
  | x :: l' => acc ← f init x; reduce f l' acc
  end.

(** [v.toLowerCase()]: only a string has the method. *)
Definition call_toLowerCase (v : value) : result string :=
  match v with
  | VString s => Ok (toLowerCase s)
  | VUndefined => TypeError "Cannot read properties of undefined (reading 'toLowerCase')"
  | VNull => TypeError "Cannot read properties of null (reading 'toLowerCase')"
  | _ => TypeError "toLowerCase is not a function"
  end.

(** [new Map(entries)]: a later entry replaces an earlier one with its key. *)
Definition new_Map (entries : list (string * value)) : gmap string value :=
  fold_left (fun m kv => <[kv.1 := kv.2]> m) entries ∅.

(** [Promise.all] of two promises: fulfilled with both values, or rejected
    with the reason of the promise that rejects first. *)
Definition Promise_all {A} (second_settles_first : bool) (p1 p2 : result A) : result (A * A) :=
  match p1, p2 with
  | Ok a, Ok b => Ok (a, b)
  | Throw e, Ok _ | Ok _, Throw e => Throw e
  | Throw e1, Throw e2 => Throw (if second_settles_first then e2 else e1)
  end.

End JS.

Import JS.

(* ===================================================================== *)
(** * src/components/TokenCard.tsx                                        *)
(* ===================================================================== *)

Module TokenCard.

(** Modelled from the spec: the record types of [../types], which the card
    imports.  A platform offer has a name, a fee percentage, a minimum
    stake and an APY percentage; a staking token has the fields the card
    reads, the numeric ones possibly absent (null or undefined). *)
Record Platform := {
  name : string;
  fee : number;
  minStake : number;
  apy : number
}.

(** Modelled from the spec: the token the card is given, its offers an
    array held by reference. *)
Record StakingToken := {
  token_name : string;
  symbol : string;
  image : string;
  marketCapRank : option number;
  price : option number;
  priceChangePercentage24h : option number;
  tvl : option number;
  tvlChange1d : option number;
  volume24h : option number;
  volumeChange7d : option number;
  revenue24h : option number;
  priceToSales : option number;
  fees24h : option number;
  priceToFees : option number;
  platforms : loc
}.

(** [[...token.platforms].sort((a, b) => a.fee - b.fee)] *)
Definition by_fee (a b : Platform) : result number := Ok (fee a - fee b)%float.

Definition sortedPlatforms (token : StakingToken) (σ : gmap loc (list Platform))
  : result loc * gmap loc (list Platform) :=
  let '(copy, σ) := spread (platforms token) σ in
  Array_prototype_sort by_fee copy σ.

(** A value that may be null or undefined is an [option]: [value == null]
    holds of both and of nothing else. *)
Definition formatNumber (value : option number) (decimals : nat) : string :=
  match value with
  | None => "0"
  | Some value => toFixed value decimals
  end.

Definition formatCurrency (value : option number) : string :=
  match value with
  | None => "$0"
  | Some value =>
      if ge value 1e9 then "$" ++ toFixed (value / 1e9) 2 ++ "B"
      else if ge value 1e6 then "$" ++ toFixed (value / 1e6) 2 ++ "M"
      else if ge value 1e3 then "$" ++ toFixed (value / 1e3) 2 ++ "K"
      else "$" ++ toFixed value 2
  end.

Definition formatPercentage (value : option number) : string :=
  match value with
  | None => "0%"
  | Some value => (if ge value 0 then "+" else "") ++ toFixed value 2 ++ "%"
  end.

(** One entry of the platform list: the offer, and whether it carries the
    highlight and the "Best Rate" badge ([index === 0]). *)
Record Entry := {
  platform : Platform;
  best_rate : bool
}.

(** [showPlatforms && sortedPlatforms.map((platform, index) => ...)] *)
Definition platform_list (showPlatforms : bool) (sortedPlatforms : list Platform) : option (list Entry) :=
  if showPlatforms
  then Some (imap (fun index platform => {| platform := platform; best_rate := Nat.eqb index 0 |}) sortedPlatforms)
  else None.

End TokenCard.

(* ===================================================================== *)
(** * src/pages/Protocols.tsx                                             *)
(* ===================================================================== *)

Module Protocols.

(** The interface [Protocol].  The fields hold what the merge puts there:
    values of the type [any], whatever the interface declares. *)
Record Fees := { fees_24h : value; fees_7d : value; fees_30d : value; fees_monthlyAvg1y : value }.
Record Revenue := { revenue_24h : value; revenue_7d : value; revenue_30d : value; revenue_1y : value }.
Record HoldersRevenue := { holdersRevenue_24h : value; holdersRevenue_30d : value }.
Record Volume := { volume_24h : value; volume_change7d : value; volume_cumulative : value }.

Record Protocol := {
  name : value;
  symbol : value;
  tvl : value;
  tvlPrevDay : value;
  tvlPrevMonth : value;
  mcap : value;
  fees : Fees;
  revenue : Revenue;
  userFees24h : value;
  cumulativeFees : value;
  holdersRevenue : HoldersRevenue;
  treasuryRevenue24h : value;
  supplyRevenue : value;
  volume : Volume;
  logo : value;
  category : value;
  slug : value
}.

(** The object a row is at run time, its properties in the order of the
    object literal that creates it. *)
Definition object_of (p : Protocol) : value :=
  VObject
    [ ("name", name p);
      ("symbol", symbol p);
      ("slug", slug p);
      ("tvl", tvl p);
      ("tvlPrevDay", tvlPrevDay p);
      ("tvlPrevMonth", tvlPrevMonth p);
      ("mcap", mcap p);
      ("fees", VObject [ ("24h", fees_24h (fees p)); ("7d", fees_7d (fees p));
                         ("30d", fees_30d (fees p)); ("monthlyAvg1y", fees_monthlyAvg1y (fees p)) ]);
      ("revenue", VObject [ ("24h", revenue_24h (revenue p)); ("7d", revenue_7d (revenue p));
                            ("30d", revenue_30d (revenue p)); ("1y", revenue_1y (revenue p)) ]);
      ("userFees24h", userFees24h p);
      ("cumulativeFees", cumulativeFees p);
      ("holdersRevenue", VObject [ ("24h", holdersRevenue_24h (holdersRevenue p));
                                   ("30d", holdersRevenue_30d (holdersRevenue p)) ]);
      ("treasuryRevenue24h", treasuryRevenue24h p);
      ("supplyRevenue", supplyRevenue p);
      ("volume", VObject [ ("24h", volume_24h (volume p)); ("change7d", volume_change7d (volume p));
                           ("cumulative", volume_cumulative (volume p)) ]);
      ("logo", logo p);
      ("category", category p) ].

Inductive Direction := asc | desc.

Record SortConfig := { key : string; direction : Direction }.

(** The state of the page: the four [useState] cells.  [protocols] is a
    reference to an array in the store. *)
Record State := {
  protocols : loc;
  loading : bool;
  error : option string;
  sortConfig : SortConfig
}.

Definition initialSortConfig : SortConfig := {| key := "tvl"; direction := desc |}.

(** Mounting the page: the initial values of the cells. *)
Definition mount (σ : gmap loc (list Protocol)) : State * gmap loc (list Protocol) :=
  let '(a, σ) := alloc [] σ in
  ({| protocols := a; loading := true; error := None; sortConfig := initialSortConfig |}, σ).

(** ** The fetch cycle *)

(** What [fetch] resolves to: the [ok] flag and the outcome of [json()]. *)
Record Response := { ok : bool; json : result value }.

(** The outcome of the two requests, and which one settles first. *)
Record Network := {
  protocolsRequest : result Response;
  feesRequest : result Response;
  fees_settles_first : bool
}.

Definition zero_ : value := VNumber 0.

(** The callback of [.map] over the retained protocols.  After [p.name]
    has been read [p] is known not to be undefined or null, and [feesInfo]
    is truthy or [{}]: the other reads of properties cannot throw. *)
Definition transform (feesMap : gmap string value) (p : value) : result Protocol :=
  p_name ← get p "name";
  lowered ← call_toLowerCase p_name;
  let feesInfo := or (default VUndefined (feesMap !! lowered)) (VObject []) in
  Ok {| name := p_name;
        symbol := or (Get p "symbol") (VString "");
        slug := Get p "slug";
        tvl := or (Get p "tvl") zero_;
        tvlPrevDay := or (Get p "tvlPrevDay") zero_;
        tvlPrevMonth := or (Get p "tvlPrevMonth") zero_;
        mcap := or (Get p "mcap") zero_;
        fees := {| fees_24h := or (Get feesInfo "total24h") zero_;
                   fees_7d := or (Get feesInfo "total7d") zero_;
                   fees_30d := or (Get feesInfo "total30d") zero_;
                   fees_monthlyAvg1y := or (Get feesInfo "monthlyAvg1y") zero_ |};
        revenue := {| revenue_24h := or (Get feesInfo "revenue24h") zero_;
                      revenue_7d := or (Get feesInfo "revenue7d") zero_;
                      revenue_30d := or (Get feesInfo "revenue30d") zero_;
                      revenue_1y := or (Get feesInfo "revenue1y") zero_ |};
        userFees24h := or (Get feesInfo "userFees24h") zero_;
        cumulativeFees := or (Get feesInfo "cumulativeFees") zero_;
        holdersRevenue := {| holdersRevenue_24h := or (Get feesInfo "holdersRevenue24h") zero_;
                             holdersRevenue_30d := or (Get feesInfo "holdersRevenue30d") zero_ |};
        treasuryRevenue24h := or (Get feesInfo "treasuryRevenue24h") zero_;
        supplyRevenue := or (Get feesInfo "supplyRevenue") zero_;
        volume := {| volume_24h := or (Get feesInfo "volume24h") zero_;
                     volume_change7d := or (Get feesInfo "volumeChange7d") zero_;
                     volume_cumulative := or (Get feesInfo "cumulativeVolume") zero_ |};
        logo := or (Get p "logo") (VString "");
        category := Get p "category" |}.

(** [new Map(feesData.protocols.map(p => [p.name.toLowerCase(), p]))] *)
Definition fees_by_name (feesData : value) : result (gmap string value) :=
  fees_protocols ← get feesData "protocols";
  entries ← Array_map (fun p => p_name ← get p "name";
                                lowered ← call_toLowerCase p_name;
                                Ok (lowered, p)) fees_protocols;
  Ok (new_Map entries).

Definition is_liquid_staking (p : value) : result bool :=
  p_category ← get p "category"; Ok (strict_equals_string p_category "Liquid Staking").

(** [protocolsData.filter(...)] *)
Definition retained (protocolsData : value) : result (list value) :=
  Array_filter is_liquid_staking protocolsData.

Definition liquidStakingProtocols (protocolsData feesData : value) : result (list Protocol) :=
  feesMap ← fees_by_name feesData;
  kept ← retained protocolsData;
  mapM (M := result) (transform feesMap) kept.

(** The body of [try]. *)
Definition try_body (net : Network) : result (list Protocol) :=
  responses ← Promise_all (fees_settles_first net) (protocolsRequest net) (feesRequest net);
  let '(protocolsResponse, feesResponse) := responses in
  if (negb (ok protocolsResponse) || negb (ok feesResponse))%bool
  then Throw (Error "Failed to fetch protocol data")
  else
    protocolsData ← json protocolsResponse;
    feesData ← json feesResponse;
    liquidStakingProtocols protocolsData feesData.

(** The calls of the state setters, in order. *)
Inductive action :=
| setProtocols (rows : list Protocol)
| setLoading (b : bool)
| setError (message : option string).

(** [err instanceof Error ? err.message : 'Failed to fetch protocol data'] *)
Definition message_of (err : exn) : string :=
  match err with
  | Error message => message
  | Thrown _ => "Failed to fetch protocol data"
  end.

Definition fetchProtocolsData (net : Network) : list action :=
  match try_body net with
  | Ok rows => [setProtocols rows; setLoading false]
  | Throw err => [setError (Some (message_of err)); setLoading false]
  end.

Definition set (act : action) (w : State * gmap loc (list Protocol)) : State * gmap loc (list Protocol) :=
  let '(st, σ) := w in
  match act with
  | setProtocols rows =>
      let '(a, σ) := alloc rows σ in
      ({| protocols := a; loading := loading st; error := error st; sortConfig := sortConfig st |}, σ)
  | setLoading b =>
      ({| protocols := protocols st; loading := b; error := error st; sortConfig := sortConfig st |}, σ)
  | setError message =>
      ({| protocols := protocols st; loading := loading st; error := message; sortConfig := sortConfig st |}, σ)
  end.

Definition run (acts : list action) (w : State * gmap loc (list Protocol)) : State * gmap loc (list Protocol) :=
  fold_left (fun w act => set act w) acts w.

(** What the page shows. *)
Inductive view := loading_view | error_view (message : string) | table_view.

Definition render (st : State) : view :=
  if loading st then loading_view
  else match error st with
       | Some message => if String.eqb message "" then table_view else error_view message
       | None => table_view
       end.

(** ** Formatting *)

Inductive format := currency | percentage.

Definition formatNumber (value : number) (type : format) : string :=
  match type with
  | percentage => (if ge value 0 then "+" else "") ++ toFixed value 2 ++ "%"
  | currency =>
      if ge value 1e9 then "$" ++ toFixed (value / 1e9) 2 ++ "B"
      else if ge value 1e6 then "$" ++ toFixed (value / 1e6) 2 ++ "M"
      else if ge value 1e3 then "$" ++ toFixed (value / 1e3) 2 ++ "K"
      else "$" ++ toFixed value 2
  end.

Definition calculateTvlChange (current previous : number) : number :=
  if negb (ToBoolean (VNumber previous)) then 0%float
  else (((current - previous) / previous) * 100)%float.

(** ** Sorting *)

Definition setSortConfig (update : SortConfig -> SortConfig) (st : State) : State :=
  {| protocols := protocols st; loading := loading st; error := error st;
     sortConfig := update (sortConfig st) |}.

(** A click on the header of the column [k]. *)
Definition sortData (k : string) : State -> State :=
  setSortConfig (fun prevConfig =>
    {| key := k;
       direction := if (String.eqb (key prevConfig) k
                        && match direction prevConfig with desc => true | asc => false end)%bool
                    then asc else desc |}).

(** [aValue] and [bValue] as the comparison finds them. *)
Definition sort_values (k : string) (a b : Protocol) : result (value * value) :=
  let aValue := Get (object_of a) k in
  let bValue := Get (object_of b) k in
  if String.eqb (typeof aValue) "object" then
    let keys := split "." k in
    aValue ← reduce get keys (object_of a);
    bValue ← reduce get keys (object_of b);
    Ok (aValue, bValue)
  else Ok (aValue, bValue).

(** The comparator handed to [sort]. *)
Definition compare (sortConfig : SortConfig) (a b : Protocol) : result number :=
  values ← sort_values (key sortConfig) a b;
  let '(aValue, bValue) := values in
  match direction sortConfig with
  | asc => above ← js_gt aValue bValue; Ok (if above : bool then 1 else -1)%float
  | desc => below ← js_lt aValue bValue; Ok (if below : bool then 1 else -1)%float
  end.

Definition getSortedProtocols (st : State) (σ : gmap loc (list Protocol))
  : result loc * gmap loc (list Protocol) :=
  let '(sorted, σ) := spread (protocols st) σ in
  Array_prototype_sort (compare (sortConfig st)) sorted σ.


(** ** The table *)

(** [<ArrowDown />] and [<ArrowUp />] *)
Inductive arrow := ArrowDown | ArrowUp.

(** The arrow in the header of a column:
    [sortConfig.key === column &&
       (sortConfig.direction === 'desc' ? <ArrowDown /> : <ArrowUp />)];
    [false] is rendered as nothing. *)
Definition sort_arrow (column : string) (sortConfig : SortConfig) : option arrow :=
  if String.eqb (key sortConfig) column
  then Some (match direction sortConfig with desc => ArrowDown | asc => ArrowUp end)
  else None.

(** The columns whose header has [onClick={() => sortData(column)}]. *)
Definition sortable : list string := ["tvl"; "fees.24h"; "revenue.24h"].

(** The cell "TVL Change (24h)" of a row, for a TVL and a TVL of the
    previous day that are numbers: its colour and its text. *)
Inductive colour := green | red.

Record Cell := { className : colour; children : string }.

Definition tvlChange_cell (tvl tvlPrevDay : number) : Cell :=
  let tvlChange24h := calculateTvlChange tvl tvlPrevDay in
  {| className := if ge tvlChange24h 0 then green else red;
     children := formatNumber tvlChange24h percentage |}.

End Protocols.

(* ===================================================================== *)
(** * Notions used in the statements                                      *)
(* ===================================================================== *)

(** The string ends in a point and two more characters. *)
Definition two_decimals (s : string) : Prop :=
  exists a b, s = a ++ "." ++ b /\ String.length b = 2.

(** The string starts with ["+"]. *)
Definition explicit_plus (s : string) : bool :=
  match s with
  | String c _ => Ascii.eqb c "+"
  | "" => false
  end.

(** The Number just below [x]. *)
Definition below (x : number) : number := next_down x.

(** The key has a dot in it. *)
Definition dotted (k : string) : bool :=
  existsb (fun c => Ascii.eqb c ".") (list_ascii_of_string k).

(** The sort value of a row: its property under the key, as written. *)
Definition sort_value (k : string) (row : Protocols.Protocol) : value :=
  Get (Protocols.object_of row) k.

(** The TVL of the row is a number, and not NaN. *)
Definition numeric_tvl (row : Protocols.Protocol) : Prop :=
  exists x, Protocols.tvl row = VNumber x /\ is_nan x = false.

(** The TVL of [a] is at least the TVL of [b]. *)
Definition tvl_at_least (a b : Protocols.Protocol) : Prop :=
  exists x y, Protocols.tvl a = VNumber x /\ Protocols.tvl b = VNumber y /\ ge x y = true.

Definition descending_by_tvl (rows : list Protocols.Protocol) : Prop :=
  StronglySorted tvl_at_least rows.

(** The page showing the table, with the rows at [a] and a sort
    configuration. *)
Definition table (a : loc) (cfg : Protocols.SortConfig) : Protocols.State :=
  {| Protocols.protocols := a; Protocols.loading := false; Protocols.error := None;
     Protocols.sortConfig := cfg |}.

(** The state and the store after the page is mounted and the fetch cycle
    has run. *)
Definition after_fetch (net : Protocols.Network) (σ : gmap loc (list Protocols.Protocol))
  : Protocols.State * gmap loc (list Protocols.Protocol) :=
  Protocols.run (Protocols.fetchProtocolsData net) (Protocols.mount σ).

(** The record the merge finds for a protocol of the given name. *)
Definition feesInfo_of (feesMap : gmap string value) (name : string) : value :=
  or (default VUndefined (feesMap !! toLowerCase name)) (VObject []).

(** The fields of a row that come from the fee record, each with the name
    of the raw field it is read from; and those that come from the
    protocol. *)
Definition fee_fields : list (string * (Protocols.Protocol -> value)) :=
  [ ("total24h", fun row => Protocols.fees_24h (Protocols.fees row));
    ("total7d", fun row => Protocols.fees_7d (Protocols.fees row));
    ("total30d", fun row => Protocols.fees_30d (Protocols.fees row));
    ("monthlyAvg1y", fun row => Protocols.fees_monthlyAvg1y (Protocols.fees row));
    ("revenue24h", fun row => Protocols.revenue_24h (Protocols.revenue row));
    ("revenue7d", fun row => Protocols.revenue_7d (Protocols.revenue row));
    ("revenue30d", fun row => Protocols.revenue_30d (Protocols.revenue row));
    ("revenue1y", fun row => Protocols.revenue_1y (Protocols.revenue row));
    ("userFees24h", Protocols.userFees24h);
    ("cumulativeFees", Protocols.cumulativeFees);
    ("holdersRevenue24h", fun row => Protocols.holdersRevenue_24h (Protocols.holdersRevenue row));
    ("holdersRevenue30d", fun row => Protocols.holdersRevenue_30d (Protocols.holdersRevenue row));
    ("treasuryRevenue24h", Protocols.treasuryRevenue24h);
    ("supplyRevenue", Protocols.supplyRevenue);
    ("volume24h", fun row => Protocols.volume_24h (Protocols.volume row));
    ("volumeChange7d", fun row => Protocols.volume_change7d (Protocols.volume row));
    ("cumulativeVolume", fun row => Protocols.volume_cumulative (Protocols.volume row)) ].

Definition protocol_fields : list (string * (Protocols.Protocol -> value)) :=
  [ ("tvl", Protocols.tvl);
    ("tvlPrevDay", Protocols.tvlPrevDay);
    ("tvlPrevMonth", Protocols.tvlPrevMonth);
    ("mcap", Protocols.mcap) ].

(** The offers in ascending order of fee. *)
Definition fee_at_most (a b : TokenCard.Platform) : Prop :=
  (TokenCard.fee a <=? TokenCard.fee b)%float = true.

Definition ascending_by_fee (offers : list TokenCard.Platform) : Prop :=
  StronglySorted fee_at_most offers.

(** Valid offers: every fee is a number other than NaN. *)
Definition valid_fees (offers : list TokenCard.Platform) : Prop :=
  Forall (fun p => is_nan (TokenCard.fee p) = false) offers.

(** An offer with a fee, and a token with its offers at [a]. *)
Definition offer (name : string) (fee : number) : TokenCard.Platform :=
  {| TokenCard.name := name; TokenCard.fee := fee; TokenCard.minStake := 0; TokenCard.apy := 0 |}.

Definition token_with (a : loc) : TokenCard.StakingToken :=
  {| TokenCard.token_name := "Ether"; TokenCard.symbol := "ETH"; TokenCard.image := "";
     TokenCard.marketCapRank := None; TokenCard.price := None;
     TokenCard.priceChangePercentage24h := None; TokenCard.tvl := None;
     TokenCard.tvlChange1d := None; TokenCard.volume24h := None;
     TokenCard.volumeChange7d := None; TokenCard.revenue24h := None;
     TokenCard.priceToSales := None; TokenCard.fees24h := None; TokenCard.priceToFees := None;
     TokenCard.platforms := a |}.

(** A row with a name, a TVL and the fees of the last 24 hours. *)
Definition sample (name : string) (tvl fees_24h : number) : Protocols.Protocol :=
  let zero := VNumber 0 in
  {| Protocols.name := VString name;
     Protocols.symbol := VString "";
     Protocols.tvl := VNumber tvl;
     Protocols.tvlPrevDay := zero;
     Protocols.tvlPrevMonth := zero;
     Protocols.mcap := zero;
     Protocols.fees := {| Protocols.fees_24h := VNumber fees_24h; Protocols.fees_7d := zero;
                          Protocols.fees_30d := zero; Protocols.fees_monthlyAvg1y := zero |};
     Protocols.revenue := {| Protocols.revenue_24h := zero; Protocols.revenue_7d := zero;
                             Protocols.revenue_30d := zero; Protocols.revenue_1y := zero |};
     Protocols.userFees24h := zero;
     Protocols.cumulativeFees := zero;
     Protocols.holdersRevenue := {| Protocols.holdersRevenue_24h := zero;
                                    Protocols.holdersRevenue_30d := zero |};
     Protocols.treasuryRevenue24h := zero;
     Protocols.supplyRevenue := zero;
     Protocols.volume := {| Protocols.volume_24h := zero; Protocols.volume_change7d := zero;
                            Protocols.volume_cumulative := zero |};
     Protocols.logo := VString "";
     Protocols.category := VString "Liquid Staking";
     Protocols.slug := VUndefined |}.

(** The sign of a rounded result: above zero, or not. *)
Definition positive_result (r : spec_float) : Prop :=
  match r with
  | S754_finite false _ _ | S754_infinity false => True
  | _ => False
  end.

Definition not_positive (r : spec_float) : Prop :=
  match r with
  | S754_finite false _ _ | S754_infinity false => False
  | _ => True
  end.

(** NaN counts as +0, as in [SortCompare]. *)
Definition nan_as_zero (r : spec_float) : spec_float :=
  match r with S754_nan => S754_zero false | _ => r end.

(** ** The data of the fetch cycle *)

(** The record has a name, a string. *)
Definition named (p : value) : Prop := exists s, Get p "name" = VString s.

(** The key under which a fee record enters the lookup table, and under
    which a protocol looks its fee record up: the name in lower case. *)
Definition name_key (p : value) : option string :=
  match Get p "name" with
  | VString s => Some (toLowerCase s)
  | _ => None
  end.

(** Anything but undefined and null. *)
Definition has_properties (v : value) : bool :=
  match v with
  | VUndefined | VNull => false
  | _ => true
  end.

(** [p.category === 'Liquid Staking'] *)
Definition liquid_staking (p : value) : bool :=
  strict_equals_string (Get p "category") "Liquid Staking".

(** What [raw || 0] can be: the number 0, or a truthy value. *)
Definition defaulted (v : value) : Prop := v = VNumber 0 \/ ToBoolean v = true.

(** The fields of a row that the merge fills with [raw || 0] hold 0 or a
    truthy value, a number among them is not NaN, and the symbol and the
    logo hold [""] or a truthy value. *)
Definition defaults_applied (row : Protocols.Protocol) : Prop :=
  Forall (fun f : string * (Protocols.Protocol -> value) => defaulted (f.2 row))
    (fee_fields ++ protocol_fields)%list
  /\ Forall (fun f : string * (Protocols.Protocol -> value) =>
               forall x, f.2 row = VNumber x -> is_nan x = false)
       (fee_fields ++ protocol_fields)%list
  /\ (Protocols.symbol row = VString "" \/ ToBoolean (Protocols.symbol row) = true)
  /\ (Protocols.logo row = VString "" \/ ToBoolean (Protocols.logo row) = true).

(** A raw field as the API documents it: a number, or absent. *)
Definition number_or_absent (v : value) : Prop :=
  v = VUndefined \/ v = VNull \/ exists x, v = VNumber x.

(** Sample payloads: three protocols, two of them of the category, and a
    fee overview with two records for Lido; and the network that answers
    with them. *)
Definition protocols_payload : value :=
  VArray
    [ VObject [ ("name", VString "Lido"); ("category", VString "Liquid Staking");
                ("tvl", VNumber 10%float) ];
      VObject [ ("name", VString "Aave"); ("category", VString "Lending");
                ("tvl", VNumber 30%float) ];
      VObject [ ("name", VString "Rocket Pool"); ("category", VString "Liquid Staking");
                ("tvl", VNumber 20%float) ] ].

Definition fees_payload : value :=
  VObject
    [ ("protocols",
       VArray
         [ VObject [ ("name", VString "LIDO"); ("total24h", VNumber 1%float) ];
           VObject [ ("name", VString "lido"); ("total24h", VNumber 2%float) ] ]) ].

Definition answered : Protocols.Network :=
  {| Protocols.protocolsRequest :=
       Ok {| Protocols.ok := true; Protocols.json := Ok protocols_payload |};
     Protocols.feesRequest :=
       Ok {| Protocols.ok := true; Protocols.json := Ok fees_payload |};
     Protocols.fees_settles_first := false |}.

(** The value of the last entry with the key. *)
Fixpoint latest (k : string) (entries : list (string * value)) : option value :=
  match entries with
  | [] => None
  | (k', v) :: rest =>
      match latest k rest with
      | Some w => Some w
      | None => if String.eqb k' k then Some v else None
      end
  end.

(** The two payloads have the shape the merge relies on: the fee
    overview holds an array [protocols] of named records, the protocol
    list is an array without undefined or null, and the protocols of the
    category are named. *)
Definition well_formed (protocolsData feesData : value) : Prop :=
  exists records l,
    Get feesData "protocols" = VArray records /\ Forall named records
    /\ protocolsData = VArray l /\ Forall (fun p => has_properties p = true) l
    /\ Forall named (List.filter liquid_staking l).

(** ** The order of the table *)

(** The TVL of [a] is below the TVL of [b]. *)
Definition tvl_below (a b : Protocols.Protocol) : Prop :=
  exists x y, Protocols.tvl a = VNumber x /\ Protocols.tvl b = VNumber y /\ lt x y = true.

Definition ascending_by_tvl (rows : list Protocols.Protocol) : Prop :=
  StronglySorted (fun a b => tvl_at_least b a) rows.

(** No row occurs twice, and no two rows have the same TVL. *)
Definition distinct_tvl (rows : list Protocols.Protocol) : Prop :=
  NoDup rows
  /\ forall a b, a ∈ rows -> b ∈ rows -> a <> b -> tvl_below a b \/ tvl_below b a.

(** The page after the headers of the given columns have been clicked,
    one after the other. *)
Definition clicks (columns : list string) (st : Protocols.State) : Protocols.State :=
  fold_left (fun st column => Protocols.sortData column st) columns st.

(** The arrows the three sortable headers show. *)
Definition arrows (st : Protocols.State) : list (option Protocols.arrow) :=
  map (fun column => Protocols.sort_arrow column (Protocols.sortConfig st)) Protocols.sortable.

(** ** The sign of a number *)

(** The string starts with ["-"]. *)
Definition explicit_minus (s : string) : bool :=
  match s with
  | String c _ => Ascii.eqb c "-"
  | "" => false
  end.

(** A number that is a zero, or has the sign [s] and is not NaN. *)
Definition zero_or_signed (s : bool) (r : spec_float) : Prop :=
  match r with
  | S754_zero _ => True
  | S754_finite s' _ _ | S754_infinity s' => s' = s
  | S754_nan => False
  end.

(** A number with the sign [s] and a magnitude of [2^(k-1)] at least,
    infinite or not. *)
Definition signed_at_least (s : bool) (k : Z) (r : spec_float) : Prop :=
  match r with
  | S754_finite s' m e => s' = s /\ (k <= Zpos (digits2_pos m) + e)%Z
  | S754_infinity s' => s' = s
  | _ => False
  end.

(** ** The offers of the card *)

(** The offer has the fee [f]. *)
Definition same_fee (f : number) (p : TokenCard.Platform) : bool :=
  (TokenCard.fee p =? f)%float.

(** ** Decimals in fixed notation *)

(** The value of a decimal digit. *)
Definition digit (c : ascii) : option Z :=
  let n := N_of_ascii c in
  if ((48 <=? n) && (n <=? 57))%N then Some (Z.of_N n - 48)%Z else None.

(** The number a string of digits spells, read after the digits of
    [acc]. *)
Fixpoint number_of (acc : Z) (s : string) : option Z :=
  match s with
  | "" => Some acc
  | String c s' =>
      match digit c with
      | Some d => number_of (10 * acc + d) s'
      | None => None
      end
  end.

(** Digits with one point among them and at least one digit after it:
    the number all the digits spell, and how many of them follow the
    point.  [point] counts the digits read after the point. *)
Fixpoint fixed_value (point : option nat) (acc : Z) (s : string) : option (Z * nat) :=
  match s with
  | "" =>
      match point with
      | Some (S f) => Some (acc, S f)
      | _ => None
      end
  | String c s' =>
      if Ascii.eqb c "."
      then match point with
           | None => fixed_value (Some 0) acc s'
           | Some _ => None
           end
      else match digit c with
           | Some d => fixed_value (option_map S point) (10 * acc + d) s'
           | None => None
           end
  end.

(** The decimal a string in fixed notation denotes: an optional ["-"],
    at least one digit, a point and at least one digit.  [(s, n, f)]
    stands for [n / 10^f], negated when [s] holds. *)
Definition decimal_of (s : string) : option (bool * Z * nat) :=
  let '(negative, body) :=
    match s with
    | String c r => if Ascii.eqb c "-" then (true, r) else (false, s)
    | "" => (false, s)
    end in
  match body with
  | String c _ =>
      if Ascii.eqb c "." then None
      else match fixed_value None 0 body with
           | Some (n, f) => Some (negative, n, f)
           | None => None
           end
  | "" => None
  end.

(** [n / 10^f] is the multiple of [10^-f] nearest to [m * 2^e], the
    larger one of two:  [n - 1/2 <= m * 2^e * 10^f < n + 1/2],  cleared of
    fractions. *)
Definition nearest (n : Z) (f : nat) (m : positive) (e : Z) : Prop :=
  ((2 * n - 1) * 2 ^ Z.max 0 (- e)
   <= 2 * (Zpos m * 10 ^ Z.of_nat f) * 2 ^ Z.max 0 e
   < (2 * n + 1) * 2 ^ Z.max 0 (- e))%Z.

(** The decimal [d] is the number [x] rounded to [f] digits after the
    point: a zero gives 0, and a number of magnitude [m * 2^e] the
    decimal nearest to its magnitude, with its sign. *)
Definition rounds_to (x : number) (f : nat) (d : bool * Z * nat) : Prop :=
  match Prim2SF x with
  | S754_zero _ => d = (false, 0%Z, f)
  | S754_finite s m e => exists n, d = (s, n, f) /\ nearest n f m e
  | _ => False
  end.

(** The string is the number [x] to two decimal places: it is in fixed
    notation with two digits after the point, and denotes [x] rounded
    to two decimals. *)
Definition to_two_decimals (x : number) (s : string) : Prop :=
  two_decimals s /\ exists d, decimal_of s = Some d /\ rounds_to x 2 d.

(* ===================================================================== *)
(** * Numbers                                                             *)
(* ===================================================================== *)

Section NumberFacts.

(** The order of [spec_float] compares signs, then exponents, then
    mantissas. *)
Ltac by_cases :=
  repeat match goal with
    | s : bool |- _ => destruct s
    end;
  simpl in *; try discriminate; try reflexivity; auto;
  repeat match goal with
    | H : context [Pos.compare_cont Eq ?a ?b] |- _ =>
        change (Pos.compare_cont Eq a b) with (Pos.compare a b) in H
    | |- context [Pos.compare_cont Eq ?a ?b] =>
        change (Pos.compare_cont Eq a b) with (Pos.compare a b)
    end;
  repeat match goal with
    | H : context [(?a ?= ?b)%Z] |- _ => destruct (Z.compare_spec a b)
    | |- context [(?a ?= ?b)%Z] => destruct (Z.compare_spec a b)
    | H : context [(?a ?= ?b)%positive] |- _ => destruct (Pos.compare_spec a b)
    | |- context [(?a ?= ?b)%positive] => destruct (Pos.compare_spec a b)
    end;
  simpl in *; try discriminate; try reflexivity; auto; try lia.

Lemma SFcompare_refl x : SFcompare x x = Some Eq \/ SFcompare x x = None.
Proof. destruct x; by_cases. Qed.

Lemma SFcompare_swap x y c : SFcompare x y = Some c -> SFcompare y x = Some (CompOpp c).
Proof. destruct x, y; intros H; by_cases; injection H as <-; reflexivity. Qed.

Lemma SFcompare_total x y :
  x <> S754_nan -> y <> S754_nan -> exists c, SFcompare x y = Some c.
Proof. destruct x, y; intros Hx Hy; try congruence; simpl; eauto. Qed.

Lemma SFcompare_Lt_trans x y z :
  SFcompare x y = Some Lt -> SFcompare y z = Some Lt -> SFcompare x z = Some Lt.
Proof. destruct x, y, z; intros H1 H2; by_cases. Qed.

Lemma SFcompare_Eq_Lt x y z :
  SFcompare x y = Some Eq -> SFcompare y z = Some Lt -> SFcompare x z = Some Lt.
Proof. destruct x, y, z; intros H1 H2; by_cases. Qed.

Lemma SFcompare_Lt_Eq x y z :
  SFcompare x y = Some Lt -> SFcompare y z = Some Eq -> SFcompare x z = Some Lt.
Proof. destruct x, y, z; intros H1 H2; by_cases. Qed.

Lemma SFcompare_Eq_trans x y z :
  SFcompare x y = Some Eq -> SFcompare y z = Some Eq -> SFcompare x z = Some Eq.
Proof. destruct x, y, z; intros H1 H2; by_cases. Qed.

Lemma ltb_irrefl (x : number) : (x <? x)%float = false.
Proof.
  rewrite ltb_spec. unfold SFltb.
  destruct (SFcompare_refl (Prim2SF x)) as [-> | ->]; reflexivity.
Qed.

Lemma is_nan_spec (x : number) : is_nan x = true <-> Prim2SF x = S754_nan.
Proof.
  unfold is_nan. rewrite FloatAxioms.eqb_spec. unfold SFeqb.
  destruct (SFcompare_refl (Prim2SF x)) as [E | E]; rewrite E; simpl.
  - split; [discriminate|]. intros H. rewrite H in E. discriminate.
  - split; [intros _|reflexivity]. destruct (Prim2SF x); try discriminate; try reflexivity; revert E; by_cases.
Qed.

Lemma not_nan_spec (x : number) : is_nan x = false <-> Prim2SF x <> S754_nan.
Proof.
  rewrite <- is_nan_spec. destruct (is_nan x); split; congruence.
Qed.

(** [x < y] excludes [x >= y]. *)
Lemma lt_not_ge (x y : number) : lt x y = true -> ge x y = false.
Proof.
  unfold lt, ge. rewrite ltb_spec, leb_spec. unfold SFltb, SFleb.
  destruct (SFcompare (Prim2SF x) (Prim2SF y)) as [c|] eqn:E; try discriminate.
  rewrite (SFcompare_swap _ _ _ E). destruct c; simpl; congruence.
Qed.

(** Numbers other than NaN are totally ordered. *)
Lemma not_lt_ge (x y : number) :
  is_nan x = false -> is_nan y = false -> lt x y = false -> ge x y = true.
Proof.
  rewrite !not_nan_spec. unfold lt, ge. rewrite ltb_spec, leb_spec. unfold SFltb, SFleb.
  intros Hx Hy. destruct (SFcompare_total _ _ Hx Hy) as [c E]. rewrite E.
  rewrite (SFcompare_swap _ _ _ E). destruct c; simpl; congruence.
Qed.

Lemma lt_ge (x y : number) : lt x y = true -> ge y x = true.
Proof.
  unfold lt, ge. rewrite ltb_spec, leb_spec. unfold SFltb, SFleb.
  destruct (SFcompare (Prim2SF x) (Prim2SF y)) as [[]|]; congruence.
Qed.

Lemma lt_trans (x y z : number) : lt x y = true -> lt y z = true -> lt x z = true.
Proof.
  unfold lt. rewrite !ltb_spec. unfold SFltb.
  destruct (SFcompare (Prim2SF x) (Prim2SF y)) as [[]|] eqn:E1; try discriminate.
  destruct (SFcompare (Prim2SF y) (Prim2SF z)) as [[]|] eqn:E2; try discriminate.
  now rewrite (SFcompare_Lt_trans _ _ _ E1 E2).
Qed.

Lemma ge_trans (x y z : number) : ge x y = true -> ge y z = true -> ge x z = true.
Proof.
  unfold ge. rewrite !leb_spec. unfold SFleb. intros H1 H2.
  destruct (SFcompare (Prim2SF z) (Prim2SF y)) as [[]|] eqn:E2; try discriminate;
  destruct (SFcompare (Prim2SF y) (Prim2SF x)) as [[]|] eqn:E1; try discriminate.
  - now rewrite (SFcompare_Eq_trans _ _ _ E2 E1).
  - now rewrite (SFcompare_Eq_Lt _ _ _ E2 E1).
  - now rewrite (SFcompare_Lt_Eq _ _ _ E2 E1).
  - now rewrite (SFcompare_Lt_trans _ _ _ E2 E1).
Qed.

Lemma ge_not_nan (x y : number) : ge x y = true -> is_nan x = false /\ is_nan y = false.
Proof.
  unfold ge. rewrite leb_spec, !not_nan_spec. unfold SFleb.
  destruct (Prim2SF x), (Prim2SF y); simpl; try discriminate; split; congruence.
Qed.

End NumberFacts.

(* ===================================================================== *)
(** * The sign of a difference                                            *)
(* ===================================================================== *)

Section FloatSub.

Lemma fexp_spec e : SpecFloat.fexp prec emax e = Z.max (e - 53) (-1074).
Proof. reflexivity. Qed.

Lemma digits2_size m : digits2_pos m = Pos.size m.
Proof. induction m; simpl; congruence. Qed.

Lemma digits2_log2 m : Zpos (digits2_pos m) = (Z.log2 (Zpos m) + 1)%Z.
Proof. destruct m; simpl; rewrite ?digits2_size; lia. Qed.

Lemma digits2_bounds m :
  (2 ^ (Zpos (digits2_pos m) - 1) <= Zpos m < 2 ^ Zpos (digits2_pos m))%Z.
Proof.
  rewrite digits2_log2. replace (Z.log2 (Zpos m) + 1 - 1)%Z with (Z.log2 (Zpos m)) by lia.
  apply Z.log2_spec. lia.
Qed.

Lemma shr_1_m mrs : (0 <= shr_m mrs)%Z -> shr_m (shr_1 mrs) = Z.div2 (shr_m mrs).
Proof. destruct mrs as [[|[p|p|]|p] r s]; simpl; intros H; try reflexivity; lia. Qed.

Lemma shr_1_nonneg mrs : (0 <= shr_m mrs)%Z -> (0 <= shr_m (shr_1 mrs))%Z.
Proof. intros H. rewrite shr_1_m by exact H. apply Z.div2_nonneg. exact H. Qed.

Lemma iter_shr_1 p : forall mrs, (0 <= shr_m mrs)%Z ->
  shr_m (SpecFloat.iter_pos shr_1 p mrs) = Z.shiftr (shr_m mrs) (Zpos p).
Proof.
  induction p as [p IH|p IH|]; intros mrs H; simpl.
  - assert (H1 := shr_1_nonneg mrs H).
    rewrite IH, IH, shr_1_m by (rewrite ?IH; try apply Z.shiftr_nonneg; assumption).
    rewrite Z.div2_spec, !Z.shiftr_shiftr by lia. f_equal. lia.
  - rewrite IH, IH by (rewrite ?IH; try apply Z.shiftr_nonneg; assumption).
    rewrite Z.shiftr_shiftr by lia. f_equal. lia.
  - rewrite shr_1_m by exact H. apply Z.div2_spec.
Qed.

Lemma shr_record_of_loc_m m l : shr_m (shr_record_of_loc m l) = m.
Proof. destruct l as [|[]]; reflexivity. Qed.

(** Rounding keeps a bit of a positive mantissa whose exponent is not
    below the least one. *)
Lemma shr_fexp_pos m e l :
  (0 < m)%Z -> (-1074 <= e)%Z ->
  (0 < shr_m (shr_fexp prec emax m e l).1)%Z /\ (-1074 <= (shr_fexp prec emax m e l).2)%Z.
Proof.
  intros Hm He. unfold shr_fexp, shr.
  destruct m as [|m|m]; try lia. simpl Zdigits2.
  assert (Hd := digits2_bounds m). set (d := Zpos (digits2_pos m)) in *.
  assert (0 < d)%Z by (subst d; lia).
  rewrite fexp_spec.
  destruct (Z.max (d + e - 53) (-1074) - e)%Z as [|n|n] eqn:En; simpl;
    rewrite ?shr_record_of_loc_m; try (split; lia).
  rewrite iter_shr_1 by (rewrite shr_record_of_loc_m; lia).
  rewrite shr_record_of_loc_m. split; [|lia].
  rewrite Z.shiftr_div_pow2 by lia.
  apply Z.div_str_pos. split; [apply Z.pow_pos_nonneg; lia|].
  apply Z.le_trans with (2 ^ (d - 1))%Z; [|lia].
  apply Z.pow_le_mono_r; lia.
Qed.

Lemma round_nearest_even_pos m l : (0 < m)%Z -> (0 < round_nearest_even m l)%Z.
Proof. intros H. destruct l as [|[]]; simpl; try destruct (Z.even m); lia. Qed.

Lemma binary_round_aux_pos m e l :
  (0 < m)%Z -> (-1074 <= e)%Z -> positive_result (binary_round_aux prec emax false m e l).
Proof.
  intros Hm He. unfold binary_round_aux.
  destruct (shr_fexp_pos m e l Hm He) as [H1 H2].
  destruct (shr_fexp prec emax m e l) as [mrs' e']. simpl in H1, H2.
  assert (H3 := round_nearest_even_pos (shr_m mrs') (loc_of_shr_record mrs') H1).
  destruct (shr_fexp_pos _ e' loc_Exact H3 H2) as [H4 H5].
  destruct (shr_fexp prec emax _ e' loc_Exact) as [mrs'' e'']. simpl in H4.
  destruct (shr_m mrs''); try lia. destruct (e'' <=? emax - prec)%Z; exact I.
Qed.

Lemma binary_round_aux_neg m e l : not_positive (binary_round_aux prec emax true m e l).
Proof.
  unfold binary_round_aux.
  destruct (shr_fexp prec emax m e l) as [mrs' e'].
  destruct (shr_fexp prec emax _ e' loc_Exact) as [mrs'' e''].
  destruct (shr_m mrs''); try exact I. destruct (e'' <=? emax - prec)%Z; exact I.
Qed.

Lemma shl_align_exponent m e e' : (-1074 <= e)%Z -> (-1074 <= e')%Z ->
  (-1074 <= (shl_align m e e').2)%Z.
Proof. unfold shl_align. destruct (e' - e)%Z; simpl; lia. Qed.

(** The sign of a rounded integer multiple of [2^e]. *)
Lemma binary_normalize_sign z e :
  (-1074 <= e)%Z ->
  match z with
  | Zpos _ => positive_result (binary_normalize prec emax z e false)
  | _ => not_positive (binary_normalize prec emax z e false)
  end.
Proof.
  intros He. destruct z as [|m|m]; simpl; [exact I| |]; unfold binary_round.
  - assert (H := shl_align_exponent m e (SpecFloat.fexp prec emax (Zpos (digits2_pos m) + e)) He).
    destruct (shl_align m e _) as [mz ez]. apply binary_round_aux_pos; [lia|].
    apply H. rewrite fexp_spec. lia.
  - destruct (shl_align m e _) as [mz ez]. apply binary_round_aux_neg.
Qed.


Lemma iter_xO m d : Zpos (Pos.iter xO m d) = (Zpos m * 2 ^ Zpos d)%Z.
Proof.
  induction d as [|d IH] using Pos.peano_ind.
  - simpl. lia.
  - rewrite Pos.iter_succ, Pos2Z.inj_xO, IH, Pos2Z.inj_succ, Z.pow_succ_r by lia. lia.
Qed.

Lemma shl_align_value m e e' :
  (e' <= e)%Z -> Zpos (shl_align m e e').1 = (Zpos m * 2 ^ (e - e'))%Z.
Proof.
  intros H. unfold shl_align. destruct (e' - e)%Z as [|d|d] eqn:E; simpl; try lia.
  - replace (e - e')%Z with 0%Z by lia. lia.
  - rewrite iter_xO. f_equal. f_equal. lia.
Qed.

(** A mantissa in canonical form: at most 53 bits, and exactly 53 above
    the least exponent. *)
Lemma bounded_spec m e :
  bounded prec emax m e = true ->
  (-1074 <= e)%Z /\ (Zpos m < 2 ^ 53)%Z /\ ((-1074 < e)%Z -> (2 ^ 52 <= Zpos m)%Z).
Proof.
  unfold bounded, canonical_mantissa. intros H.
  apply andb_true_iff in H as [H _]. apply Z.eqb_eq in H. rewrite fexp_spec in H.
  assert (Hd := digits2_bounds m). set (d := Zpos (digits2_pos m)) in *.
  assert (0 < d)%Z by (subst d; lia).
  split; [lia|]. split.
  - apply Z.lt_le_trans with (2 ^ d)%Z; [lia|]. apply Z.pow_le_mono_r; lia.
  - intros He. replace 52%Z with (d - 1)%Z by lia. lia.
Qed.

(** The order of two numbers in canonical form is the order of their
    mantissas once aligned. *)
Lemma aligned_compare mx ex my ey :
  bounded prec emax mx ex = true -> bounded prec emax my ey = true ->
  (match (ex ?= ey)%Z with
   | Lt => Lt
   | Gt => Gt
   | Eq => Pos.compare_cont Eq mx my
   end)
  = (Zpos (shl_align mx ex (Z.min ex ey)).1 ?= Zpos (shl_align my ey (Z.min ex ey)).1)%Z.
Proof.
  intros Hx Hy. rewrite !shl_align_value by lia.
  destruct (bounded_spec _ _ Hx) as (Hex & Hmx & Hnx).
  destruct (bounded_spec _ _ Hy) as (Hey & Hmy & Hny).
  destruct (Z.compare_spec ex ey) as [E|E|E].
  - subst ey. rewrite Z.min_id, Z.sub_diag. simpl (2 ^ 0)%Z. rewrite !Z.mul_1_r. reflexivity.
  - rewrite Z.min_l, Z.sub_diag by lia. simpl (2 ^ 0)%Z. rewrite Z.mul_1_r.
    symmetry. apply Z.compare_lt_iff.
    assert (2 ^ 1 <= 2 ^ (ey - ex))%Z by (apply Z.pow_le_mono_r; lia).
    specialize (Hny ltac:(lia)). nia.
  - rewrite Z.min_r, Z.sub_diag by lia. simpl (2 ^ 0)%Z. rewrite Z.mul_1_r.
    symmetry. apply Z.compare_gt_iff.
    assert (2 ^ 1 <= 2 ^ (ex - ey))%Z by (apply Z.pow_le_mono_r; lia).
    specialize (Hnx ltac:(lia)). nia.
Qed.

Lemma positive_result_lt r : positive_result r -> SFltb (S754_zero false) (nan_as_zero r) = true.
Proof. destruct r as [s|s| |s m e]; try destruct s; simpl; intros []; reflexivity. Qed.

Lemma not_positive_lt r : not_positive r -> SFltb (S754_zero false) (nan_as_zero r) = false.
Proof. destruct r as [s|s| |s m e]; try destruct s; simpl; intros []; reflexivity. Qed.

(** The difference of two numbers is above zero exactly when the first is
    above the second. *)
Lemma SFsub_sign x y :
  valid_binary x = true -> valid_binary y = true ->
  x <> S754_nan -> y <> S754_nan ->
  SFltb (S754_zero false) (nan_as_zero (SFsub prec emax x y)) = SFltb y x.
Proof.
  intros Vx Vy Nx Ny.
  destruct x as [sx|sx| |sx mx ex], y as [sy|sy| |sy my ey]; try congruence;
    try (destruct sx, sy; reflexivity); try (destruct sx; reflexivity);
    try (destruct sy; reflexivity).
  simpl in Vx, Vy. unfold SFsub.
  destruct (bounded_spec _ _ Vx) as (Hex & _). destruct (bounded_spec _ _ Vy) as (Hey & _).
  assert (Hs := binary_normalize_sign
    (cond_Zopp sx (Zpos (shl_align mx ex (Z.min ex ey)).1)
     - cond_Zopp sy (Zpos (shl_align my ey (Z.min ex ey)).1)) (Z.min ex ey) ltac:(lia)).
  assert (Hc := aligned_compare mx ex my ey Vx Vy).
  assert (Hc' := aligned_compare my ey mx ex Vy Vx). rewrite (Z.min_comm ey ex) in Hc'.
  set (zx := Zpos (shl_align mx ex (Z.min ex ey)).1) in *.
  set (zy := Zpos (shl_align my ey (Z.min ex ey)).1) in *.
  unfold SFltb at 2. unfold SFcompare.
  destruct sx, sy; simpl cond_Zopp in *.
  - replace (match (ey ?= ex)%Z with
             | Eq => CompOpp (Pos.compare_cont Eq my mx)
             | Lt => Gt
             | Gt => Lt
             end)
      with (CompOpp (match (ey ?= ex)%Z with
                     | Eq => Pos.compare_cont Eq my mx
                     | Lt => Lt
                     | Gt => Gt
                     end)) by (destruct (ey ?= ex)%Z; reflexivity).
    rewrite Hc'. destruct (Z.compare_spec zy zx) as [E|E|E]; simpl.
    + replace (- zx - - zy)%Z with 0%Z in * by lia. now apply not_positive_lt.
    + destruct (- zx - - zy)%Z eqn:Ez; try lia. now apply not_positive_lt.
    + destruct (- zx - - zy)%Z eqn:Ez; try lia. now apply positive_result_lt.
  - destruct (- zx - zy)%Z eqn:Ez; try lia. now apply not_positive_lt.
  - destruct (zx - - zy)%Z eqn:Ez; try lia. now apply positive_result_lt.
  - rewrite Hc'. destruct (Z.compare_spec zy zx) as [E|E|E]; simpl.
    + replace (zx - zy)%Z with 0%Z in * by lia. now apply not_positive_lt.
    + destruct (zx - zy)%Z eqn:Ez; try lia. now apply positive_result_lt.
    + destruct (zx - zy)%Z eqn:Ez; try lia. now apply not_positive_lt.
Qed.

(** The comparator [(a, b) => a - b] on numbers other than NaN. *)
Lemma difference_sign (a b : float) :
  is_nan a = false -> is_nan b = false ->
  (0 <? (if is_nan (a - b) then 0 else a - b))%float = (b <? a)%float.
Proof.
  intros Na Nb.
  assert (E : Prim2SF (if is_nan (a - b) then 0 else a - b)%float
              = nan_as_zero (SFsub prec emax (Prim2SF a) (Prim2SF b))).
  { destruct (is_nan (a - b)) eqn:N.
    - apply is_nan_spec in N. rewrite sub_spec in N. unfold SF64sub in N. rewrite N. reflexivity.
    - apply not_nan_spec in N. rewrite sub_spec in *. unfold SF64sub in *.
      destruct (SFsub prec emax (Prim2SF a) (Prim2SF b)); try reflexivity. congruence. }
  rewrite !ltb_spec, E.
  apply SFsub_sign; try apply Prim2SF_valid; now apply not_nan_spec.
Qed.

End FloatSub.

(* ===================================================================== *)
(** * The digits of a number                                              *)
(* ===================================================================== *)

Section DigitFacts.

Lemma decimal_head n : exists c r, decimal n = String c r /\ Ascii.eqb c "+" = false /\ Ascii.eqb c "-" = false.
Proof.
  unfold decimal, NilZero.string_of_uint.
  destruct (N.to_uint (Z.to_N n)); simpl; eauto.
Qed.

Lemma length_append (a b : string) : String.length (a ++ b) = String.length a + String.length b.
Proof. induction a as [|c a IH]; simpl; [reflexivity | now rewrite IH]. Qed.

Lemma length_zeros n : String.length (zeros n) = n.
Proof. induction n as [|n IH]; simpl; [reflexivity | now rewrite IH]. Qed.

Lemma length_substring s : forall n m, n + m <= String.length s -> String.length (substring n m s) = m.
Proof.
  induction s as [|c s IH]; intros [|n] [|m] H; simpl in *; try lia; try reflexivity.
  - rewrite (IH 0 m); lia.
  - apply IH; lia.
  - apply IH; lia.
Qed.

Lemma substring_head c r n : substring 0 (S n) (String c r) = String c (substring 0 n r).
Proof. reflexivity. Qed.

(** A number printed in fixed-point notation starts with a digit and, for
    two fraction digits, ends in a point and two digits. *)
Lemma fixed_point_head n f :
  exists c r, fixed_point n f = String c r /\ Ascii.eqb c "+" = false /\ Ascii.eqb c "-" = false.
Proof.
  unfold fixed_point. destruct f as [|f]; [apply decimal_head|].
  destruct (decimal_head n) as (c & r & -> & Hc).
  set (m := zeros _ ++ String c r).
  assert (Hm : exists c' r', m = String c' r' /\ Ascii.eqb c' "+" = false /\ Ascii.eqb c' "-" = false).
  { subst m. destruct (S (S f) - String.length (String c r)); simpl; eauto. }
  assert (Hl : S (S f) <= String.length m).
  { subst m. rewrite length_append, length_zeros. lia. }
  destruct Hm as (c' & r' & Hm & Hc'). rewrite Hm in *.
  replace (String.length (String c' r') - S f) with (S (String.length (String c' r') - S (S f))) by lia.
  rewrite substring_head. simpl. eauto.
Qed.

Lemma fixed_point_two_decimals n : two_decimals (fixed_point n 2).
Proof.
  unfold fixed_point, two_decimals.
  set (m := zeros _ ++ decimal n).
  assert (Hl : 3 <= String.length m).
  { subst m. rewrite length_append, length_zeros. lia. }
  eexists _, _. split; [reflexivity|]. apply length_substring. lia.
Qed.

Lemma layout_head s k n :
  exists c r, layout s k n = String c r /\ Ascii.eqb c "+" = false /\ Ascii.eqb c "-" = false.
Proof.
  unfold layout. destruct (decimal_head s) as (c & r & -> & Hc).
  destruct ((k <=? n) && (n <=? 21))%Z; [simpl; eauto|].
  destruct ((0 <? n) && (n <=? 21))%Z eqn:E.
  { apply andb_true_iff in E as [E _]. apply Z.ltb_lt in E.
    destruct (Z.to_nat n) eqn:En; [lia|]. rewrite substring_head. simpl. eauto. }
  destruct ((-6 <? n) && (n <=? 0))%Z; [simpl; eauto|].
  destruct (k =? 1)%Z; simpl; eauto.
Qed.

Lemma positive_toString_head m e :
  exists c r, positive_toString m e = String c r /\ Ascii.eqb c "+" = false /\ Ascii.eqb c "-" = false.
Proof.
  unfold positive_toString.
  match goal with |- context [shortest ?a ?la ?ha ?b ?cl ?n ?fuel ?k] =>
    destruct (shortest a la ha b cl n fuel k) as [[s k'] n'] end.
  apply layout_head.
Qed.

Lemma Number_toString_head x :
  exists c r, Number_toString x = String c r /\ Ascii.eqb c "+" = false.
Proof.
  unfold Number_toString.
  destruct (Prim2SF x) as [s|s| |s m e]; try (destruct s); try (simpl; eauto; fail);
    destruct (positive_toString_head m e) as (c & r & -> & Hc & _); simpl; eauto.
Qed.

Lemma toFixed_head x f : explicit_plus (toFixed x f) = false.
Proof.
  unfold toFixed.
  destruct (Prim2SF x) as [s|s| |s m e] eqn:E.
  - destruct (fixed_point_head 0 f) as (c & r & -> & Hc & _). exact Hc.
  - destruct (Number_toString_head x) as (c & r & -> & Hc). exact Hc.
  - destruct (Number_toString_head x) as (c & r & -> & Hc). exact Hc.
  - destruct s; [reflexivity|]. simpl.
    destruct (1e21 <=? abs x)%float.
    + destruct (Number_toString_head (abs x)) as (c & r & -> & Hc). exact Hc.
    + destruct (fixed_point_head (scaled_round m e f) f) as (c & r & -> & Hc & _). exact Hc.
Qed.

(** A number that is not NaN and lies below 1e21 in magnitude is printed
    with exactly two digits after the point. *)
Lemma toFixed_two_decimals (x : number) :
  is_nan x = false -> (1e21 <=? abs x)%float = false -> two_decimals (toFixed x 2).
Proof.
  intros Hnan Hbig. unfold toFixed.
  destruct (Prim2SF x) as [s|s| |s m e] eqn:E.
  - apply fixed_point_two_decimals.
  - exfalso. revert Hbig. rewrite leb_spec, abs_spec, E. destruct s; vm_compute; discriminate.
  - exfalso. apply is_nan_spec in E. congruence.
  - rewrite Hbig. destruct (fixed_point_two_decimals (scaled_round m e 2)) as (a & b & -> & Hb).
    exists ((if s then "-" else "") ++ a), b. split; [|exact Hb].
    destruct s; reflexivity.
Qed.

End DigitFacts.

(* ===================================================================== *)
(** * The formatters                                                      *)
(* ===================================================================== *)

Section Formatting.

#[local] Open Scope float_scope.

Lemma falsy_number (x : number) :
  ToBoolean (VNumber x) = false <-> (x =? 0)%float = true \/ is_nan x = true.
Proof.
  simpl. destruct (x =? 0)%float, (is_nan x); simpl; intuition congruence.
Qed.

Lemma transform_tvlPrevDay feesMap p row :
  Protocols.transform feesMap p = Ok row ->
  Protocols.tvlPrevDay row = or (Get p "tvlPrevDay") (VNumber 0).
Proof.
  unfold Protocols.transform.
  destruct (get p "name") as [n|]; simpl; [|discriminate].
  destruct (call_toLowerCase n); simpl; [|discriminate].
  now intros [= <-].
Qed.

(** C5.  The 24h change of the TVL is [(tvl - tvlPrevDay) / tvlPrevDay * 100]
    when [tvlPrevDay] is truthy, and then [tvlPrevDay] is not zero: no
    division by zero is executed.  When [tvlPrevDay] is falsy (a zero or
    NaN) the change is exactly 0; a row whose raw [tvlPrevDay] is absent
    holds 0 there.  For 110 and 100 the change is 10, shown as
    ["+10.00%"]. *)
Theorem calculateTvlChange_guarded (tvl tvlPrevDay : number) :
  (ToBoolean (VNumber tvlPrevDay) = true ->
     Protocols.calculateTvlChange tvl tvlPrevDay = ((tvl - tvlPrevDay) / tvlPrevDay * 100)%float
     /\ (tvlPrevDay =? 0)%float = false)
  /\ (ToBoolean (VNumber tvlPrevDay) = false ->
        Protocols.calculateTvlChange tvl tvlPrevDay = 0%float)
  /\ Protocols.calculateTvlChange tvl 0 = 0%float
  /\ Protocols.calculateTvlChange tvl (-0) = 0%float
  /\ (forall feesMap p row,
        Protocols.transform feesMap p = Ok row -> Get p "tvlPrevDay" = VUndefined ->
        Protocols.tvlPrevDay row = VNumber 0)
  /\ Protocols.calculateTvlChange 110 100 = 10%float
  /\ Protocols.formatNumber (Protocols.calculateTvlChange 110 100) Protocols.percentage = "+10.00%".
Proof.
  unfold Protocols.calculateTvlChange.
  split; [intros H; rewrite H; split; [reflexivity|]|].
  { simpl in H. destruct (tvlPrevDay =? 0)%float; [discriminate | reflexivity]. }
  split; [intros H; rewrite H; reflexivity|].
  split; [reflexivity|]. split; [reflexivity|]. split.
  { intros feesMap p row Hrow Habsent.
    now rewrite (transform_tvlPrevDay _ _ _ Hrow), Habsent. }
  split; vm_compute; reflexivity.
Qed.

Lemma calculateTvlChange_witness :
  Protocols.calculateTvlChange 105 100 = 5%float /\ (100 =? 0)%float = false.
Proof.
  assert (H := proj1 (calculateTvlChange_guarded 105 100) eq_refl).
  destruct H as [H1 H2]. split; [rewrite H1; reflexivity | exact H2].
Defined.

End Formatting.

(* ===================================================================== *)
(** * Sorting                                                             *)
(* ===================================================================== *)

Section SortFacts.
Context {A : Type}.
Implicit Types (f : A -> A -> result number) (l : list A).

Lemma insert_ext f g x l :
  (forall a b, f a b = g a b) -> insert f x l = insert g x l.
Proof.
  intros E. induction l as [|y l IH]; simpl; [reflexivity|].
  unfold SortCompare. rewrite E, IH. reflexivity.
Qed.

(** The order [sort] leaves depends on the answers of the comparator
    only. *)
Lemma sort_ext f g l : (forall a b, f a b = g a b) -> sort f l = sort g l.
Proof.
  intros E. induction l as [|x l IH]; simpl; [reflexivity|].
  rewrite IH. destruct (sort g l); simpl; [apply insert_ext, E | reflexivity].
Qed.

Lemma insert_perm f x l l' : insert f x l = Ok l' -> Permutation (x :: l) l'.
Proof.
  revert l'. induction l as [|y l IH]; simpl; intros l' H.
  - injection H as <-. reflexivity.
  - destruct (SortCompare f x y) as [v|e]; simpl in H; [|discriminate].
    destruct (0 <? v)%float; [|injection H as <-; reflexivity].
    destruct (insert f x l) as [r|e]; simpl in H; [|discriminate].
    injection H as <-. rewrite perm_swap. constructor. now apply IH.
Qed.

(** What [sort] returns is a permutation of its argument. *)
Lemma sort_perm f l l' : sort f l = Ok l' -> Permutation l l'.
Proof.
  revert l'. induction l as [|x l IH]; simpl; intros l' H.
  - injection H as <-. constructor.
  - destruct (sort f l) as [s|e]; simpl in H; [|discriminate].
    rewrite <- (insert_perm _ _ _ _ H). constructor. now apply IH.
Qed.

(** A comparator that decides a total preorder [le] on the elements that
    satisfy [P] sorts them by [le]. *)
Section Sorted.
Variables (f : A -> A -> result number) (P : A -> Prop) (le : A -> A -> Prop).
Hypothesis le_trans : forall x y z, P x -> P y -> P z -> le x y -> le y z -> le x z.
Hypothesis decides : forall x y, P x -> P y ->
  exists v, SortCompare f x y = Ok v /\ if (0 <? v)%float then le y x else le x y.

Lemma insert_sorted x l :
  P x -> Forall P l -> StronglySorted le l ->
  exists l', insert f x l = Ok l' /\ StronglySorted le l'.
Proof.
  intros Hx Hl Hs. induction l as [|y l IH]; simpl.
  - eexists. split; [reflexivity|]. repeat constructor.
  - inversion Hl as [|? ? Hy Hl']; subst. inversion Hs as [|? ? Hs' Hall]; subst.
    destruct (decides x y Hx Hy) as (v & -> & Hv). simpl.
    destruct (0 <? v)%float.
    + destruct (IH Hl' Hs') as (r & Hr & Hsr). rewrite Hr. simpl.
      eexists. split; [reflexivity|]. constructor; [exact Hsr|].
      apply insert_perm in Hr.
      eapply Permutation_Forall; [exact Hr|]. constructor; assumption.
    + eexists. split; [reflexivity|]. constructor; [exact Hs|].
      constructor; [exact Hv|].
      rewrite Forall_forall in *. intros z Hz.
      apply (le_trans x y z); auto.
Qed.

Lemma sort_sorted l :
  Forall P l -> exists l', sort f l = Ok l' /\ Permutation l l' /\ StronglySorted le l'.
Proof.
  intros Hl. induction l as [|x l IH]; simpl.
  - eexists. repeat split; constructor.
  - inversion Hl as [|? ? Hx Hl']; subst.
    destruct (IH Hl') as (s & Hs & Hp & Hss). rewrite Hs. simpl.
    destruct (insert_sorted x s Hx) as (l' & Hi & Hsl'); [|exact Hss|].
    { eapply Permutation_Forall; eassumption. }
    exists l'. repeat split; [exact Hi | | exact Hsl'].
    rewrite <- (insert_perm _ _ _ _ Hi). now constructor.
Qed.
End Sorted.

(** ** The store *)

Implicit Types (σ : gmap loc (list A)) (a : loc).

Lemma alloc_fresh l σ a σ' :
  alloc l σ = (a, σ') -> σ !! a = None /\ σ' = <[a := l]> σ.
Proof.
  unfold alloc. intros [= <- <-]. split; [|reflexivity].
  apply not_elem_of_dom, is_fresh.
Qed.

(** Sorting a copy: the copy is a new array, it holds a permutation of
    the elements when [sort] returns, and every array of the store is as
    it was. *)
Lemma sort_of_copy f a σ l r σ' :
  σ !! a = Some l ->
  (let '(copy, σ1) := spread a σ in Array_prototype_sort f copy σ1) = (r, σ') ->
  (forall b, b ∈ dom σ -> σ' !! b = σ !! b)
  /\ (forall copy, r = Ok copy ->
        σ !! copy = None
        /\ exists l', sort f l = Ok l' /\ σ' !! copy = Some l' /\ Permutation l l')
  /\ (forall e, r = Throw e -> sort f l = Throw e).
Proof.
  intros Ha. unfold spread. destruct (alloc (σ !!! a) σ) as [copy σ1] eqn:E.
  apply alloc_fresh in E as [Hfresh ->].
  rewrite (lookup_total_correct _ _ _ Ha).
  unfold Array_prototype_sort. rewrite lookup_total_insert_eq.
  assert (Hne : forall b, b ∈ dom σ -> copy <> b).
  { intros b Hb ->. apply elem_of_dom in Hb as [? Hb]. congruence. }
  destruct (sort f l) as [l'|e] eqn:Es; intros [= <- <-].
  - split; [|split].
    + intros b Hb. rewrite !lookup_insert_ne by (apply Hne; exact Hb). reflexivity.
    + intros ? [= <-]. rewrite lookup_insert_eq. split; [exact Hfresh|].
      exists l'. repeat split. now apply (sort_perm f).
    + discriminate.
  - split; [|split].
    + intros b Hb. rewrite lookup_insert_ne by (apply Hne; exact Hb). reflexivity.
    + discriminate.
    + now intros ? [= <-].
Qed.

End SortFacts.

(* ===================================================================== *)
(** * The comparator of the table                                         *)
(* ===================================================================== *)

Section Comparator.
Import Protocols.
Implicit Types (a b : Protocol) (k : string) (d : Direction).

(** No property of a row has a dot in its name. *)
Lemma Get_dotted a k : dotted k = true -> Get (object_of a) k = VUndefined.
Proof.
  intros Hk. unfold Get, object_of, own.
  repeat match goal with
    | |- context [String.eqb ?lit k] =>
        destruct (String.eqb_spec lit k) as [<- | _]; [discriminate Hk|]
    end.
  reflexivity.
Qed.

Lemma split_plain k : dotted k = false -> split "." k = [k].
Proof.
  unfold dotted. induction k as [|c k IH]; simpl; [reflexivity|].
  destruct (Ascii.eqb c "."); simpl; [discriminate|].
  intros H. now rewrite (IH H).
Qed.

(** The values the comparison finds are the properties of the two rows
    under the key as it is written: the walk along the parts of the key
    starts only for a key that names a property, and such a key has one
    part. *)
Lemma sort_values_Get k a b :
  sort_values k a b = Ok (sort_value k a, sort_value k b).
Proof.
  unfold sort_values, sort_value.
  destruct (String.eqb (typeof (Get (object_of a) k)) "object") eqn:E; [|reflexivity].
  destruct (dotted k) eqn:Hk.
  - rewrite (Get_dotted a k Hk) in E. discriminate.
  - rewrite (split_plain k Hk). reflexivity.
Qed.

Lemma compare_unfold k d a b :
  compare {| key := k; direction := d |} a b =
    match d with
    | asc => above ← js_gt (sort_value k a) (sort_value k b);
             Ok (if above : bool then 1 else -1)%float
    | desc => below ← js_lt (sort_value k a) (sort_value k b);
              Ok (if below : bool then 1 else -1)%float
    end.
Proof. unfold compare. simpl. rewrite sort_values_Get. reflexivity. Qed.

(** The comparator answers 1 or -1 whenever it answers. *)
Lemma compare_range cfg a b v :
  compare cfg a b = Ok v -> v = 1%float \/ v = (-1)%float.
Proof.
  destruct cfg as [k d]. rewrite compare_unfold.
  destruct d; [destruct (js_gt _ _) as [[]|] | destruct (js_lt _ _) as [[]|]];
    simpl; intros [= <-]; auto.
Qed.

Lemma less_than_irrefl p : less_than p p <> Some true.
Proof.
  unfold less_than.
  assert (N : forall x : number,
             (if (is_nan x || is_nan x)%bool then None else Some (x <? x)%float) <> Some true).
  { intros x. destruct (is_nan x); simpl; [discriminate|]. rewrite ltb_irrefl. discriminate. }
  destruct p; try apply N.
  unfold String.ltb. destruct (String.compare s s) eqn:E; try discriminate.
  assert (H := String.compare_antisym s s). rewrite E in H. discriminate H.
Qed.

(** Two rows with the same value under the key: -1 in both argument
    orders and in both directions, provided the value converts to a
    primitive at all. *)
Lemma compare_same k d a b p :
  sort_value k a = sort_value k b -> ToPrimitive (sort_value k a) = Ok p ->
  compare {| key := k; direction := d |} a b = Ok (-1)%float.
Proof.
  intros E Hp. rewrite compare_unfold, <- E. unfold js_gt, js_lt. rewrite Hp. simpl.
  assert (H := less_than_irrefl p).
  destruct d; destruct (less_than p p) as [[]|]; simpl; congruence.
Qed.

(** A key with a dot: both values are undefined, and the comparator
    answers -1 whatever the rows and the direction. *)
Lemma compare_dotted k d a b :
  dotted k = true -> compare {| key := k; direction := d |} a b = Ok (-1)%float.
Proof.
  intros Hk. apply (compare_same k d a b VUndefined).
  - unfold sort_value. now rewrite !Get_dotted.
  - unfold sort_value. now rewrite Get_dotted.
Qed.

End Comparator.

(* ===================================================================== *)
(** * The sort of the table                                               *)
(* ===================================================================== *)

Section TableSort.
Import Protocols.
#[local] Open Scope float_scope.

(** C1.  For a key with a dot in it the comparator does not walk into
    the nested object: the walk starts only when the property of the row
    under the whole key is an object, and a row has no property of that
    name.  Both sort values are undefined, the comparator answers -1 for
    every pair of rows in both directions, and so the order derived
    ascending is the order derived descending: the rows are not ordered
    by the values the key names. *)
Theorem dotted_key_compares_nothing (k : string) (d : Direction) (a b : Protocol)
    (rows : list Protocol) :
  dotted k = true ->
  sort_values k a b = Ok (VUndefined, VUndefined)
  /\ compare {| key := k; direction := d |} a b = Ok (-1)
  /\ sort (compare {| key := k; direction := asc |}) rows
     = sort (compare {| key := k; direction := desc |}) rows.
Proof.
  intros Hk. split; [|split].
  - rewrite sort_values_Get. unfold sort_value. now rewrite !Get_dotted.
  - now apply compare_dotted.
  - apply sort_ext. intros x y. now rewrite !compare_dotted.
Qed.

(** Two rows with fees of 1 and 2 in the last 24 hours, sorted by
    ["fees.24h"] and by ["revenue.24h"]. *)
Lemma fees_24h_not_compared :
  dotted "fees.24h" = true
  /\ fees_24h (fees (sample "Lido" 10 1)) = VNumber 1
  /\ fees_24h (fees (sample "Rocket Pool" 20 2)) = VNumber 2
  /\ compare {| key := "fees.24h"; direction := desc |}
       (sample "Lido" 10 1) (sample "Rocket Pool" 20 2) = Ok (-1)
  /\ compare {| key := "fees.24h"; direction := desc |}
       (sample "Rocket Pool" 20 2) (sample "Lido" 10 1) = Ok (-1)
  /\ compare {| key := "fees.24h"; direction := asc |}
       (sample "Lido" 10 1) (sample "Rocket Pool" 20 2) = Ok (-1)
  /\ compare {| key := "fees.24h"; direction := asc |}
       (sample "Rocket Pool" 20 2) (sample "Lido" 10 1) = Ok (-1)
  /\ sort (compare {| key := "fees.24h"; direction := asc |})
       [sample "Lido" 10 1; sample "Rocket Pool" 20 2]
     = sort (compare {| key := "fees.24h"; direction := desc |})
         [sample "Lido" 10 1; sample "Rocket Pool" 20 2]
  /\ compare {| key := "revenue.24h"; direction := desc |}
       (sample "Lido" 10 1) (sample "Rocket Pool" 20 2) = Ok (-1).
Proof.
  pose (lido := sample "Lido" 10 1). pose (rocket := sample "Rocket Pool" 20 2).
  split; [reflexivity|]. split; [reflexivity|]. split; [reflexivity|].
  split; [exact (proj1 (proj2 (dotted_key_compares_nothing "fees.24h" desc lido rocket []
                   eq_refl)))|].
  split; [exact (proj1 (proj2 (dotted_key_compares_nothing "fees.24h" desc rocket lido []
                   eq_refl)))|].
  split; [exact (proj1 (proj2 (dotted_key_compares_nothing "fees.24h" asc lido rocket []
                   eq_refl)))|].
  split; [exact (proj1 (proj2 (dotted_key_compares_nothing "fees.24h" asc rocket lido []
                   eq_refl)))|].
  split; [exact (proj2 (proj2 (dotted_key_compares_nothing "fees.24h" desc lido lido
                   [lido; rocket] eq_refl)))|].
  exact (proj1 (proj2 (dotted_key_compares_nothing "revenue.24h" desc lido rocket []
           eq_refl))).
Defined.

(** C10.  The comparator never answers 0: an answer is 1 or -1.  For two
    rows with the same sort value (one that converts to a primitive, as
    every number and string does) it answers -1 in both argument orders
    and in both directions, so it is not antisymmetric and does not say
    which of the two rows comes first.  On numbers it always answers. *)
Theorem compare_never_zero (k : string) (d : Direction) (a b : Protocol) :
  (forall v, compare {| key := k; direction := d |} a b = Ok v ->
     (v = 1 \/ v = -1) /\ (v =? 0) = false)
  /\ (forall p, sort_value k a = sort_value k b -> ToPrimitive (sort_value k a) = Ok p ->
        forall d', compare {| key := k; direction := d' |} a b = Ok (-1)
                   /\ compare {| key := k; direction := d' |} b a = Ok (-1))
  /\ (forall x y, sort_value k a = VNumber x -> sort_value k b = VNumber y ->
        exists v, compare {| key := k; direction := d |} a b = Ok v).
Proof.
  split; [|split].
  - intros v H. apply compare_range in H. split; [exact H|].
    destruct H as [-> | ->]; reflexivity.
  - intros p E Hp d'. split.
    + now apply (compare_same k d' a b p).
    + apply (compare_same k d' b a p); congruence.
  - intros x y Ha Hb. rewrite compare_unfold, Ha, Hb. destruct d; simpl; eauto.
Qed.

Lemma compare_never_zero_witness :
  compare {| key := "tvl"; direction := asc |} (sample "Lido" 10 1) (sample "Rocket Pool" 10 2) = Ok (-1)
  /\ compare {| key := "tvl"; direction := asc |} (sample "Rocket Pool" 10 2) (sample "Lido" 10 1) = Ok (-1)
  /\ compare {| key := "tvl"; direction := desc |} (sample "Lido" 10 1) (sample "Rocket Pool" 10 2) = Ok (-1)
  /\ compare {| key := "tvl"; direction := desc |} (sample "Rocket Pool" 10 2) (sample "Lido" 10 1) = Ok (-1).
Proof.
  assert (H := proj1 (proj2 (compare_never_zero "tvl" asc
                 (sample "Lido" 10 1) (sample "Rocket Pool" 10 2))) (VNumber 10) eq_refl eq_refl).
  split; [exact (proj1 (H asc))|]. split; [exact (proj2 (H asc))|].
  split; [exact (proj1 (H desc)) | exact (proj2 (H desc))].
Defined.

Lemma getSortedProtocols_copy st σ rows r σ' :
  σ !! protocols st = Some rows -> getSortedProtocols st σ = (r, σ') ->
  (forall a, a ∈ dom σ -> σ' !! a = σ !! a)
  /\ (forall copy, r = Ok copy ->
        σ !! copy = None
        /\ exists rows', sort (compare (sortConfig st)) rows = Ok rows'
                         /\ σ' !! copy = Some rows' /\ Permutation rows rows')
  /\ (forall e, r = Throw e -> sort (compare (sortConfig st)) rows = Throw e).
Proof.
  intros Ha H. apply (sort_of_copy _ (protocols st) σ rows r σ' Ha).
  unfold getSortedProtocols in H. destruct (spread _ _). exact H.
Qed.

Lemma getSortedProtocols_returns st σ rows rows' :
  σ !! protocols st = Some rows -> sort (compare (sortConfig st)) rows = Ok rows' ->
  exists sorted σ', getSortedProtocols st σ = (Ok sorted, σ') /\ σ' !! sorted = Some rows'.
Proof.
  intros Ha Hs. destruct (getSortedProtocols st σ) as [r σ'] eqn:E.
  destruct (getSortedProtocols_copy st σ rows r σ' Ha E) as (_ & Hok & Hthrow).
  destruct r as [sorted|e].
  - destruct (Hok sorted eq_refl) as (_ & l & Hl & Hσ & _).
    exists sorted, σ'. split; [reflexivity|]. congruence.
  - specialize (Hthrow e eq_refl). congruence.
Qed.

(** Descending by TVL: the comparator decides the order of the TVLs. *)
Lemma compare_desc_tvl a b :
  numeric_tvl a -> numeric_tvl b ->
  exists v, SortCompare (compare initialSortConfig) a b = Ok v
            /\ if (0 <? v) then tvl_at_least b a else tvl_at_least a b.
Proof.
  intros (x & Hx & Nx) (y & Hy & Ny).
  unfold SortCompare, initialSortConfig. rewrite compare_unfold.
  assert (Ea : sort_value "tvl" a = VNumber x) by exact Hx.
  assert (Eb : sort_value "tvl" b = VNumber y) by exact Hy.
  rewrite Ea, Eb. unfold js_lt. simpl. rewrite Nx, Ny. simpl.
  destruct (x <? y) eqn:E; simpl; eexists; (split; [reflexivity|]); simpl.
  - exists y, x. repeat split; try assumption. now apply lt_ge.
  - exists x, y. repeat split; try assumption. now apply not_lt_ge.
Qed.

Lemma tvl_at_least_trans a b c :
  tvl_at_least a b -> tvl_at_least b c -> tvl_at_least a c.
Proof.
  intros (x & y & Hx & Hy & H1) (y' & z & Hy' & Hz & H2).
  assert (y' = y) by congruence. subst y'.
  exists x, z. repeat split; try assumption. now apply (ge_trans x y z).
Qed.

(** C4.  A click on a header sets the key to that of the header; the
    direction becomes ascending when the key was already that one and
    the direction descending, and descending otherwise, so a click on
    another header always gives descending.  From the initial
    configuration two clicks on the TVL header give the initial
    configuration again, and the derived list is again the one derived
    at first, which is in descending order of TVL (for rows whose TVL is
    a number); a click on the fees header after one on the TVL header
    gives descending on the new key. *)
Theorem sortData_toggles (k : string) (st : State) (σ : gmap loc (list Protocol))
    (rows : list Protocol) :
  key (sortConfig (sortData k st)) = k
  /\ (key (sortConfig st) = k -> direction (sortConfig st) = desc ->
        direction (sortConfig (sortData k st)) = asc)
  /\ (key (sortConfig st) <> k \/ direction (sortConfig st) = asc ->
        direction (sortConfig (sortData k st)) = desc)
  /\ (protocols (sortData k st) = protocols st
      /\ loading (sortData k st) = loading st /\ error (sortData k st) = error st)
  /\ (sortConfig st = initialSortConfig ->
        sortConfig (sortData "tvl" st) = {| key := "tvl"; direction := asc |}
        /\ sortData "tvl" (sortData "tvl" st) = st
        /\ getSortedProtocols (sortData "tvl" (sortData "tvl" st)) σ = getSortedProtocols st σ
        /\ sortConfig (sortData "fees.24h" (sortData "tvl" st))
           = {| key := "fees.24h"; direction := desc |}
        /\ (σ !! protocols st = Some rows -> Forall numeric_tvl rows ->
              exists sorted σ' rows',
                getSortedProtocols st σ = (Ok sorted, σ')
                /\ σ' !! sorted = Some rows'
                /\ Permutation rows rows' /\ descending_by_tvl rows')).
Proof.
  split; [reflexivity|]. split; [|split; [|split; [repeat split|]]].
  - intros Hk Hd. simpl. rewrite Hk, Hd, String.eqb_refl. reflexivity.
  - intros H. simpl. destruct (String.eqb_spec (key (sortConfig st)) k) as [E|E]; [|reflexivity].
    destruct H as [H|H]; [contradiction | now rewrite H].
  - intros Hinit. destruct st as [a l e cfg]. simpl in Hinit. subst cfg.
    split; [reflexivity|]. split; [reflexivity|]. split; [reflexivity|]. split; [reflexivity|].
    intros Ha Hrows.
    destruct (sort_sorted (compare initialSortConfig) numeric_tvl tvl_at_least) with (l := rows)
      as (rows' & Hs & Hp & Hd); [| exact compare_desc_tvl | exact Hrows |].
    { intros x y z _ _ _. apply tvl_at_least_trans. }
    destruct (getSortedProtocols_returns _ σ rows rows' Ha Hs) as (sorted & σ' & E & Hσ).
    exists sorted, σ', rows'. repeat split; assumption.
Qed.

Lemma sortData_toggles_witness :
  direction (sortConfig (sortData "tvl" (table 1%positive initialSortConfig))) = asc
  /\ direction (sortConfig (sortData "mcap" (table 1%positive initialSortConfig))) = desc
  /\ sortData "tvl" (sortData "tvl" (table 1%positive initialSortConfig)) = table 1%positive initialSortConfig
  /\ exists sorted σ' rows',
       getSortedProtocols (table 1%positive initialSortConfig)
         {[ 1%positive := [sample "Lido" 10 1; sample "Rocket Pool" 20 2] ]} = (Ok sorted, σ')
       /\ σ' !! sorted = Some rows'
       /\ Permutation [sample "Lido" 10 1; sample "Rocket Pool" 20 2] rows'
       /\ descending_by_tvl rows'.
Proof.
  pose (st := table 1%positive initialSortConfig).
  pose (σ := {[ 1%positive := [sample "Lido" 10 1; sample "Rocket Pool" 20 2] ]} : gmap loc (list Protocol)).
  pose (rows := [sample "Lido" 10 1; sample "Rocket Pool" 20 2]).
  split; [exact (proj1 (proj2 (sortData_toggles "tvl" st σ rows)) eq_refl eq_refl)|].
  split.
  { apply (proj1 (proj2 (proj2 (sortData_toggles "mcap" st σ rows)))). left. discriminate. }
  destruct (proj2 (proj2 (proj2 (proj2 (sortData_toggles "tvl" st σ rows)))) eq_refl)
    as (_ & H2 & _ & _ & H5).
  split; [exact H2|]. apply H5; [reflexivity|].
  repeat constructor; eexists; (split; [reflexivity | reflexivity]).
Defined.

(** C9, for the table.  Deriving the sorted rows leaves the array of the
    state, and every other array of the store, as it was: the rows are
    sorted in a new array. *)
Lemma getSortedProtocols_frame st σ rows r σ' :
  σ !! protocols st = Some rows -> getSortedProtocols st σ = (r, σ') ->
  σ' !! protocols st = Some rows
  /\ (forall a, a ∈ dom σ -> σ' !! a = σ !! a)
  /\ (forall copy, r = Ok copy -> copy <> protocols st /\ copy ∉ dom σ).
Proof.
  intros Ha H. destruct (getSortedProtocols_copy st σ rows r σ' Ha H) as (Hf & Hok & _).
  split; [|split; [exact Hf|]].
  - rewrite Hf; [exact Ha | apply elem_of_dom; eauto].
  - intros copy E. destruct (Hok copy E) as (Hn & _). split.
    + intros ->. congruence.
    + now apply not_elem_of_dom.
Qed.

End TableSort.

(* ===================================================================== *)
(** * The fetch cycle                                                     *)
(* ===================================================================== *)

Section FetchCycle.
Import Protocols.

Lemma get_string o k s : Get o k = VString s -> get o k = Ok (VString s).
Proof. destruct o; simpl; intros H; try discriminate; now rewrite H. Qed.

Lemma or_undefined v : or VUndefined v = v.
Proof. reflexivity. Qed.

Lemma filterM_kept f l kept :
  filterM f l = Ok kept -> Forall (fun p => f p = Ok true) kept.
Proof.
  revert kept. induction l as [|x l IH]; simpl; intros kept H.
  - injection H as <-. constructor.
  - destruct (f x) as [keep|] eqn:E; simpl in H; [|discriminate].
    destruct (filterM f l) as [r|]; simpl in H; [|discriminate].
    injection H as <-. destruct keep; [constructor|]; auto.
Qed.

Lemma mapM_rows (f : value -> result Protocol) l :
  Forall (fun p => exists row, f p = Ok row) l ->
  exists rows, mapM (M := result) f l = Ok rows /\ Forall2 (fun p row => f p = Ok row) l rows.
Proof.
  induction 1 as [|p l (row & Hrow) _ (rows & Hrows & H2)]; simpl.
  - exists []. split; [reflexivity | constructor].
  - exists (row :: rows). rewrite Hrow. simpl. rewrite Hrows. simpl.
    split; [reflexivity | now constructor].
Qed.

(** The row of a protocol with a name. *)
Lemma transform_row feesMap p s :
  Get p "name" = VString s ->
  exists row, transform feesMap p = Ok row
    /\ name row = VString s
    /\ Forall (fun f => f.2 row = or (Get (feesInfo_of feesMap s) f.1) (VNumber 0)) fee_fields
    /\ Forall (fun f => f.2 row = or (Get p f.1) (VNumber 0)) protocol_fields.
Proof.
  intros Hn. unfold transform. rewrite (get_string _ _ _ Hn). simpl.
  eexists. split; [reflexivity|]. split; [reflexivity|].
  split; repeat constructor.
Qed.

(** C3.  A protocol with a name gets a row, whether the lookup table has
    its lowercased name or not.  Every field that comes from the fee
    record is the raw field of that record, or 0 when the raw field is
    falsy; when the name is absent from the table the record is empty
    and all these fields are 0.  Every numeric field that comes from the
    protocol is 0 when its raw field is absent.  The merge returns one
    row for each protocol that the category filter retains, in order. *)
Theorem absent_fees_are_zero (feesMap : gmap string value) (p : value) (s : string) :
  Get p "name" = VString s ->
  (exists row, transform feesMap p = Ok row
     /\ (feesMap !! toLowerCase s = None ->
           Forall (fun f => f.2 row = VNumber 0) fee_fields)
     /\ Forall (fun f => Get (feesInfo_of feesMap s) f.1 = VUndefined -> f.2 row = VNumber 0)
          fee_fields
     /\ Forall (fun f => Get p f.1 = VUndefined -> f.2 row = VNumber 0) protocol_fields)
  /\ (forall protocolsData feesData kept,
        fees_by_name feesData = Ok feesMap -> retained protocolsData = Ok kept ->
        Forall (fun p => is_liquid_staking p = Ok true) kept
        /\ (Forall (fun p => exists s, Get p "name" = VString s) kept ->
              exists rows, liquidStakingProtocols protocolsData feesData = Ok rows
                /\ Forall2 (fun p row => transform feesMap p = Ok row) kept rows)).
Proof.
  intros Hn. split.
  - destruct (transform_row feesMap p s Hn) as (row & Hrow & _ & Hfees & Hprot).
    exists row. split; [exact Hrow|]. split; [|split].
    + intros Habsent. unfold feesInfo_of in Hfees. rewrite Habsent in Hfees.
      eapply Forall_impl; [exact Hfees|]. simpl. intros f ->. reflexivity.
    + eapply Forall_impl; [exact Hfees|]. simpl. intros f -> ->. reflexivity.
    + eapply Forall_impl; [exact Hprot|]. simpl. intros f -> ->. reflexivity.
  - intros protocolsData feesData kept Hmap Hkept. split.
    + unfold retained, Array_filter, method_of_array in Hkept.
      destruct protocolsData; try discriminate. now apply filterM_kept in Hkept.
    + intros Hnames. unfold liquidStakingProtocols. rewrite Hmap, Hkept. simpl.
      apply mapM_rows. eapply Forall_impl; [exact Hnames|]. simpl.
      intros q (t & Ht). destruct (transform_row feesMap q t Ht) as (row & Hrow & _). eauto.
Qed.

Lemma absent_fees_are_zero_witness :
  exists row,
    transform {[ "lido" := VObject [("name", VString "Lido"); ("total24h", VNumber 7)] ]}
      (VObject [("name", VString "Rocket Pool"); ("category", VString "Liquid Staking")]) = Ok row
    /\ Forall (fun f => f.2 row = VNumber 0) fee_fields
    /\ tvl row = VNumber 0.
Proof.
  destruct (proj1 (absent_fees_are_zero
              {[ "lido" := VObject [("name", VString "Lido"); ("total24h", VNumber 7)] ]}
              (VObject [("name", VString "Rocket Pool"); ("category", VString "Liquid Staking")])
              "Rocket Pool" eq_refl)) as (row & Hrow & Hzero & _ & Hprot).
  exists row. split; [exact Hrow|]. split; [apply Hzero; reflexivity|].
  inversion Hprot as [|? ? H _]. apply H. reflexivity.
Defined.







End FetchCycle.

(* ===================================================================== *)
(** * The platform list of the card                                       *)
(* ===================================================================== *)

Section Card.
Import TokenCard.
#[local] Open Scope float_scope.

Lemma by_fee_decides a b :
  is_nan (fee a) = false -> is_nan (fee b) = false ->
  exists v, SortCompare by_fee a b = Ok v
            /\ if (0 <? v) then fee_at_most b a else fee_at_most a b.
Proof.
  intros Na Nb. unfold SortCompare, by_fee. simpl.
  eexists. split; [reflexivity|]. rewrite (difference_sign _ _ Na Nb).
  destruct (fee b <? fee a) eqn:E.
  - now apply lt_ge.
  - now apply not_lt_ge.
Qed.

Lemma fee_at_most_trans a b c : fee_at_most a b -> fee_at_most b c -> fee_at_most a c.
Proof. intros H1 H2. exact (ge_trans (fee c) (fee b) (fee a) H2 H1). Qed.

Lemma by_fee_returns offers : exists sorted, sort by_fee offers = Ok sorted.
Proof.
  induction offers as [|x l (s & Hs)]; simpl; [eauto|]. rewrite Hs. simpl.
  clear Hs. induction s as [|y s (r & Hr)]; simpl; [eauto|].
  destruct (0 <? _); [rewrite Hr|]; simpl; eauto.
Qed.

Lemma sortedPlatforms_copy token τ offers r τ' :
  τ !! platforms token = Some offers -> sortedPlatforms token τ = (r, τ') ->
  (forall a, a ∈ dom τ -> τ' !! a = τ !! a)
  /\ exists copy sorted, r = Ok copy /\ τ !! copy = None
       /\ sort by_fee offers = Ok sorted /\ τ' !! copy = Some sorted
       /\ Permutation offers sorted.
Proof.
  intros Ha H.
  destruct (sort_of_copy by_fee (platforms token) τ offers r τ' Ha) as (Hf & Hok & Hthrow).
  { unfold sortedPlatforms in H. destruct (spread _ _). exact H. }
  split; [exact Hf|]. destruct r as [copy|e].
  - destruct (Hok copy eq_refl) as (Hn & sorted & Hs & Hl & Hp). eauto 10.
  - specialize (Hthrow e eq_refl). destruct (by_fee_returns offers) as (s & Hs). congruence.
Qed.

Lemma imap_platforms (f : nat -> Platform -> Entry) (l : list Platform) :
  (forall i p, platform (f i p) = p) -> map platform (imap f l) = l.
Proof.
  revert f. induction l as [|p l IH]; intros f Hf; simpl; [reflexivity|].
  rewrite Hf. f_equal. apply IH. intros i q. apply Hf.
Qed.

Lemma imap_best_rate (l : list Platform) i entry :
  imap (fun index platform => {| platform := platform; best_rate := Nat.eqb index 0 |}) l !! i
    = Some entry ->
  best_rate entry = Nat.eqb i 0.
Proof.
  rewrite list_lookup_imap. destruct (l !! i) as [p|]; simpl; [|discriminate].
  now intros [= <-].
Qed.

(** With a fee that is NaN the comparator answers NaN, which [sort]
    reads as "equal": the fees 3, NaN, 1 are rendered in that order, the
    offer with fee 3 is marked, and the list is not in ascending order
    of fee. *)
Lemma NaN_fee_breaks_the_order :
  sortedPlatforms (token_with 1%positive)
    {[ 1%positive := [offer "A" 3; offer "B" nan; offer "C" 1] ]}
  = (Ok 2%positive,
     <[ 2%positive := [offer "A" 3; offer "B" nan; offer "C" 1] ]>
       (<[ 2%positive := [offer "A" 3; offer "B" nan; offer "C" 1] ]>
          {[ 1%positive := [offer "A" 3; offer "B" nan; offer "C" 1] ]}))
  /\ platform_list true [offer "A" 3; offer "B" nan; offer "C" 1]
     = Some [ {| platform := offer "A" 3; best_rate := true |};
              {| platform := offer "B" nan; best_rate := false |};
              {| platform := offer "C" 1; best_rate := false |} ]
  /\ ~ ascending_by_fee [offer "A" 3; offer "B" nan; offer "C" 1].
Proof.
  split; [vm_compute; reflexivity|]. split; [reflexivity|].
  intros H. inversion H as [|? ? _ Hall]; subst.
  inversion Hall as [|? ? Hnan _]; subst. discriminate Hnan.
Qed.

(** C8, for valid offers.  For every list of offers whose fees are
    numbers other than NaN, the list the card renders holds the same
    offers in ascending order of fee, and the entry marked "Best Rate"
    is the first one and no other. *)
Theorem platforms_ascending_by_fee (token : StakingToken) (τ : gmap loc (list Platform))
    (offers : list Platform) :
  τ !! platforms token = Some offers ->
  valid_fees offers ->
  exists copy τ' sorted entries,
    sortedPlatforms token τ = (Ok copy, τ')
    /\ τ' !! copy = Some sorted
    /\ Permutation offers sorted
    /\ ascending_by_fee sorted
    /\ platform_list true sorted = Some entries
    /\ map platform entries = sorted
    /\ (forall i entry, entries !! i = Some entry -> (best_rate entry = true <-> i = 0%nat)).
Proof.
  intros Ha Hvalid.
  destruct (sortedPlatforms token τ) as [r τ'] eqn:E.
  destruct (sortedPlatforms_copy token τ offers r τ' Ha E)
    as (_ & copy & sorted & -> & _ & Hs & Hl & Hp).
  destruct (sort_sorted by_fee (fun p => is_nan (fee p) = false) fee_at_most) with (l := offers)
    as (sorted' & Hs' & _ & Hsorted); [| exact by_fee_decides | exact Hvalid |].
  { intros x y z _ _ _. apply fee_at_most_trans. }
  assert (sorted' = sorted) by congruence. subst sorted'.
  exists copy, τ', sorted.
  eexists. split; [reflexivity|]. split; [exact Hl|]. split; [exact Hp|]. split; [exact Hsorted|].
  split; [reflexivity|]. split; [now apply imap_platforms|].
  intros i entry H. rewrite (imap_best_rate _ _ _ H). apply Nat.eqb_eq.
Qed.

(** The fees 5, 1 and 3 are rendered in the order 1, 3, 5, and only the
    offer with fee 1 is marked. *)
Lemma platforms_ascending_by_fee_witness :
  exists copy τ',
    sortedPlatforms (token_with 1%positive)
      {[ 1%positive := [offer "A" 5; offer "B" 1; offer "C" 3] ]} = (Ok copy, τ')
    /\ τ' !! copy = Some [offer "B" 1; offer "C" 3; offer "A" 5]
    /\ platform_list true [offer "B" 1; offer "C" 3; offer "A" 5]
       = Some [ {| platform := offer "B" 1; best_rate := true |};
                {| platform := offer "C" 3; best_rate := false |};
                {| platform := offer "A" 5; best_rate := false |} ]
    /\ ascending_by_fee [offer "B" 1; offer "C" 3; offer "A" 5].
Proof.
  destruct (platforms_ascending_by_fee (token_with 1%positive)
              {[ 1%positive := [offer "A" 5; offer "B" 1; offer "C" 3] ]}
              [offer "A" 5; offer "B" 1; offer "C" 3])
    as (copy & τ' & sorted & entries & E & Hl & _ & Hsorted & _).
  { reflexivity. }
  { repeat constructor. }
  exists copy, τ'. split; [exact E|].
  assert (Hc : sortedPlatforms (token_with 1%positive)
                 {[ 1%positive := [offer "A" 5; offer "B" 1; offer "C" 3] ]}
               = (Ok 2%positive,
                  <[ 2%positive := [offer "B" 1; offer "C" 3; offer "A" 5] ]>
                    (<[ 2%positive := [offer "A" 5; offer "B" 1; offer "C" 3] ]>
                       {[ 1%positive := [offer "A" 5; offer "B" 1; offer "C" 3] ]})))
    by (vm_compute; reflexivity).
  rewrite Hc in E. injection E as <- <-.
  rewrite lookup_insert_eq in Hl. injection Hl as <-.
  split; [apply lookup_insert_eq|]. split; [reflexivity | exact Hsorted].
Defined.

End Card.

(* ===================================================================== *)
(** * Sorting leaves the stored arrays alone                              *)
(* ===================================================================== *)

Section Frame.

(** C9.  Deriving the sorted order of the table leaves the array of
    protocols held by the state as it was, element order included, and
    every other array of the store as well; whatever [sort] does happens
    in a new array.  The same holds for the platforms of the token when
    the card sorts them. *)
Theorem sorting_leaves_input_unchanged
    (st : Protocols.State) (σ : gmap loc (list Protocols.Protocol))
    (rows : list Protocols.Protocol) (r : result loc) (σ' : gmap loc (list Protocols.Protocol))
    (token : TokenCard.StakingToken) (τ : gmap loc (list TokenCard.Platform))
    (offers : list TokenCard.Platform) (r' : result loc) (τ' : gmap loc (list TokenCard.Platform)) :
  σ !! Protocols.protocols st = Some rows ->
  Protocols.getSortedProtocols st σ = (r, σ') ->
  τ !! TokenCard.platforms token = Some offers ->
  TokenCard.sortedPlatforms token τ = (r', τ') ->
  (σ' !! Protocols.protocols st = Some rows
   /\ (forall a, a ∈ dom σ -> σ' !! a = σ !! a)
   /\ (forall copy, r = Ok copy -> copy <> Protocols.protocols st /\ copy ∉ dom σ))
  /\ (τ' !! TokenCard.platforms token = Some offers
      /\ (forall a, a ∈ dom τ -> τ' !! a = τ !! a)
      /\ (forall copy, r' = Ok copy -> copy <> TokenCard.platforms token /\ copy ∉ dom τ)).
Proof.
  intros Hσ E Hτ E'. split; [exact (getSortedProtocols_frame st σ rows r σ' Hσ E)|].
  destruct (sortedPlatforms_copy token τ offers r' τ' Hτ E')
    as (Hf & copy & sorted & -> & Hn & _).
  split; [|split; [exact Hf|]].
  - rewrite Hf; [exact Hτ | apply elem_of_dom; eauto].
  - intros ? [= <-]. split; [intros ->; congruence | now apply not_elem_of_dom].
Qed.

Lemma sorting_leaves_input_unchanged_witness :
  (Protocols.getSortedProtocols (table 1%positive Protocols.initialSortConfig)
     {[ 1%positive := [sample "Lido" 10 1; sample "Rocket Pool" 20 2] ]}).2 !! 1%positive
    = Some [sample "Lido" 10 1; sample "Rocket Pool" 20 2]
  /\ (TokenCard.sortedPlatforms (token_with 1%positive)
        {[ 1%positive := [offer "A" 5; offer "B" 1; offer "C" 3] ]}).2 !! 1%positive
     = Some [offer "A" 5; offer "B" 1; offer "C" 3].
Proof.
  pose (st := table 1%positive Protocols.initialSortConfig).
  pose (σ := {[ 1%positive := [sample "Lido" 10 1; sample "Rocket Pool" 20 2] ]}
             : gmap loc (list Protocols.Protocol)).
  pose (τ := {[ 1%positive := [offer "A" 5; offer "B" 1; offer "C" 3] ]}
             : gmap loc (list TokenCard.Platform)).
  destruct (sorting_leaves_input_unchanged
              st σ [sample "Lido" 10 1; sample "Rocket Pool" 20 2]
              (Protocols.getSortedProtocols st σ).1 (Protocols.getSortedProtocols st σ).2
              (token_with 1%positive) τ [offer "A" 5; offer "B" 1; offer "C" 3]
              (TokenCard.sortedPlatforms (token_with 1%positive) τ).1
              (TokenCard.sortedPlatforms (token_with 1%positive) τ).2)
    as ((H1 & _) & (H2 & _)).
  { reflexivity. }
  { apply surjective_pairing. }
  { reflexivity. }
  { apply surjective_pairing. }
  split; [exact H1 | exact H2].
Defined.

End Frame.

(* ===================================================================== *)
(** * The merge: the lookup table, the filter and the rows               *)
(* ===================================================================== *)

Section Merge.
Import Protocols.

Lemma Get_has_properties o k : has_properties o = false -> Get o k = VUndefined.
Proof. destruct o; simpl; intros H; try discriminate; reflexivity. Qed.

Lemma get_has_properties o k : has_properties o = true -> get o k = Ok (Get o k).
Proof. destruct o; simpl; intros H; try discriminate; reflexivity. Qed.

Lemma named_has_properties p : named p -> has_properties p = true.
Proof. intros (s & Hs). destruct p; try discriminate; reflexivity. Qed.

Lemma name_key_named p k : name_key p = Some k -> named p.
Proof.
  unfold name_key, named. destruct (Get p "name"); try discriminate. eauto.
Qed.

(** The entry of the lookup table for a record. *)
Lemma entry_named p s :
  Get p "name" = VString s ->
  (p_name ← get p "name"; lowered ← call_toLowerCase p_name; Ok (lowered, p))
  = Ok (toLowerCase s, p).
Proof. intros H. rewrite (get_string _ _ _ H). reflexivity. Qed.

Lemma entry_returns p kv :
  (p_name ← get p "name"; lowered ← call_toLowerCase p_name; Ok (lowered, p)) = Ok kv ->
  exists s, Get p "name" = VString s /\ kv = (toLowerCase s, p).
Proof.
  destruct p; simpl; try discriminate;
    match goal with |- context [call_toLowerCase ?v] => destruct v eqn:E end;
    simpl; try discriminate; intros [= <-]; eauto.
Qed.

Lemma entries_returns records entries :
  mapM (M := result)
    (fun p => p_name ← get p "name"; lowered ← call_toLowerCase p_name; Ok (lowered, p))
    records = Ok entries ->
  Forall2 (fun p kv => name_key p = Some kv.1 /\ kv.2 = p) records entries.
Proof.
  revert entries. induction records as [|p l IH]; simpl; intros entries H.
  - injection H as <-. constructor.
  - destruct (_ ← get p "name"; _) as [kv|] eqn:E; simpl in H; [|discriminate].
    destruct (mapM _ l) as [r|]; simpl in H; [|discriminate].
    injection H as <-. apply entry_returns in E as (s & Hs & ->).
    constructor; [|now apply IH]. unfold name_key. rewrite Hs. auto.
Qed.

Lemma entries_named records :
  Forall named records ->
  exists entries,
    mapM (M := result)
      (fun p => p_name ← get p "name"; lowered ← call_toLowerCase p_name; Ok (lowered, p))
      records = Ok entries.
Proof.
  induction 1 as [|p l (s & Hs) _ (r & Hr)]; simpl; [eauto|].
  rewrite (entry_named _ _ Hs). simpl. rewrite Hr. simpl. eauto.
Qed.

Lemma fees_by_name_named feesData feesMap :
  fees_by_name feesData = Ok feesMap ->
  exists records, Get feesData "protocols" = VArray records /\ Forall named records.
Proof.
  unfold fees_by_name. intros H.
  destruct (has_properties feesData) eqn:Hp; [|destruct feesData; discriminate].
  rewrite (get_has_properties _ _ Hp) in H. simpl in H.
  destruct (Get feesData "protocols") as [| | | | |records|]; try discriminate.
  exists records. split; [reflexivity|]. simpl in H.
  destruct (mapM _ records) as [entries|] eqn:E; [|discriminate].
  apply entries_returns in E. clear H.
  induction E as [|p kv l r [Hk _] _ IH]; constructor; [|exact IH].
  now apply (name_key_named p kv.1).
Qed.

Lemma fees_by_name_defined feesData records :
  Get feesData "protocols" = VArray records -> Forall named records ->
  exists feesMap, fees_by_name feesData = Ok feesMap.
Proof.
  intros Hr Hn. unfold fees_by_name.
  assert (Hp : has_properties feesData = true).
  { destruct feesData; try discriminate; reflexivity. }
  rewrite (get_has_properties _ _ Hp), Hr. simpl.
  destruct (entries_named records Hn) as (entries & ->). simpl. eauto.
Qed.

(** X1.  The lookup table is built exactly when the fee overview has a
    property [protocols] that is an array whose elements all have a
    name that is a string.  With any other payload (no such property,
    not an array, an element that is null or has no name or a name that
    is not a string) building the table throws. *)
Theorem fees_table_iff (feesData : value) :
  (exists feesMap, fees_by_name feesData = Ok feesMap)
  <-> (exists records, Get feesData "protocols" = VArray records /\ Forall named records).
Proof.
  split.
  - intros (feesMap & H). exact (fees_by_name_named _ _ H).
  - intros (records & Hr & Hn). exact (fees_by_name_defined _ _ Hr Hn).
Qed.

(** ** The lookup table *)

Lemma new_Map_lookup entries k (m : gmap string value) :
  fold_left (fun m kv => <[kv.1 := kv.2]> m) entries m !! k
  = match latest k entries with Some v => Some v | None => m !! k end.
Proof.
  revert m. induction entries as [|[k' v] l IH]; intros m; simpl; [reflexivity|].
  rewrite IH. destruct (latest k l); [reflexivity|].
  destruct (String.eqb_spec k' k) as [->|Hne].
  - apply lookup_insert_eq.
  - now apply lookup_insert_ne.
Qed.

Lemma latest_app k e1 e2 :
  latest k (e1 ++ e2) = match latest k e2 with Some w => Some w | None => latest k e1 end.
Proof.
  induction e1 as [|[k' v] l IH]; simpl.
  - destruct (latest k e2); reflexivity.
  - rewrite IH. destruct (latest k e2); reflexivity.
Qed.

Lemma latest_None records entries k :
  Forall2 (fun p kv => name_key p = Some kv.1 /\ kv.2 = p) records entries ->
  latest k entries = None <-> Forall (fun p => name_key p <> Some k) records.
Proof.
  induction 1 as [|p [k' v] l r [Hk Hv] _ IH]; simpl.
  - split; [constructor | reflexivity].
  - simpl in Hk, Hv. subst v. rewrite Forall_cons, <- IH, Hk.
    destruct (latest k r); [split; [discriminate | intros [_ ?]; discriminate]|].
    destruct (String.eqb_spec k' k) as [->|Hne].
    + split; [discriminate | intros [? _]; congruence].
    + split; [intros _; split; congruence | reflexivity].
Qed.

Lemma latest_Some records entries k q :
  Forall2 (fun p kv => name_key p = Some kv.1 /\ kv.2 = p) records entries ->
  latest k entries = Some q -> q ∈ records /\ name_key q = Some k.
Proof.
  induction 1 as [|p [k' v] l r [Hk Hv] _ IH]; simpl; [discriminate|].
  simpl in Hk, Hv. subst v. destruct (latest k r) as [w|].
  - intros [= ->]. destruct (IH eq_refl) as [Hin Hq]. split; [now right | exact Hq].
  - destruct (String.eqb_spec k' k) as [->|Hne]; [|discriminate].
    intros [= ->]. split; [left | exact Hk].
Qed.

Lemma fees_by_name_entries feesData feesMap records :
  fees_by_name feesData = Ok feesMap -> Get feesData "protocols" = VArray records ->
  exists entries,
    Forall2 (fun p kv => name_key p = Some kv.1 /\ kv.2 = p) records entries
    /\ forall k, feesMap !! k = latest k entries.
Proof.
  unfold fees_by_name. intros H Hr.
  assert (Hp : has_properties feesData = true).
  { destruct feesData; try discriminate; reflexivity. }
  rewrite (get_has_properties _ _ Hp), Hr in H. simpl in H.
  destruct (mapM _ records) as [entries|] eqn:E; [|discriminate].
  injection H as <-. exists entries. split; [now apply entries_returns|].
  intros k. unfold new_Map. rewrite new_Map_lookup, lookup_empty.
  destruct (latest k entries); reflexivity.
Qed.

(** The record found under a key is the last one with that key. *)
Lemma fees_by_name_last feesData feesMap (before : list value) q after k :
  fees_by_name feesData = Ok feesMap ->
  Get feesData "protocols" = VArray (before ++ q :: after) ->
  name_key q = Some k -> Forall (fun p => name_key p <> Some k) after ->
  feesMap !! k = Some q.
Proof.
  intros H Hr Hq Hafter.
  destruct (fees_by_name_entries _ _ _ H Hr) as (entries & H2 & Hl).
  apply Forall2_app_inv_l in H2 as (e1 & e2 & H1 & H2 & ->).
  inversion H2 as [|? [k' v] ? r [Hk Hv] H3]; simpl in Hk, Hv; subst.
  rewrite Hl, latest_app. simpl.
  rewrite (proj2 (latest_None _ _ k H3) Hafter).
  assert (k' = k) by congruence. subst k'. now rewrite String.eqb_refl.
Qed.

(** X2.  The lookup table maps a key to the last fee record whose name
    in lower case is that key: a later record replaces an earlier one of
    the same name up to letter case, every record found is one of the
    payload, and a key is absent exactly when no record has it. *)
Theorem fees_table_lookup (feesData : value) (feesMap : gmap string value)
    (records : list value) :
  fees_by_name feesData = Ok feesMap -> Get feesData "protocols" = VArray records ->
  (forall k, feesMap !! k = None <-> Forall (fun p => name_key p <> Some k) records)
  /\ (forall (before : list value) q after k,
        records = (before ++ q :: after)%list -> name_key q = Some k ->
        Forall (fun p => name_key p <> Some k) after ->
        feesMap !! k = Some q)
  /\ (forall k q, feesMap !! k = Some q -> q ∈ records /\ name_key q = Some k).
Proof.
  intros H Hr. destruct (fees_by_name_entries _ _ _ H Hr) as (entries & H2 & Hl).
  split; [|split].
  - intros k. rewrite Hl. now apply latest_None.
  - intros before q after k -> Hq Hafter.
    exact (fees_by_name_last _ _ _ _ _ _ H Hr Hq Hafter).
  - intros k q. rewrite Hl. now apply latest_Some.
Qed.

Lemma fees_table_lookup_witness :
  exists feesMap,
    fees_by_name fees_payload = Ok feesMap
    /\ feesMap !! "lido"
       = Some (VObject [("name", VString "lido"); ("total24h", VNumber 2%float)])
    /\ feesMap !! "aave" = None.
Proof.
  eexists. split; [reflexivity|].
  destruct (fees_table_lookup fees_payload _ _ eq_refl eq_refl) as (Hnone & Hlast & _).
  split.
  - apply (Hlast [VObject [("name", VString "LIDO"); ("total24h", VNumber 1%float)]] _ []);
      [reflexivity | reflexivity | constructor].
  - apply Hnone. repeat constructor; intros H; vm_compute in H; discriminate H.
Defined.

(** A named record is an object, hence truthy. *)
Lemma named_truthy q : named q -> ToBoolean q = true.
Proof.
  intros (s & Hs). destruct q; try discriminate; reflexivity.
Qed.

(** X3.  A protocol is merged with the last fee record whose name equals
    its own up to letter case: every field of the row that comes from
    the fee record is the raw field of that record, or 0 when the raw
    field is falsy. *)
Theorem merge_ignores_case (feesData : value) (feesMap : gmap string value)
    (before : list value) (q : value) (after : list value) (p : value) (s : string) :
  fees_by_name feesData = Ok feesMap ->
  Get feesData "protocols" = VArray (before ++ q :: after) ->
  Get p "name" = VString s ->
  name_key q = Some (toLowerCase s) ->
  Forall (fun r => name_key r <> Some (toLowerCase s)) after ->
  exists row,
    transform feesMap p = Ok row
    /\ Forall (fun f => f.2 row = or (Get q f.1) (VNumber 0)) fee_fields.
Proof.
  intros H Hr Hp Hq Hafter.
  assert (Hlast := fees_by_name_last _ _ _ _ _ _ H Hr Hq Hafter).
  destruct (transform_row feesMap p s Hp) as (row & Hrow & _ & Hfees & _).
  exists row. split; [exact Hrow|].
  assert (E : feesInfo_of feesMap s = q).
  { unfold feesInfo_of, or. rewrite Hlast. simpl.
    now rewrite (named_truthy q (name_key_named _ _ Hq)). }
  now rewrite E in Hfees.
Qed.


Lemma merge_ignores_case_witness :
  exists feesMap row,
    fees_by_name fees_payload = Ok feesMap
    /\ transform feesMap (VObject [("name", VString "Lido")]) = Ok row
    /\ fees_24h (fees row) = VNumber 2%float.
Proof.
  eexists.
  destruct (merge_ignores_case fees_payload _
              [VObject [("name", VString "LIDO"); ("total24h", VNumber 1%float)]]
              (VObject [("name", VString "lido"); ("total24h", VNumber 2%float)]) []
              (VObject [("name", VString "Lido")]) "Lido"
              eq_refl eq_refl eq_refl eq_refl ltac:(constructor))
    as (row & Hrow & Hfees).
  exists row. split; [reflexivity|]. split; [exact Hrow|].
  inversion Hfees as [|? ? H _]. exact H.
Defined.

(** ** The filter *)

Lemma is_liquid_staking_returns p :
  has_properties p = true -> is_liquid_staking p = Ok (liquid_staking p).
Proof.
  intros Hp. unfold is_liquid_staking. now rewrite (get_has_properties _ _ Hp).
Qed.

Lemma filterM_filter l :
  Forall (fun p => has_properties p = true) l ->
  filterM is_liquid_staking l = Ok (List.filter liquid_staking l).
Proof.
  induction 1 as [|p l Hp _ IH]; simpl; [reflexivity|].
  rewrite (is_liquid_staking_returns _ Hp), IH. reflexivity.
Qed.

Lemma filterM_returns l kept :
  filterM is_liquid_staking l = Ok kept -> Forall (fun p => has_properties p = true) l.
Proof.
  revert kept. induction l as [|p l IH]; simpl; intros kept H; [constructor|].
  destruct (is_liquid_staking p) as [keep|] eqn:E; simpl in H; [|discriminate].
  destruct (filterM _ l) as [r|]; simpl in H; [|discriminate].
  constructor; [|now apply (IH r)].
  destruct p; try discriminate; reflexivity.
Qed.

Lemma retained_filter protocolsData kept :
  retained protocolsData = Ok kept ->
  exists l, protocolsData = VArray l
            /\ Forall (fun p => has_properties p = true) l
            /\ kept = List.filter liquid_staking l.
Proof.
  unfold retained, Array_filter, method_of_array. intros H.
  destruct protocolsData as [| | | | |l|]; try discriminate.
  exists l. split; [reflexivity|].
  assert (Hl := filterM_returns _ _ H). split; [exact Hl|].
  rewrite (filterM_filter _ Hl) in H. congruence.
Qed.

Lemma retained_defined l :
  Forall (fun p => has_properties p = true) l ->
  retained (VArray l) = Ok (List.filter liquid_staking l).
Proof. intros Hl. now apply filterM_filter. Qed.

(** X4.  The category filter returns exactly when the protocol list is
    an array without undefined and null, and then it keeps, in order,
    the elements whose category is the string "Liquid Staking"; one
    element that is null makes it throw, whatever the others are. *)
Theorem filter_keeps_the_category (protocolsData : value) (kept : list value) :
  (retained protocolsData = Ok kept
   <-> (exists l, protocolsData = VArray l
          /\ Forall (fun p => has_properties p = true) l
          /\ kept = List.filter liquid_staking l))
  /\ (forall l, protocolsData = VArray l -> VNull ∈ l ->
        exists e, retained protocolsData = Throw e).
Proof.
  split; [split|].
  - apply retained_filter.
  - intros (l & -> & Hl & ->). now apply retained_defined.
  - intros l -> Hin. destruct (retained (VArray l)) as [kept'|e] eqn:E; [|eauto].
    apply retained_filter in E as (l' & [= <-] & Hl & _).
    rewrite Forall_forall in Hl. specialize (Hl VNull Hin). discriminate.
Qed.

Lemma liquid_staking_category p :
  liquid_staking p = true -> Get p "category" = VString "Liquid Staking".
Proof.
  unfold liquid_staking, strict_equals_string.
  destruct (Get p "category"); try discriminate.
  intros H. apply String.eqb_eq in H. now subst.
Qed.

(** ** The rows *)

Lemma transform_returns feesMap p row :
  transform feesMap p = Ok row -> exists s, Get p "name" = VString s.
Proof.
  unfold transform. destruct p; simpl; try discriminate;
    match goal with |- context [call_toLowerCase ?v] => destruct v eqn:E end;
    simpl; try discriminate; eauto.
Qed.

Lemma or_defaulted v : defaulted (or v (VNumber 0)).
Proof. unfold defaulted, or. destruct (ToBoolean v) eqn:E; auto. Qed.

Lemma or_number v :
  number_or_absent v -> exists x, or v (VNumber 0) = VNumber x /\ is_nan x = false.
Proof.
  intros [-> | [-> | (x & ->)]]; try (exists 0%float; split; reflexivity).
  unfold or. simpl. destruct (x =? 0)%float; simpl; [exists 0%float; split; reflexivity|].
  destruct (is_nan x) eqn:E; simpl; [exists 0%float; split; reflexivity|].
  exists x. split; [reflexivity | exact E].
Qed.

Lemma transform_fields (feesMap : gmap string value) (p : value) (row : Protocol) :
  transform feesMap p = Ok row ->
  (exists s, Get p "name" = VString s /\ name row = VString s)
  /\ category row = Get p "category"
  /\ slug row = Get p "slug"
  /\ Forall (fun f => defaulted (f.2 row)) (fee_fields ++ protocol_fields)%list
  /\ Forall (fun f => forall x, f.2 row = VNumber x -> is_nan x = false)
       (fee_fields ++ protocol_fields)%list
  /\ Forall (fun f => number_or_absent (Get p f.1) ->
               exists x, f.2 row = VNumber x /\ is_nan x = false) protocol_fields
  /\ (symbol row = VString "" \/ ToBoolean (symbol row) = true)
  /\ (logo row = VString "" \/ ToBoolean (logo row) = true).
Proof.
  intros H. destruct (transform_returns _ _ _ H) as (s & Hs).
  destruct (transform_row feesMap p s Hs) as (row' & Hrow & Hname & Hfees & Hprot).
  assert (row' = row) by congruence. subst row'.
  assert (Hd : Forall (fun f => defaulted (f.2 row)) (fee_fields ++ protocol_fields)%list).
  { apply Forall_app. split; (eapply Forall_impl; [eassumption|]); simpl;
      intros f ->; apply or_defaulted. }
  split; [eauto|].
  unfold transform in H. rewrite (get_string _ _ _ Hs) in H. simpl in H.
  injection H as <-. simpl.
  split; [reflexivity|]. split; [reflexivity|]. split; [exact Hd|]. split; [|split; [|split]].
  - eapply Forall_impl; [exact Hd|]. simpl. intros f [E | E] x Hx.
    + rewrite Hx in E. injection E as ->. reflexivity.
    + rewrite Hx in E. simpl in E. apply andb_true_iff in E as [_ E].
      now apply negb_true_iff in E.
  - eapply Forall_impl; [exact Hprot|]. simpl. intros f -> Hraw. now apply or_number.
  - unfold or. destruct (ToBoolean (Get p "symbol")) eqn:E; auto.
  - unfold or. destruct (ToBoolean (Get p "logo")) eqn:E; auto.
Qed.


Lemma mapM_returns {B} (f : value -> result B) l rows :
  mapM (M := result) f l = Ok rows -> Forall2 (fun p row => f p = Ok row) l rows.
Proof.
  revert rows. induction l as [|p l IH]; simpl; intros rows H.
  - injection H as <-. constructor.
  - destruct (f p) as [row|] eqn:E; simpl in H; [|discriminate].
    destruct (mapM f l) as [r|]; simpl in H; [|discriminate].
    injection H as <-. constructor; [exact E | now apply IH].
Qed.

Lemma liquidStakingProtocols_rows protocolsData feesData rows :
  liquidStakingProtocols protocolsData feesData = Ok rows ->
  exists feesMap l,
    fees_by_name feesData = Ok feesMap
    /\ protocolsData = VArray l
    /\ Forall2 (fun p row => transform feesMap p = Ok row) (List.filter liquid_staking l) rows.
Proof.
  unfold liquidStakingProtocols. intros H.
  destruct (fees_by_name feesData) as [feesMap|]; simpl in H; [|discriminate].
  destruct (retained protocolsData) as [kept|] eqn:Hkept; simpl in H; [|discriminate].
  apply retained_filter in Hkept as (l & -> & Hl & ->).
  apply mapM_returns in H. eauto.
Qed.

(** X5.  Every row of a merge that returns has its defaults applied:
    each of the 21 fields filled with [raw || 0] holds the number 0 or a
    truthy value (never undefined, null, false, NaN or the empty
    string), a number among them is not NaN, and the symbol and the
    logo hold the empty string or a truthy value. *)
Theorem rows_have_defaults (protocolsData feesData : value) (rows : list Protocol) :
  liquidStakingProtocols protocolsData feesData = Ok rows ->
  Forall defaults_applied rows.
Proof.
  intros H.
  destruct (liquidStakingProtocols_rows _ _ _ H) as (feesMap & l & _ & _ & H2).
  clear H. induction H2 as [|p row kept rows Hrow _ IH]; constructor; [|exact IH].
  destruct (transform_fields _ _ _ Hrow) as (_ & _ & _ & H1 & H3 & _ & H4 & H5).
  repeat split; assumption.
Qed.

Lemma rows_have_defaults_witness :
  exists rows,
    liquidStakingProtocols protocols_payload fees_payload = Ok rows
    /\ Forall defaults_applied rows.
Proof.
  eexists. split; [reflexivity|].
  exact (rows_have_defaults protocols_payload fees_payload _ eq_refl).
Defined.

(** X6.  The rows of a merge that returns are those of the protocols of
    the category, one row each and in the order of the payload: a row
    has the name of its protocol, which is a string, and every row has
    the category "Liquid Staking". *)
Theorem rows_of_the_category (protocolsData feesData : value) (rows : list Protocol) :
  liquidStakingProtocols protocolsData feesData = Ok rows ->
  exists l,
    protocolsData = VArray l
    /\ Forall2 (fun p row => name row = Get p "name" /\ exists s, name row = VString s)
         (List.filter liquid_staking l) rows
    /\ Forall (fun row => category row = VString "Liquid Staking") rows
    /\ length rows = length (List.filter liquid_staking l)
    /\ length rows <= length l.
Proof.
  intros H. destruct (liquidStakingProtocols_rows _ _ _ H) as (feesMap & l & _ & -> & H2).
  clear H. rename H2 into H. exists l. split; [reflexivity|].
  assert (Hc : Forall (fun p => liquid_staking p = true) (List.filter liquid_staking l)).
  { clear. induction l as [|p l IH]; simpl; [constructor|].
    destruct (liquid_staking p) eqn:E; [constructor|]; assumption. }
  assert (Hlen := Forall2_length _ _ _ H).
  split; [|split; [|split]].
  - eapply Forall2_impl; [exact H|]. simpl. intros p row Hrow.
    destruct (transform_fields _ _ _ Hrow) as ((s & Hs & Hn) & _). split; [congruence | eauto].
  - clear Hlen. induction H as [|p row kept rows Hrow _ IH]; [constructor|].
    inversion Hc as [|? ? Hp Hc']; subst. constructor; [|now apply IH].
    destruct (transform_fields _ _ _ Hrow) as (_ & -> & _).
    now apply liquid_staking_category.
  - now symmetry.
  - rewrite <- Hlen. apply List.filter_length_le.
Qed.

Lemma rows_of_the_category_witness :
  exists rows,
    liquidStakingProtocols protocols_payload fees_payload = Ok rows
    /\ map name rows = [VString "Lido"; VString "Rocket Pool"]
    /\ Forall (fun row => category row = VString "Liquid Staking") rows.
Proof.
  eexists. split; [reflexivity|].
  destruct (rows_of_the_category protocols_payload fees_payload _ eq_refl)
    as (l & _ & _ & Hc & _).
  split; [reflexivity | exact Hc].
Defined.

(** ** When the merge returns *)

Lemma liquidStakingProtocols_returns protocolsData feesData :
  (exists rows, liquidStakingProtocols protocolsData feesData = Ok rows)
  <-> well_formed protocolsData feesData.
Proof.
  unfold liquidStakingProtocols, well_formed. split.
  - intros (rows & H).
    destruct (fees_by_name feesData) as [feesMap|] eqn:Hf; simpl in H; [|discriminate].
    destruct (retained protocolsData) as [kept|] eqn:Hkept; simpl in H; [|discriminate].
    destruct (fees_by_name_named _ _ Hf) as (records & Hr & Hn).
    apply retained_filter in Hkept as (l & -> & Hl & ->).
    exists records, l. repeat split; try assumption.
    apply mapM_returns in H.
    induction H as [|p row kept rows' Hrow _ IH]; constructor; [|exact IH].
    exact (transform_returns _ _ _ Hrow).
  - intros (records & l & Hr & Hn & -> & Hl & Hk).
    destruct (fees_by_name_defined _ _ Hr Hn) as (feesMap & ->).
    rewrite (retained_defined l Hl).
    simpl. destruct (mapM_rows (transform feesMap) (List.filter liquid_staking l))
      as (rows & -> & _); [|eauto].
    eapply Forall_impl; [exact Hk|]. simpl. intros p (s & Hs).
    destruct (transform_row feesMap p s Hs) as (row & Hrow & _). eauto.
Qed.

(** X7.  When both responses are ok and both bodies decode, the cycle
    succeeds exactly when the payloads are well formed.  One fee record
    without a name, one null in the protocol list or one protocol of
    the category without a name makes the whole cycle fail: there is no
    partial result. *)
Theorem fetch_succeeds_iff (net : Network) (r1 r2 : Response)
    (protocolsData feesData : value) :
  protocolsRequest net = Ok r1 -> feesRequest net = Ok r2 ->
  ok r1 = true -> ok r2 = true ->
  json r1 = Ok protocolsData -> json r2 = Ok feesData ->
  ((exists rows, try_body net = Ok rows) <-> well_formed protocolsData feesData)
  /\ (~ well_formed protocolsData feesData -> exists e, try_body net = Throw e).
Proof.
  intros H1 H2 Hok1 Hok2 Hj1 Hj2.
  assert (E : try_body net = liquidStakingProtocols protocolsData feesData).
  { unfold try_body. rewrite H1, H2. simpl. rewrite Hok1, Hok2, Hj1, Hj2. reflexivity. }
  rewrite E. split; [apply liquidStakingProtocols_returns|].
  intros Hn. destruct (liquidStakingProtocols protocolsData feesData) as [rows|e] eqn:El.
  - exfalso. apply Hn. apply liquidStakingProtocols_returns. eauto.
  - eauto.
Qed.

Lemma fetch_succeeds_iff_witness : exists rows, try_body answered = Ok rows.
Proof.
  apply (proj1 (fetch_succeeds_iff answered _ _ protocols_payload fees_payload
                  eq_refl eq_refl eq_refl eq_refl eq_refl eq_refl)).
  eexists _, _. split; [reflexivity|]. split.
  { repeat constructor; eexists; reflexivity. }
  split; [reflexivity|]. split.
  { repeat constructor. }
  simpl. repeat constructor; eexists; reflexivity.
Defined.

(** ** The outcome of the cycle *)

Lemma after_fetch_success net σ rows :
  try_body net = Ok rows ->
  after_fetch net σ =
    ({| protocols := fresh (dom (<[fresh (dom σ) := []]> σ)); loading := false;
        error := None; sortConfig := initialSortConfig |},
     <[fresh (dom (<[fresh (dom σ) := []]> σ)) := rows]> (<[fresh (dom σ) := []]> σ)).
Proof. intros H. unfold after_fetch, fetchProtocolsData. rewrite H. reflexivity. Qed.

Lemma after_fetch_failure net σ e :
  try_body net = Throw e ->
  after_fetch net σ =
    ({| protocols := fresh (dom σ); loading := false;
        error := Some (message_of e); sortConfig := initialSortConfig |},
     <[fresh (dom σ) := []]> σ).
Proof.
  intros H. unfold after_fetch, fetchProtocolsData. rewrite H. destruct e; reflexivity.
Qed.

Lemma fresh_twice (σ : gmap loc (list Protocol)) a :
  a ∈ dom σ -> fresh (dom (<[fresh (dom σ) := []]> σ)) <> a /\ fresh (dom σ) <> a.
Proof.
  intros Ha. split.
  - intros <-. apply (is_fresh (dom (<[fresh (dom σ) := []]> σ))).
    exact (dom_insert_subseteq σ _ _ _ Ha).
  - intros <-. now apply is_fresh in Ha.
Qed.

(** X8.  However the requests end, the page is not loading after the
    cycle and the sort configuration is the initial one.  After a
    cycle that succeeds the error is still null, the page shows the
    table, and its list is the list of rows the merge returned; a list
    that is not empty is always the result of a cycle that succeeded,
    with no error set.  The arrays that existed before are untouched. *)
Theorem fetch_outcome (net : Network) (σ : gmap loc (list Protocol)) :
  loading (after_fetch net σ).1 = false
  /\ sortConfig (after_fetch net σ).1 = initialSortConfig
  /\ (forall rows, try_body net = Ok rows ->
        error (after_fetch net σ).1 = None
        /\ render (after_fetch net σ).1 = table_view
        /\ (after_fetch net σ).2 !! protocols (after_fetch net σ).1 = Some rows)
  /\ (forall rows,
        (after_fetch net σ).2 !! protocols (after_fetch net σ).1 = Some rows ->
        rows <> [] -> try_body net = Ok rows /\ error (after_fetch net σ).1 = None)
  /\ (forall a, a ∈ dom σ -> (after_fetch net σ).2 !! a = σ !! a).
Proof.
  destruct (try_body net) as [rows|e] eqn:E.
  - rewrite (after_fetch_success net σ rows E). simpl.
    split; [reflexivity|]. split; [reflexivity|]. split; [|split].
    + intros ? [= <-]. repeat split. apply lookup_insert_eq.
    + intros rows'. rewrite lookup_insert_eq. intros [= <-] _. split; reflexivity.
    + intros a Ha. destruct (fresh_twice σ a Ha) as [H1 H2].
      now rewrite !lookup_insert_ne.
  - rewrite (after_fetch_failure net σ e E). simpl.
    split; [reflexivity|]. split; [reflexivity|]. split; [|split].
    + discriminate.
    + intros rows'. rewrite lookup_insert_eq. intros [= <-] Hne. now contradiction Hne.
    + intros a Ha. destruct (fresh_twice σ a Ha) as [_ H2].
      now rewrite lookup_insert_ne.
Qed.

End Merge.

(* ===================================================================== *)
(** * The order of the table                                             *)
(* ===================================================================== *)

Section TableOrder.
Import Protocols.
#[local] Open Scope float_scope.

(** Ascending by TVL: the comparator decides the order of the TVLs. *)
Lemma compare_asc_tvl a b :
  numeric_tvl a -> numeric_tvl b ->
  exists v, SortCompare (compare {| key := "tvl"; direction := asc |}) a b = Ok v
            /\ if (0 <? v) then tvl_at_least a b else tvl_at_least b a.
Proof.
  intros (x & Hx & Nx) (y & Hy & Ny).
  unfold SortCompare. rewrite compare_unfold.
  assert (Ea : sort_value "tvl" a = VNumber x) by exact Hx.
  assert (Eb : sort_value "tvl" b = VNumber y) by exact Hy.
  rewrite Ea, Eb. unfold js_gt. simpl. rewrite Nx, Ny. simpl.
  destruct (y <? x) eqn:E; simpl; eexists; (split; [reflexivity|]); simpl.
  - exists x, y. repeat split; try assumption. now apply lt_ge.
  - exists y, x. repeat split; try assumption. now apply not_lt_ge.
Qed.

Lemma sorted_by_tvl d rows :
  Forall numeric_tvl rows ->
  exists rows', sort (compare {| key := "tvl"; direction := d |}) rows = Ok rows'
    /\ Permutation rows rows'
    /\ match d with
       | asc => ascending_by_tvl rows'
       | desc => descending_by_tvl rows'
       end.
Proof.
  intros Hrows. destruct d.
  - apply (sort_sorted _ numeric_tvl (fun a b => tvl_at_least b a));
      [| exact compare_asc_tvl | exact Hrows].
    intros x y z _ _ _ H1 H2. exact (tvl_at_least_trans z y x H2 H1).
  - apply (sort_sorted _ numeric_tvl tvl_at_least);
      [| exact compare_desc_tvl | exact Hrows].
    intros x y z _ _ _. apply tvl_at_least_trans.
Qed.

(** X9.  A click on the TVL header while the table is sorted by TVL
    descending derives the rows in ascending order of TVL: a
    permutation of the stored rows in which no row has a TVL below that
    of a row before it (for rows whose TVL is a number other than
    NaN). *)
Theorem tvl_header_ascending (st : State) (σ : gmap loc (list Protocol))
    (rows : list Protocol) :
  sortConfig st = {| key := "tvl"; direction := desc |} ->
  σ !! protocols st = Some rows ->
  Forall numeric_tvl rows ->
  exists sorted σ' rows',
    getSortedProtocols (sortData "tvl" st) σ = (Ok sorted, σ')
    /\ σ' !! sorted = Some rows'
    /\ Permutation rows rows'
    /\ ascending_by_tvl rows'.
Proof.
  intros Hcfg Ha Hrows.
  destruct (sorted_by_tvl asc rows Hrows) as (rows' & Hs & Hp & Hsorted).
  destruct (getSortedProtocols_returns (sortData "tvl" st) σ rows rows') as (sorted & σ' & E & Hσ).
  { exact Ha. }
  { simpl. rewrite Hcfg. exact Hs. }
  exists sorted, σ', rows'. repeat split; assumption.
Qed.


Lemma tvl_header_ascending_witness :
  exists sorted σ' rows',
    getSortedProtocols (sortData "tvl" (table 1%positive initialSortConfig))
      {[ 1%positive := [sample "Rocket Pool" 20 2; sample "Lido" 10 1] ]} = (Ok sorted, σ')
    /\ σ' !! sorted = Some rows'
    /\ ascending_by_tvl rows'.
Proof.
  destruct (tvl_header_ascending (table 1%positive initialSortConfig)
              {[ 1%positive := [sample "Rocket Pool" 20 2; sample "Lido" 10 1] ]}
              [sample "Rocket Pool" 20 2; sample "Lido" 10 1])
    as (sorted & σ' & rows' & E & Hl & _ & Hs).
  { reflexivity. }
  { reflexivity. }
  { repeat constructor; eexists; (split; [reflexivity | reflexivity]). }
  exists sorted, σ', rows'. repeat split; assumption.
Defined.

(** ** Toggling the direction *)

Lemma tvl_below_at_least a b : tvl_below a b -> tvl_at_least a b -> False.
Proof.
  intros (x & y & Hx & Hy & H) (x' & y' & Hx' & Hy' & H').
  assert (x' = x) by congruence. assert (y' = y) by congruence. subst.
  rewrite (lt_not_ge _ _ H) in H'. discriminate.
Qed.

Lemma tvl_below_asym a b : tvl_below a b -> tvl_below b a -> False.
Proof.
  intros H (y & x & Hy & Hx & H'). apply (tvl_below_at_least a b H).
  exists x, y. repeat split; try assumption. now apply lt_ge.
Qed.

(** With distinct TVLs an order by TVL is a strict one. *)
Lemma strictly_sorted (R S : Protocol -> Protocol -> Prop) rows :
  (forall a b, R a b -> tvl_below a b \/ tvl_below b a -> S a b) ->
  distinct_tvl rows -> StronglySorted R rows -> StronglySorted S rows.
Proof.
  intros HR [Hnd Hd] Hs. induction Hs as [|a l Hs IH Hall]; [constructor|].
  apply NoDup_cons in Hnd as [Ha Hnd].
  constructor.
  - apply IH; [exact Hnd|]. intros x y Hx Hy. apply Hd; now right.
  - rewrite Forall_forall in *. intros b Hb. apply HR; [now apply Hall|].
    apply Hd; [left | now right |]. intros ->. contradiction.
Qed.

Lemma StronglySorted_snoc {A} (R : A -> A -> Prop) l x :
  StronglySorted R l -> Forall (fun y => R y x) l -> StronglySorted R (l ++ [x]).
Proof.
  induction 1 as [|a l Hs IH Hall]; intros Hx; simpl.
  - repeat constructor.
  - inversion Hx as [|? ? Hax Hx']; subst. constructor; [now apply IH|].
    apply Forall_app. split; [exact Hall | now constructor].
Qed.

Lemma StronglySorted_rev {A} (R : A -> A -> Prop) l :
  StronglySorted R l -> StronglySorted (fun a b => R b a) (rev l).
Proof.
  induction 1 as [|a l Hs IH Hall]; simpl; [constructor|].
  apply StronglySorted_snoc; [exact IH|].
  rewrite Forall_forall in *. intros y Hy. apply Hall.
  apply list_elem_of_In. apply in_rev. now apply list_elem_of_In.
Qed.

(** Two lists in strictly ascending order of TVL with the same rows are
    the same list. *)
Lemma strictly_sorted_unique l1 : forall l2,
  StronglySorted tvl_below l1 -> StronglySorted tvl_below l2 ->
  Permutation l1 l2 -> l1 = l2.
Proof.
  induction l1 as [|a l1 IH]; intros l2 H1 H2 Hp.
  - apply Permutation_nil in Hp. now subst.
  - destruct l2 as [|b l2]; [symmetry in Hp; now apply Permutation_nil in Hp|].
    inversion H1 as [|? ? H1' Ha]; subst. inversion H2 as [|? ? H2' Hb]; subst.
    assert (E : a = b).
    { assert (Hin : a ∈ b :: l2) by (rewrite <- Hp; left).
      assert (Hin' : b ∈ a :: l1) by (rewrite Hp; left).
      apply elem_of_cons in Hin as [E|Hin]; [exact E|].
      apply elem_of_cons in Hin' as [E|Hin']; [now symmetry|].
      rewrite Forall_forall in Ha, Hb.
      exfalso. exact (tvl_below_asym a b (Ha b Hin') (Hb a Hin)). }
    subst b. f_equal. apply IH; try assumption.
    now apply Permutation_cons_inv in Hp.
Qed.

Lemma StronglySorted_weaken {A} (R S : A -> A -> Prop) l :
  (forall a b, R a b -> S a b) -> StronglySorted R l -> StronglySorted S l.
Proof.
  intros HRS. induction 1 as [|a l Hs IH Hall]; constructor; [exact IH|].
  eapply Forall_impl; [exact Hall|]. simpl. auto.
Qed.

Lemma distinct_tvl_perm l l' : Permutation l l' -> distinct_tvl l -> distinct_tvl l'.
Proof.
  intros Hp [Hnd Hd]. split; [now rewrite <- Hp|].
  intros a b Ha Hb. rewrite <- Hp in Ha, Hb. now apply Hd.
Qed.

(** X10.  When no two rows have the same TVL, the table sorted by TVL
    ascending is the table sorted by TVL descending read backwards: a
    click on the TVL header reverses the rows. *)
Theorem toggling_reverses (st : State) (σ : gmap loc (list Protocol))
    (rows : list Protocol) :
  sortConfig st = {| key := "tvl"; direction := desc |} ->
  σ !! protocols st = Some rows ->
  Forall numeric_tvl rows ->
  distinct_tvl rows ->
  exists down σ1 up σ2 rows',
    getSortedProtocols st σ = (Ok down, σ1)
    /\ σ1 !! down = Some rows'
    /\ getSortedProtocols (sortData "tvl" st) σ = (Ok up, σ2)
    /\ σ2 !! up = Some (rev rows').
Proof.
  intros Hcfg Ha Hrows Hd.
  destruct (sorted_by_tvl desc rows Hrows) as (l1 & Hs1 & Hp1 & Hsorted1).
  destruct (sorted_by_tvl asc rows Hrows) as (l2 & Hs2 & Hp2 & Hsorted2).
  destruct (getSortedProtocols_returns st σ rows l1) as (down & σ1 & E1 & Hσ1).
  { exact Ha. }
  { rewrite Hcfg. exact Hs1. }
  destruct (getSortedProtocols_returns (sortData "tvl" st) σ rows l2) as (up & σ2 & E2 & Hσ2).
  { exact Ha. }
  { simpl. rewrite Hcfg. exact Hs2. }
  exists down, σ1, up, σ2, l1. repeat split; try assumption.
  rewrite Hσ2. f_equal.
  apply strictly_sorted_unique.
  - apply (strictly_sorted (fun a b => tvl_at_least b a) tvl_below l2);
      [| exact (distinct_tvl_perm _ _ Hp2 Hd) | exact Hsorted2].
    intros a b Hab [H|H]; [exact H|]. exfalso. exact (tvl_below_at_least b a H Hab).
  - apply (StronglySorted_rev (fun a b => tvl_below b a)).
    apply (strictly_sorted tvl_at_least (fun a b => tvl_below b a) l1);
      [| exact (distinct_tvl_perm _ _ Hp1 Hd) | exact Hsorted1].
    intros a b Hab [H|H]; [|exact H]. exfalso. exact (tvl_below_at_least a b H Hab).
  - rewrite <- Hp2, Hp1. apply Permutation_rev.
Qed.



Lemma toggling_reverses_witness :
  exists down σ1 up σ2 rows',
    getSortedProtocols (table 1%positive initialSortConfig)
      {[ 1%positive := [sample "Lido" 10 1; sample "Rocket Pool" 20 2] ]} = (Ok down, σ1)
    /\ σ1 !! down = Some rows'
    /\ getSortedProtocols (sortData "tvl" (table 1%positive initialSortConfig))
         {[ 1%positive := [sample "Lido" 10 1; sample "Rocket Pool" 20 2] ]} = (Ok up, σ2)
    /\ σ2 !! up = Some (rev rows').
Proof.
  apply (toggling_reverses (table 1%positive initialSortConfig)
           {[ 1%positive := [sample "Lido" 10 1; sample "Rocket Pool" 20 2] ]}
           [sample "Lido" 10 1; sample "Rocket Pool" 20 2]).
  - reflexivity.
  - reflexivity.
  - repeat constructor; eexists; (split; [reflexivity | reflexivity]).
  - split.
    + apply NoDup_cons. split; [|apply NoDup_singleton].
      intros H. apply list_elem_of_singleton in H. discriminate H.
    + intros a b Ha Hb Hne.
      apply elem_of_cons in Ha as [-> | Ha]; [|apply list_elem_of_singleton in Ha as ->];
        (apply elem_of_cons in Hb as [-> | Hb]; [|apply list_elem_of_singleton in Hb as ->]);
        try (now contradiction Hne).
      * left. exists 10, 20. repeat split.
      * right. exists 10, 20. repeat split.
Defined.

(** ** The first table *)

Lemma try_body_returns net rows :
  try_body net = Ok rows ->
  exists r1 r2 protocolsData feesData,
    protocolsRequest net = Ok r1 /\ feesRequest net = Ok r2
    /\ ok r1 = true /\ ok r2 = true
    /\ json r1 = Ok protocolsData /\ json r2 = Ok feesData
    /\ liquidStakingProtocols protocolsData feesData = Ok rows.
Proof.
  unfold try_body.
  destruct (protocolsRequest net) as [r1|], (feesRequest net) as [r2|]; simpl;
    try discriminate; try (destruct (fees_settles_first net); discriminate).
  destruct (ok r1) eqn:Hok1, (ok r2) eqn:Hok2; simpl; try discriminate.
  destruct (json r1) as [pd|] eqn:Hj1; simpl; [|discriminate].
  destruct (json r2) as [fd|] eqn:Hj2; simpl; [|discriminate].
  intros H. exists r1, r2, pd, fd. repeat split; assumption.
Qed.

(** Rows of protocols whose raw TVL is a number, or absent, have a TVL
    that is a number other than NaN. *)
Lemma rows_numeric l feesData rows :
  liquidStakingProtocols (VArray l) feesData = Ok rows ->
  Forall (fun p => liquid_staking p = true -> number_or_absent (Get p "tvl")) l ->
  Forall numeric_tvl rows.
Proof.
  unfold liquidStakingProtocols. remember (VArray l) as pd eqn:Epd. intros H Hl.
  destruct (fees_by_name feesData) as [feesMap|]; simpl in H; [|discriminate].
  destruct (retained pd) as [kept|] eqn:Hkept; simpl in H; [|discriminate].
  apply retained_filter in Hkept as (l' & -> & _ & ->). injection Epd as ->.
  apply mapM_returns in H.
  assert (Hk : Forall (fun p => number_or_absent (Get p "tvl")) (List.filter liquid_staking l)).
  { clear H. induction Hl as [|p l Hp _ IH]; simpl; [constructor|].
    destruct (liquid_staking p) eqn:E; [constructor; auto | exact IH]. }
  induction H as [|p row kept rows Hrow _ IH]; [constructor|].
  inversion Hk as [|? ? Hp Hk']; subst. constructor; [|now apply IH].
  destruct (transform_fields _ _ _ Hrow) as (_ & _ & _ & _ & _ & Hf & _).
  inversion Hf as [|? ? Htvl _]; subst. exact (Htvl Hp).
Qed.

(** X11.  After a cycle that succeeds on a protocol list in which the
    raw TVL of every protocol of the category is a number, null or
    absent, the page shows the table, and the rows it derives first are
    the rows of the merge in descending order of TVL. *)
Theorem first_table_descending (net : Network) (σ : gmap loc (list Protocol))
    (r1 : Response) (l : list value) (rows : list Protocol) :
  protocolsRequest net = Ok r1 -> json r1 = Ok (VArray l) ->
  Forall (fun p => liquid_staking p = true -> number_or_absent (Get p "tvl")) l ->
  try_body net = Ok rows ->
  render (after_fetch net σ).1 = table_view
  /\ exists sorted σ' rows',
       getSortedProtocols (after_fetch net σ).1 (after_fetch net σ).2 = (Ok sorted, σ')
       /\ σ' !! sorted = Some rows'
       /\ Permutation rows rows'
       /\ descending_by_tvl rows'.
Proof.
  intros H1 Hj Hl Hrows.
  destruct (try_body_returns net rows Hrows)
    as (r1' & r2 & pd & fd & H1' & _ & _ & _ & Hj' & _ & Hm).
  assert (r1' = r1) by congruence. subst r1'.
  assert (pd = VArray l) by congruence. subst pd.
  assert (Hn := rows_numeric l fd rows Hm Hl).
  rewrite (after_fetch_success net σ rows Hrows). split; [reflexivity|].
  destruct (sorted_by_tvl desc rows Hn) as (rows' & Hs & Hp & Hsorted).
  match goal with |- context [getSortedProtocols ?st ?s] =>
    destruct (getSortedProtocols_returns st s rows rows') as (sorted & σ' & E & Hσ) end.
  { apply lookup_insert_eq. }
  { exact Hs. }
  exists sorted, σ', rows'. repeat split; assumption.
Qed.

Lemma first_table_descending_witness :
  render (after_fetch answered ∅).1 = table_view
  /\ exists sorted σ' rows',
       getSortedProtocols (after_fetch answered ∅).1 (after_fetch answered ∅).2
       = (Ok sorted, σ')
       /\ σ' !! sorted = Some rows'
       /\ descending_by_tvl rows'.
Proof.
  edestruct (first_table_descending answered ∅)
    as (Hr & sorted & σ' & rows' & E & Hl & _ & Hs); [reflexivity | reflexivity | | reflexivity |].
  { repeat (apply List.Forall_cons; [intros _; right; right; eexists; reflexivity|]).
    apply List.Forall_nil. }
  split; [exact Hr|]. exists sorted, σ', rows'. repeat split; assumption.
Defined.

End TableOrder.

(* ===================================================================== *)
(** * The arrows in the headers                                          *)
(* ===================================================================== *)

Section Headers.
Import Protocols.

Lemma last_cons {A} (c : A) cs d : List.last (c :: cs) d = List.last cs c.
Proof.
  revert c d. induction cs as [|c' cs IH]; intros c d; [reflexivity|].
  change (List.last (c :: c' :: cs) d) with (List.last (c' :: cs) d).
  now rewrite (IH c' d), (IH c' c).
Qed.

(** The key is the column of the last click. *)
Lemma clicks_key columns : forall st,
  key (sortConfig (clicks columns st)) = List.last columns (key (sortConfig st)).
Proof.
  induction columns as [|c cs IH]; intros st; [reflexivity|].
  rewrite last_cons. unfold clicks. simpl. apply IH.
Qed.

Lemma sort_arrow_Some column cfg :
  key cfg = column ->
  sort_arrow column cfg
  = Some (match direction cfg with desc => ArrowDown | asc => ArrowUp end).
Proof. intros <-. unfold sort_arrow. now rewrite String.eqb_refl. Qed.

Lemma sort_arrow_None column cfg : key cfg <> column -> sort_arrow column cfg = None.
Proof.
  intros H. unfold sort_arrow. destruct (String.eqb_spec (key cfg) column); [contradiction|].
  reflexivity.
Qed.

(** X12.  At first the TVL header shows the arrow down and the two other
    sortable headers none.  After any clicks on sortable headers
    exactly one header shows an arrow, the one clicked last, and a
    click on a header shows the arrow up on it when it showed the arrow
    down before, and the arrow down otherwise. *)
Theorem one_arrow (columns : list string) (st : State) :
  sortConfig st = initialSortConfig ->
  Forall (fun column => column ∈ sortable) columns ->
  arrows st = [Some ArrowDown; None; None]
  /\ (exists column a,
        column = List.last columns "tvl" /\ column ∈ sortable
        /\ sort_arrow column (sortConfig (clicks columns st)) = Some a
        /\ forall other, other <> column ->
             sort_arrow other (sortConfig (clicks columns st)) = None)
  /\ (forall column,
        sort_arrow column (sortConfig (sortData column (clicks columns st)))
        = Some (match sort_arrow column (sortConfig (clicks columns st)) with
                | Some ArrowDown => ArrowUp
                | _ => ArrowDown
                end)).
Proof.
  intros Hinit Hcols. split; [|split].
  - unfold arrows. now rewrite Hinit.
  - assert (Hk := clicks_key columns st). rewrite Hinit in Hk. simpl in Hk.
    eexists _, _. split; [reflexivity|]. split; [|split].
    + clear Hk. destruct columns as [|c cs] using rev_ind; [now left|].
      rewrite List.last_last. apply Forall_app in Hcols as [_ Hc].
      now inversion Hc.
    + now apply sort_arrow_Some.
    + intros other Hne. apply sort_arrow_None. rewrite Hk. auto.
  - intros column. destruct (clicks columns st) as [a l e [k d]].
    unfold sortData, sort_arrow. simpl. rewrite String.eqb_refl.
    destruct (String.eqb k column), d; reflexivity.
Qed.


Lemma one_arrow_witness :
  exists a,
    sort_arrow "tvl"
      (sortConfig (clicks ["fees.24h"; "tvl"; "tvl"] (table 1%positive initialSortConfig)))
    = Some a
    /\ sort_arrow "fees.24h"
         (sortConfig (clicks ["fees.24h"; "tvl"; "tvl"] (table 1%positive initialSortConfig)))
       = None.
Proof.
  destruct (one_arrow ["fees.24h"; "tvl"; "tvl"] (table 1%positive initialSortConfig))
    as (_ & (column & a & Hc & _ & Ha & Hother) & _).
  { reflexivity. }
  { repeat constructor. }
  simpl in Hc. subst column. exists a. split; [exact Ha|]. apply Hother. discriminate.
Defined.

(** ** Sorting after any clicks *)

Lemma clicks_protocols columns : forall st, protocols (clicks columns st) = protocols st.
Proof.
  induction columns as [|c cs IH]; intros st; [reflexivity|].
  unfold clicks. simpl. exact (IH (sortData c st)).
Qed.

(** A comparator that always answers makes [sort] return. *)
Lemma sort_returns {A} (f : A -> A -> result number) l :
  (forall a b, exists v, f a b = Ok v) -> exists l', sort f l = Ok l'.
Proof.
  intros Hf. induction l as [|x l (s & Hs)]; simpl; [eauto|]. rewrite Hs. simpl.
  clear Hs. induction s as [|y s (r & Hr)]; simpl; [eauto|].
  unfold SortCompare. destruct (Hf x y) as (v & ->). simpl.
  destruct (0 <? _)%float; [rewrite Hr|]; simpl; eauto.
Qed.

Lemma sortable_dotted column :
  column ∈ sortable -> column = "tvl" \/ dotted column = true.
Proof.
  unfold sortable. intros H.
  repeat (apply elem_of_cons in H as [->|H]; [auto|]).
  now apply elem_of_nil in H.
Qed.

(** X16.  Whatever sortable headers are clicked, deriving the sorted
    rows returns, and returns a permutation of the stored rows, when
    the TVL of every row is a number other than NaN: the comparator
    throws on none of the three keys the headers pass. *)
Theorem header_clicks_never_throw (columns : list string) (st : State)
    (σ : gmap loc (list Protocol)) (rows : list Protocol) :
  sortConfig st = initialSortConfig ->
  Forall (fun column => column ∈ sortable) columns ->
  σ !! protocols st = Some rows ->
  Forall numeric_tvl rows ->
  exists sorted σ' rows',
    getSortedProtocols (clicks columns st) σ = (Ok sorted, σ')
    /\ σ' !! sorted = Some rows'
    /\ Permutation rows rows'.
Proof.
  intros Hinit Hcols Ha Hrows.
  assert (Hk := clicks_key columns st). rewrite Hinit in Hk. simpl in Hk.
  assert (Hs : List.last columns "tvl" ∈ sortable).
  { clear Hk. destruct columns as [|c cs] using rev_ind; [now left|].
    rewrite List.last_last. apply Forall_app in Hcols as [_ Hc]. now inversion Hc. }
  rewrite <- Hk in Hs.
  assert (Hsort : exists rows', sort (compare (sortConfig (clicks columns st))) rows = Ok rows').
  { destruct (sortConfig (clicks columns st)) as [k d]. simpl in Hs.
    destruct (sortable_dotted k Hs) as [-> | Hd].
    - destruct (sorted_by_tvl d rows Hrows) as (rows' & H & _). eauto.
    - apply sort_returns. intros a b. rewrite (compare_dotted k d a b Hd). eauto. }
  destruct Hsort as (rows' & Hsort).
  destruct (getSortedProtocols_returns (clicks columns st) σ rows rows')
    as (sorted & σ' & E & Hσ).
  { now rewrite clicks_protocols. }
  { exact Hsort. }
  exists sorted, σ', rows'. repeat split; try assumption.
  now apply (sort_perm (compare (sortConfig (clicks columns st)))).
Qed.

Lemma header_clicks_never_throw_witness :
  exists sorted σ' rows',
    getSortedProtocols
      (clicks ["fees.24h"; "revenue.24h"] (table 1%positive initialSortConfig))
      {[ 1%positive := [sample "Lido" 10 1; sample "Rocket Pool" 20 2] ]} = (Ok sorted, σ')
    /\ σ' !! sorted = Some rows'
    /\ Permutation [sample "Lido" 10 1; sample "Rocket Pool" 20 2] rows'.
Proof.
  apply (header_clicks_never_throw ["fees.24h"; "revenue.24h"]
           (table 1%positive initialSortConfig)
           {[ 1%positive := [sample "Lido" 10 1; sample "Rocket Pool" 20 2] ]}).
  - reflexivity.
  - repeat constructor.
  - reflexivity.
  - repeat constructor; eexists; (split; [reflexivity | reflexivity]).
Defined.

End Headers.

(* ===================================================================== *)
(** * The change of the TVL                                              *)
(* ===================================================================== *)

Section Change.
Import Protocols.
#[local] Open Scope float_scope.

(** ** The sign of a quotient and of a product *)

Lemma shr_fexp_nonneg m e l : (0 <= m)%Z -> (0 <= shr_m (shr_fexp prec emax m e l).1)%Z.
Proof.
  intros Hm. unfold shr_fexp, shr.
  destruct (SpecFloat.fexp prec emax (Zdigits2 m + e) - e)%Z as [|p|p]; simpl;
    rewrite ?shr_record_of_loc_m; try exact Hm.
  rewrite iter_shr_1 by (rewrite shr_record_of_loc_m; exact Hm).
  rewrite shr_record_of_loc_m. now apply Z.shiftr_nonneg.
Qed.

Lemma round_nearest_even_nonneg m l : (0 <= m)%Z -> (0 <= round_nearest_even m l)%Z.
Proof. intros H. destruct l as [|[]]; simpl; try destruct (Z.even m); lia. Qed.

Lemma binary_round_aux_signed s m e l :
  (0 <= m)%Z -> zero_or_signed s (binary_round_aux prec emax s m e l).
Proof.
  intros Hm. unfold binary_round_aux.
  assert (H1 := shr_fexp_nonneg m e l Hm).
  destruct (shr_fexp prec emax m e l) as [mrs' e']. simpl in H1.
  assert (H2 := round_nearest_even_nonneg _ (loc_of_shr_record mrs') H1).
  assert (H3 := shr_fexp_nonneg _ e' loc_Exact H2).
  destruct (shr_fexp prec emax _ e' loc_Exact) as [mrs'' e'']. simpl in H3.
  destruct (shr_m mrs''); try lia; [exact I|].
  destruct (e'' <=? emax - prec)%Z; reflexivity.
Qed.

Lemma binary_normalize_signed z e :
  zero_or_signed (z <? 0)%Z (binary_normalize prec emax z e false).
Proof.
  destruct z as [|m|m]; simpl; [exact I| |]; unfold binary_round;
    destruct (shl_align m e _) as [mz ez]; apply binary_round_aux_signed; lia.
Qed.

Lemma SFdiv_core_nonneg mx ex my ey :
  (0 <= (SFdiv_core_binary prec emax (Zpos mx) ex (Zpos my) ey).1.1)%Z.
Proof.
  unfold SFdiv_core_binary.
  set (s := (ex - ey - _)%Z).
  set (m' := match s with Zpos _ => Z.shiftl (Zpos mx) s | Z0 => Zpos mx | Zneg _ => 0%Z end).
  assert (Hm : (0 <= m')%Z).
  { subst m'. destruct s; try lia. apply Z.shiftl_nonneg. lia. }
  assert (H := Z.div_pos m' (Zpos my) Hm ltac:(lia)).
  unfold Z.div in H. destruct (Z.div_eucl m' (Zpos my)) as [q r]. exact H.
Qed.

Lemma SFdiv_signed s x my ey :
  zero_or_signed s x -> zero_or_signed s (SFdiv prec emax x (S754_finite false my ey)).
Proof.
  destruct x as [sx|sx| |sx mx ex]; simpl; intros H; subst; try (destruct s; reflexivity);
    try exact I; try contradiction.
  assert (Hq := SFdiv_core_nonneg mx ex my ey).
  destruct (SFdiv_core_binary prec emax (Zpos mx) ex (Zpos my) ey) as [[mz ez] lz].
  replace (xorb s false) with s by (destruct s; reflexivity).
  now apply binary_round_aux_signed.
Qed.

Lemma SFmul_signed s x my ey :
  zero_or_signed s x -> zero_or_signed s (SFmul prec emax x (S754_finite false my ey)).
Proof.
  destruct x as [sx|sx| |sx mx ex]; simpl; intros H; subst; try (destruct s; reflexivity);
    try exact I; try contradiction.
  replace (xorb s false) with s by (destruct s; reflexivity).
  apply binary_round_aux_signed. lia.
Qed.


(** ** The sign of the difference with a positive number *)

Lemma SFsub_ge x my ey :
  valid_binary x = true -> valid_binary (S754_finite false my ey) = true ->
  SFleb (S754_finite false my ey) x = true ->
  zero_or_signed false (SFsub prec emax x (S754_finite false my ey)).
Proof.
  intros Vx Vy Hle.
  destruct x as [sx|sx| |sx mx ex]; try (destruct sx); try discriminate; try reflexivity.
  simpl in Vx, Vy. unfold SFsub.
  assert (Hc := aligned_compare my ey mx ex Vy Vx). rewrite (Z.min_comm ey ex) in Hc.
  set (zx := Zpos (shl_align mx ex (Z.min ex ey)).1) in *.
  set (zy := Zpos (shl_align my ey (Z.min ex ey)).1) in *.
  unfold SFleb, SFcompare in Hle. rewrite Hc in Hle. simpl cond_Zopp.
  assert (Hz : (zx - zy <? 0)%Z = false).
  { apply Z.ltb_ge. destruct (Z.compare_spec zy zx); try discriminate; lia. }
  match goal with |- context [binary_normalize _ _ ?z ?e false] =>
      assert (H := binary_normalize_signed z e) end.
    rewrite Hz in H. exact H.
Qed.

(** ** Rounding keeps the magnitude *)

Lemma Zdigits2_log2 m : (0 < m)%Z -> Zdigits2 m = (Z.log2 m + 1)%Z.
Proof. destruct m as [|p|p]; try lia. intros _. apply digits2_log2. Qed.

Lemma Zdigits2_mono a b : (0 < a <= b)%Z -> (Zdigits2 a <= Zdigits2 b)%Z.
Proof.
  intros H. rewrite !Zdigits2_log2 by lia.
  assert (Z.log2 a <= Z.log2 b)%Z by (apply Z.log2_le_mono; lia). lia.
Qed.

Lemma shr_fexp_magnitude m e l :
  (0 < m)%Z -> (-1074 < Zdigits2 m + e)%Z ->
  (0 < shr_m (shr_fexp prec emax m e l).1)%Z
  /\ (Zdigits2 (shr_m (shr_fexp prec emax m e l).1) + (shr_fexp prec emax m e l).2
      = Zdigits2 m + e)%Z.
Proof.
  intros Hm Hmu. unfold shr_fexp, shr. rewrite fexp_spec.
  assert (Hd := Zdigits2_log2 m Hm). set (d := Zdigits2 m) in *.
  assert (Hlog := Z.log2_nonneg m).
  destruct (Z.max (d + e - 53) (-1074) - e)%Z as [|n|n] eqn:En; simpl;
    rewrite ?shr_record_of_loc_m; try (split; [exact Hm | reflexivity]).
  rewrite iter_shr_1 by (rewrite shr_record_of_loc_m; lia).
  rewrite shr_record_of_loc_m.
  assert (Hn : (Zpos n <= Z.log2 m)%Z) by lia.
  assert (Hpos : (0 < Z.shiftr m (Zpos n))%Z).
  { rewrite Z.shiftr_div_pow2 by lia. apply Z.div_str_pos. split; [apply Z.pow_pos_nonneg; lia|].
    apply Z.log2_le_pow2; lia. }
  split; [exact Hpos|].
  rewrite (Zdigits2_log2 _ Hpos), Z.log2_shiftr by exact Hm. lia.
Qed.

Lemma round_nearest_even_bounds m l :
  (m <= round_nearest_even m l <= m + 1)%Z.
Proof. destruct l as [|[]]; simpl; try destruct (Z.even m); lia. Qed.

Lemma binary_round_aux_at_least s m e l :
  (0 < m)%Z -> (-1074 < Zdigits2 m + e)%Z ->
  signed_at_least s (Zdigits2 m + e) (binary_round_aux prec emax s m e l).
Proof.
  intros Hm Hmu. unfold binary_round_aux.
  destruct (shr_fexp_magnitude m e l Hm Hmu) as [H1 H2].
  destruct (shr_fexp prec emax m e l) as [mrs' e']. simpl in H1, H2.
  assert (Hr := round_nearest_even_bounds (shr_m mrs') (loc_of_shr_record mrs')).
  set (m1 := round_nearest_even (shr_m mrs') (loc_of_shr_record mrs')) in *.
  assert (Hd1 : (Zdigits2 (shr_m mrs') <= Zdigits2 m1)%Z) by (apply Zdigits2_mono; lia).
  destruct (shr_fexp_magnitude m1 e' loc_Exact ltac:(lia) ltac:(lia)) as [H3 H4].
  destruct (shr_fexp prec emax m1 e' loc_Exact) as [mrs'' e'']. simpl in H3, H4.
  destruct (shr_m mrs'') as [|m''|m'']; try lia.
  destruct (e'' <=? emax - prec)%Z; simpl; [|reflexivity].
  split; [reflexivity|]. simpl in H4. lia.
Qed.

Lemma binary_round_at_least s m e :
  (-1074 < Zpos (digits2_pos m) + e)%Z ->
  signed_at_least s (Zpos (digits2_pos m) + e) (binary_round prec emax s m e).
Proof.
  intros Hmu. unfold binary_round.
  assert (H : (Zdigits2 (Zpos (shl_align m e (SpecFloat.fexp prec emax (Zpos (digits2_pos m) + e))).1)
               + (shl_align m e (SpecFloat.fexp prec emax (Zpos (digits2_pos m) + e))).2
               = Zpos (digits2_pos m) + e)%Z).
  { unfold shl_align. set (f := SpecFloat.fexp prec emax (Zpos (digits2_pos m) + e)).
    destruct (f - e)%Z as [|d|d] eqn:Ed; simpl; try reflexivity.
    rewrite (digits2_log2 (Pos.iter xO m d)), iter_xO, Z.log2_mul_pow2 by lia.
    rewrite (digits2_log2 m). lia. }
  destruct (shl_align m e _) as [mz ez]. simpl in H. rewrite <- H.
  apply binary_round_aux_at_least; simpl; lia.
Qed.

Lemma signed_at_least_weaken s k k' r :
  (k' <= k)%Z -> signed_at_least s k r -> signed_at_least s k' r.
Proof. intros Hk. destruct r; simpl; try tauto. intros [-> H]. split; [reflexivity | lia]. Qed.

(** The difference with a positive number above: below zero, and not
    small against that number. *)
Lemma SFsub_lt_strict x my ey :
  valid_binary x = true -> valid_binary (S754_finite false my ey) = true ->
  SFltb x (S754_finite false my ey) = true ->
  signed_at_least true ey (SFsub prec emax x (S754_finite false my ey)).
Proof.
  intros Vx Vy Hlt.
  destruct x as [sx|sx| |sx mx ex]; try (destruct sx); try discriminate; try reflexivity.
  - (* a zero *) simpl. split; [reflexivity|]. lia.
  - simpl. split; [reflexivity|]. lia.
  - (* below zero *)
    simpl in Vx, Vy. unfold SFsub. simpl cond_Zopp.
    destruct (bounded_spec _ _ Vx) as (Hex & Hmx & Hnx).
    destruct (bounded_spec _ _ Vy) as (Hey & Hmy & Hny).
    assert (Hzx := shl_align_value mx ex (Z.min ex ey) ltac:(lia)).
    assert (Hzy := shl_align_value my ey (Z.min ex ey) ltac:(lia)).
    set (zx := Zpos (shl_align mx ex (Z.min ex ey)).1) in *.
    set (zy := Zpos (shl_align my ey (Z.min ex ey)).1) in *.
    destruct (- zx - zy)%Z as [|z|z] eqn:Ez; try lia.
    simpl. apply (signed_at_least_weaken true (Zpos (digits2_pos z) + Z.min ex ey)).
    + rewrite digits2_log2.
      assert (Hz : (Zpos z = zx + zy)%Z) by lia.
      assert (2 ^ (ey - Z.min ex ey) <= Zpos z)%Z.
      { rewrite Hz, Hzy. assert (0 < 2 ^ (ey - Z.min ex ey))%Z by (apply Z.pow_pos_nonneg; lia).
        nia. }
      assert (ey - Z.min ex ey <= Z.log2 (Zpos z))%Z by (apply Z.log2_le_pow2; lia).
      lia.
    + apply binary_round_at_least. lia.
  - (* above zero, below the other *)
    simpl in Vx, Vy. unfold SFsub. simpl cond_Zopp.
    assert (Hc := aligned_compare mx ex my ey Vx Vy).
    destruct (bounded_spec _ _ Vx) as (Hex & Hmx & Hnx).
    destruct (bounded_spec _ _ Vy) as (Hey & Hmy & Hny).
    assert (Hzx := shl_align_value mx ex (Z.min ex ey) ltac:(lia)).
    assert (Hzy := shl_align_value my ey (Z.min ex ey) ltac:(lia)).
    set (zx := Zpos (shl_align mx ex (Z.min ex ey)).1) in *.
    set (zy := Zpos (shl_align my ey (Z.min ex ey)).1) in *.
    unfold SFltb, SFcompare in Hlt. rewrite Hc in Hlt.
    assert (Hlt' : (zx < zy)%Z) by (destruct (Z.compare_spec zx zy); try discriminate; lia).
    destruct (zx - zy)%Z as [|z|z] eqn:Ez; try lia.
    simpl. apply (signed_at_least_weaken true (Zpos (digits2_pos z) + Z.min ex ey)).
    + rewrite digits2_log2. assert (Hlog := Z.log2_nonneg (Zpos z)).
      destruct (Z.le_gt_cases ey ex) as [Hge|Hgt]; [lia|].
      rewrite Z.min_l in * by lia.
      rewrite Z.sub_diag in Hzx. simpl in Hzx.
      assert (Hz : (Zpos z = zy - zx)%Z) by lia.
      specialize (Hny ltac:(lia)).
      assert (Hp : (2 ^ (ey - ex) = 2 * 2 ^ (ey - ex - 1))%Z).
      { rewrite <- Z.pow_succ_r by lia. f_equal. lia. }
      assert (0 < 2 ^ (ey - ex - 1))%Z by (apply Z.pow_pos_nonneg; lia).
      assert (2 ^ (ey - ex - 1) <= Zpos z)%Z by nia.
      assert (ey - ex - 1 <= Z.log2 (Zpos z))%Z by (apply Z.log2_le_pow2; lia).
      lia.
    + apply binary_round_at_least. lia.
Qed.

Lemma SFdiv_core_at_least mx ex my ey :
  (-1021 <= Zpos (digits2_pos mx) + ex - (Zpos (digits2_pos my) + ey))%Z ->
  (0 < (SFdiv_core_binary prec emax (Zpos mx) ex (Zpos my) ey).1.1)%Z
  /\ (Zpos (digits2_pos mx) + ex - (Zpos (digits2_pos my) + ey)
      <= Zdigits2 (SFdiv_core_binary prec emax (Zpos mx) ex (Zpos my) ey).1.1
         + (SFdiv_core_binary prec emax (Zpos mx) ex (Zpos my) ey).1.2)%Z.
Proof.
  intros Hd. unfold SFdiv_core_binary. cbv zeta.
  change (Zdigits2 (Zpos mx)) with (Zpos (digits2_pos mx)).
  change (Zdigits2 (Zpos my)) with (Zpos (digits2_pos my)).
  rewrite !fexp_spec.
  assert (Hx := digits2_bounds mx). assert (Hy := digits2_bounds my).
  set (dx := Zpos (digits2_pos mx)) in *. set (dy := Zpos (digits2_pos my)) in *.
  assert (Hdx : (1 <= dx)%Z) by (subst dx; lia).
  assert (Hdy : (1 <= dy)%Z) by (subst dy; lia).
  set (e' := Z.min (Z.max (dx + ex - (dy + ey) - 53) (-1074)) (ex - ey)).
  set (s := (ex - ey - e')%Z).
  assert (Hs : (52 <= dx - 1 + s - dy)%Z) by (subst s e'; lia).
  set (m' := match s with Zpos _ => Z.shiftl (Zpos mx) s | Z0 => Zpos mx | Zneg _ => 0%Z end).
  assert (Hm : (m' = Zpos mx * 2 ^ s)%Z).
  { subst m'. destruct s as [|p|p] eqn:Es; try lia. now rewrite Z.shiftl_mul_pow2. }
  set (k := (dx - 1 + s - dy)%Z) in *.
  assert (Hk : (2 ^ k * Zpos my <= m')%Z).
  { rewrite Hm. assert (E : (2 ^ (dx - 1) * 2 ^ s = 2 ^ k * 2 ^ dy)%Z).
    { rewrite <- !Z.pow_add_r by lia. f_equal. lia. }
    assert (0 < 2 ^ k)%Z by (apply Z.pow_pos_nonneg; lia).
    assert (0 < 2 ^ s)%Z by (apply Z.pow_pos_nonneg; lia).
    nia. }
  assert (Hq : (2 ^ k <= m' / Zpos my)%Z).
  { apply Z.div_le_lower_bound; lia. }
  unfold Z.div in Hq. destruct (Z.div_eucl m' (Zpos my)) as [q r]. cbn [fst snd].
  assert (0 < 2 ^ k)%Z by (apply Z.pow_pos_nonneg; lia).
  split; [lia|]. rewrite Zdigits2_log2 by lia.
  assert (k <= Z.log2 q)%Z by (apply Z.log2_le_pow2; lia).
  subst k s. lia.
Qed.

Lemma SFdiv_at_least s k x my ey :
  signed_at_least s k x -> (-1021 <= k - (Zpos (digits2_pos my) + ey))%Z ->
  signed_at_least s (k - (Zpos (digits2_pos my) + ey))
    (SFdiv prec emax x (S754_finite false my ey)).
Proof.
  destruct x as [sx|sx| |sx mx ex]; simpl; try contradiction.
  - intros -> _. now destruct s.
  - intros [-> Hk] Hd.
    destruct (SFdiv_core_at_least mx ex my ey ltac:(lia)) as [H1 H2].
    destruct (SFdiv_core_binary prec emax (Zpos mx) ex (Zpos my) ey) as [[mz ez] lz].
    simpl in H1, H2. replace (xorb s false) with s by (destruct s; reflexivity).
    apply (signed_at_least_weaken s (Zdigits2 mz + ez)); [lia|].
    apply binary_round_aux_at_least; lia.
Qed.

Lemma digits2_mul mx my :
  (Zpos (digits2_pos mx) + Zpos (digits2_pos my) - 1 <= Zpos (digits2_pos (mx * my)))%Z.
Proof.
  rewrite !digits2_log2, Pos2Z.inj_mul.
  assert (H := Z.log2_mul_below (Zpos mx) (Zpos my) ltac:(lia) ltac:(lia)). lia.
Qed.

Lemma SFmul_at_least s k x my ey :
  signed_at_least s k x -> (-1074 < k + (Zpos (digits2_pos my) + ey) - 1)%Z ->
  signed_at_least s (k + (Zpos (digits2_pos my) + ey) - 1)
    (SFmul prec emax x (S754_finite false my ey)).
Proof.
  destruct x as [sx|sx| |sx mx ex]; simpl; try contradiction.
  - intros -> _. now destruct s.
  - intros [-> Hk] Hd. replace (xorb s false) with s by (destruct s; reflexivity).
    assert (Hm := digits2_mul mx my).
    apply (signed_at_least_weaken s (Zdigits2 (Zpos (mx * my)) + (ex + ey))); [simpl; lia|].
    apply binary_round_aux_at_least; simpl; lia.
Qed.

(** ** The change *)

(** A number above zero and below infinity. *)
Lemma positive_finite (x : number) :
  lt 0 x = true -> lt x infinity = true ->
  exists m e, Prim2SF x = S754_finite false m e.
Proof.
  unfold lt. rewrite !ltb_spec.
  replace (Prim2SF 0) with (S754_zero false) by reflexivity.
  replace (Prim2SF infinity) with (S754_infinity false) by reflexivity.
  destruct (Prim2SF x) as [s|s| |s m e]; try destruct s; try discriminate; eauto.
Qed.

Lemma truthy_finite (x : number) m e :
  Prim2SF x = S754_finite false m e -> ToBoolean (VNumber x) = true.
Proof.
  intros E. simpl. apply andb_true_iff. split; apply negb_true_iff.
  - rewrite FloatAxioms.eqb_spec, E. reflexivity.
  - apply not_nan_spec. rewrite E. discriminate.
Qed.

(** The change as a [spec_float]. *)
Lemma change_spec (current previous : number) m e :
  Prim2SF previous = S754_finite false m e ->
  exists m' e',
    Prim2SF (calculateTvlChange current previous)
    = SFmul prec emax
        (SFdiv prec emax
           (SFsub prec emax (Prim2SF current) (S754_finite false m e))
           (S754_finite false m e))
        (S754_finite false m' e').
Proof.
  intros E. unfold calculateTvlChange. rewrite (truthy_finite _ _ _ E). simpl negb.
  cbv iota. rewrite mul_spec, div_spec, sub_spec, E.
  assert (H : exists m' e', Prim2SF 100 = S754_finite false m' e') by (vm_compute; eauto).
  destruct H as (m' & e' & ->). eauto.
Qed.

Lemma change_signed s (current previous : number) m e :
  Prim2SF previous = S754_finite false m e ->
  zero_or_signed s (SFsub prec emax (Prim2SF current) (S754_finite false m e)) ->
  zero_or_signed s (Prim2SF (calculateTvlChange current previous)).
Proof.
  intros E H. destruct (change_spec current previous m e E) as (m' & e' & ->).
  now apply SFmul_signed, SFdiv_signed.
Qed.

(** The text of a change that is a zero, and of one below zero. *)
Lemma percentage_zero (c : number) s :
  Prim2SF c = S754_zero s -> ge c 0 = true /\ formatNumber c percentage = "+0.00%".
Proof.
  intros E. assert (H : ge c 0 = true).
  { unfold ge. rewrite leb_spec, E. now destruct s. }
  split; [exact H|]. unfold formatNumber, toFixed. rewrite H, E. reflexivity.
Qed.

Lemma percentage_not_negative (c : number) :
  zero_or_signed false (Prim2SF c) ->
  ge c 0 = true /\ explicit_plus (formatNumber c percentage) = true.
Proof.
  intros Hc. assert (H : ge c 0 = true).
  { unfold ge. rewrite leb_spec. destruct (Prim2SF c) as [s|s| |s m e]; simpl in Hc;
      subst; try contradiction; try reflexivity; now destruct s. }
  split; [exact H|]. unfold formatNumber. now rewrite H.
Qed.

(** A fall is never rounded away: the change of a TVL below the previous
    one is below zero. *)
Lemma change_negative (current previous : number) m e :
  Prim2SF previous = S754_finite false m e ->
  SFltb (Prim2SF current) (S754_finite false m e) = true ->
  signed_at_least true (-47) (Prim2SF (calculateTvlChange current previous)).
Proof.
  intros E Hlt.
  assert (Vp : valid_binary (S754_finite false m e) = true).
  { rewrite <- E. apply Prim2SF_valid. }
  unfold calculateTvlChange. rewrite (truthy_finite _ _ _ E). simpl negb.
  cbv iota. rewrite mul_spec, div_spec, sub_spec, E.
  replace (Prim2SF 100) with (S754_finite false 7036874417766400 (-46)) by reflexivity.
  assert (Hs := SFsub_lt_strict _ m e (Prim2SF_valid current) Vp Hlt).
  simpl in Vp. destruct (bounded_spec _ _ Vp) as (_ & Hm & _).
  assert (Hd : (Zpos (digits2_pos m) <= 53)%Z).
  { assert (Hb := digits2_bounds m).
    destruct (Z.le_gt_cases (Zpos (digits2_pos m)) 53) as [H|H]; [exact H|].
    assert (2 ^ 53 <= 2 ^ (Zpos (digits2_pos m) - 1))%Z by (apply Z.pow_le_mono_r; lia).
    lia. }
  apply (signed_at_least_weaken true (e - (Zpos (digits2_pos m) + e) + 7 - 1)); [lia|].
  apply (SFmul_at_least true (e - (Zpos (digits2_pos m) + e)) _ 7036874417766400 (-46));
    [|simpl; lia].
  apply SFdiv_at_least; [exact Hs | lia].
Qed.

Lemma percentage_negative (c : number) k :
  signed_at_least true k (Prim2SF c) ->
  ge c 0 = false /\ explicit_minus (formatNumber c percentage) = true.
Proof.
  intros Hc. destruct (Prim2SF c) as [s|s| |s m e] eqn:E; simpl in Hc; try contradiction.
  - subst. assert (H : ge c 0 = false) by (unfold ge; now rewrite leb_spec, E).
    split; [exact H|]. unfold formatNumber, toFixed, Number_toString. now rewrite H, E.
  - destruct Hc as [-> _].
    assert (H : ge c 0 = false) by (unfold ge; now rewrite leb_spec, E).
    split; [exact H|]. unfold formatNumber, toFixed. now rewrite H, E.
Qed.

Lemma SFsub_eq x my ey :
  valid_binary x = true -> valid_binary (S754_finite false my ey) = true ->
  SFeqb x (S754_finite false my ey) = true ->
  SFsub prec emax x (S754_finite false my ey) = S754_zero false.
Proof.
  intros Vx Vy Heq.
  destruct x as [sx|sx| |sx mx ex]; try (destruct sx); try discriminate.
  simpl in Vx, Vy. unfold SFsub.
  assert (Hc := aligned_compare mx ex my ey Vx Vy).
  set (zx := Zpos (shl_align mx ex (Z.min ex ey)).1) in *.
  set (zy := Zpos (shl_align my ey (Z.min ex ey)).1) in *.
  unfold SFeqb, SFcompare in Heq. rewrite Hc in Heq. simpl cond_Zopp.
  replace (zx - zy)%Z with 0%Z; [reflexivity|].
  destruct (Z.compare_spec zx zy); try discriminate; lia.
Qed.

(** X13.  For a TVL of the previous day above zero and below infinity,
    the cell of the change shows the direction of the change: a TVL
    that is not below it is shown in green with a leading ["+"], an
    equal TVL as ["+0.00%"], and a TVL below it, by however little, in
    red with a leading ["-"]. *)
Theorem tvl_change_direction (tvl tvlPrevDay : number) :
  lt 0 tvlPrevDay = true -> lt tvlPrevDay infinity = true ->
  (ge tvl tvlPrevDay = true ->
     className (tvlChange_cell tvl tvlPrevDay) = green
     /\ explicit_plus (children (tvlChange_cell tvl tvlPrevDay)) = true)
  /\ ((tvl =? tvlPrevDay) = true ->
        children (tvlChange_cell tvl tvlPrevDay) = "+0.00%")
  /\ (lt tvl tvlPrevDay = true ->
        className (tvlChange_cell tvl tvlPrevDay) = red
        /\ explicit_minus (children (tvlChange_cell tvl tvlPrevDay)) = true).
Proof.
  intros Hpos Hfin. destruct (positive_finite _ Hpos Hfin) as (m & e & E).
  assert (Vp : valid_binary (S754_finite false m e) = true).
  { rewrite <- E. apply Prim2SF_valid. }
  unfold tvlChange_cell. cbn [className children]. split; [|split].
  - intros Hge. unfold ge in Hge. rewrite leb_spec, E in Hge.
    destruct (percentage_not_negative (calculateTvlChange tvl tvlPrevDay)) as [H1 H2].
    { apply (change_signed false _ _ m e E).
      apply SFsub_ge; [apply Prim2SF_valid | exact Vp | exact Hge]. }
    rewrite H1. split; [reflexivity | exact H2].
  - intros Heq. rewrite FloatAxioms.eqb_spec, E in Heq.
    destruct (change_spec tvl tvlPrevDay m e E) as (m' & e' & Hc).
    rewrite (SFsub_eq _ _ _ (Prim2SF_valid tvl) Vp Heq) in Hc. simpl in Hc.
    exact (proj2 (percentage_zero _ _ Hc)).
  - intros Hlt. unfold lt in Hlt. rewrite ltb_spec, E in Hlt.
    destruct (percentage_negative _ _ (change_negative tvl tvlPrevDay m e E Hlt)) as [H1 H2].
    rewrite H1. split; [reflexivity | exact H2].
Qed.

Lemma tvl_change_direction_witness :
  className (tvlChange_cell 105 100) = green
  /\ explicit_plus (children (tvlChange_cell 105 100)) = true.
Proof.
  exact (proj1 (tvl_change_direction 105 100 eq_refl eq_refl) eq_refl).
Defined.

End Change.


(* ===================================================================== *)
(** * The offer with the best rate                                       *)
(* ===================================================================== *)

Section BestRate.
Import TokenCard.
#[local] Open Scope float_scope.

Lemma eqb_compare (x y : number) :
  (x =? y) = true <-> SFcompare (Prim2SF x) (Prim2SF y) = Some Eq.
Proof.
  rewrite FloatAxioms.eqb_spec. unfold SFeqb.
  destruct (SFcompare _ _) as [[]|]; split; congruence.
Qed.

Lemma ltb_compare (x y : number) :
  (x <? y) = true <-> SFcompare (Prim2SF x) (Prim2SF y) = Some Lt.
Proof.
  rewrite ltb_spec. unfold SFltb.
  destruct (SFcompare _ _) as [[]|]; split; congruence.
Qed.

(** A number below another one is not equal to what the other one is
    equal to. *)
Lemma lt_eqb (y x f : number) : (y <? x) = true -> (y =? f) = true -> (x =? f) = false.
Proof.
  rewrite ltb_compare, eqb_compare. intros Hlt Heq.
  destruct (x =? f) eqn:E; [|reflexivity]. apply eqb_compare in E.
  apply SFcompare_swap in E. simpl in E.
  rewrite (SFcompare_Eq_trans _ _ _ Heq E) in Hlt. discriminate.
Qed.

Lemma le_neq_lt (b p : number) : (b <=? p) = true -> (p =? b) = false -> (b <? p) = true.
Proof.
  rewrite leb_spec, FloatAxioms.eqb_spec, ltb_spec. unfold SFleb, SFeqb, SFltb.
  destruct (SFcompare (Prim2SF b) (Prim2SF p)) as [c|] eqn:E; [|discriminate].
  rewrite (SFcompare_swap _ _ _ E). destruct c; simpl; congruence.
Qed.

Lemma number_eqb_refl (x : number) : is_nan x = false -> (x =? x) = true.
Proof.
  intros H. apply eqb_compare. apply not_nan_spec in H.
  destruct (SFcompare_refl (Prim2SF x)) as [E|E]; [exact E|].
  destruct (SFcompare_total _ _ H H) as [c Hc]. congruence.
Qed.

(** ** [sort] keeps offers of the same fee in their order *)

Lemma insert_same_fee f x l l' :
  is_nan (fee x) = false -> valid_fees l ->
  insert by_fee x l = Ok l' ->
  List.filter (same_fee f) l' = List.filter (same_fee f) (x :: l).
Proof.
  intros Nx Hl. revert l'. induction Hl as [|y l Ny _ IH]; simpl; intros l' H.
  - injection H as <-. reflexivity.
  - unfold SortCompare, by_fee in H. simpl in H.
    rewrite (difference_sign _ _ Nx Ny) in H.
    change (fun a b : Platform => Ok (fee a - fee b)) with by_fee in H.
    destruct (fee y <? fee x) eqn:E.
    + destruct (insert by_fee x l) as [r|]; simpl in H; [|discriminate].
      injection H as <-. simpl. rewrite (IH r eq_refl). simpl.
      destruct (same_fee f y) eqn:Ey; [|reflexivity].
      unfold same_fee in *. now rewrite (lt_eqb _ _ _ E Ey).
    + injection H as <-. reflexivity.
Qed.

Lemma sort_same_fee f offers sorted :
  valid_fees offers -> sort by_fee offers = Ok sorted ->
  List.filter (same_fee f) sorted = List.filter (same_fee f) offers.
Proof.
  intros Hl. revert sorted. induction Hl as [|x l Nx Hl IH]; simpl; intros sorted H.
  - injection H as <-. reflexivity.
  - destruct (sort by_fee l) as [s|] eqn:Es; simpl in H; [|discriminate].
    rewrite (insert_same_fee f x s sorted Nx); [| |exact H].
    + simpl. now rewrite (IH s eq_refl).
    + unfold valid_fees. rewrite <- (sort_perm _ _ _ Es). exact Hl.
Qed.

Lemma filter_head {A} (g : A -> bool) l b t :
  List.filter g l = b :: t ->
  exists before after, l = (before ++ b :: after)%list
                       /\ Forall (fun p => g p = false) before.
Proof.
  induction l as [|x l IH]; simpl; [discriminate|].
  destruct (g x) eqn:E.
  - intros [= -> _]. exists [], l. split; [reflexivity | constructor].
  - intros H. destruct (IH H) as (before & after & -> & Hb).
    exists (x :: before), after. split; [reflexivity | now constructor].
Qed.

(** X14.  For offers whose fees are numbers other than NaN the sort of
    the card is stable: offers of the same fee keep the order they have
    in the token.  The first offer of the sorted list, the one marked
    "Best Rate", has a fee no offer is below, and among the offers of
    that fee it is the one listed first: every offer before it in the
    token has a higher fee. *)
Theorem best_rate_is_first_lowest (token : StakingToken)
    (τ : gmap loc (list Platform)) (offers : list Platform) :
  τ !! platforms token = Some offers ->
  valid_fees offers ->
  exists copy τ' sorted,
    sortedPlatforms token τ = (Ok copy, τ')
    /\ τ' !! copy = Some sorted
    /\ (forall f, List.filter (same_fee f) sorted = List.filter (same_fee f) offers)
    /\ (forall best rest, sorted = best :: rest ->
          Forall (fee_at_most best) offers
          /\ exists before after,
               offers = (before ++ best :: after)%list
               /\ Forall (fun p => (fee best <? fee p) = true) before).
Proof.
  intros Ha Hvalid.
  destruct (sortedPlatforms token τ) as [r τ'] eqn:E.
  destruct (sortedPlatforms_copy token τ offers r τ' Ha E)
    as (_ & copy & sorted & -> & _ & Hs & Hl & Hp).
  destruct (sort_sorted by_fee (fun p => is_nan (fee p) = false) fee_at_most) with (l := offers)
    as (sorted' & Hs' & _ & Hsorted); [| exact by_fee_decides | exact Hvalid |].
  { intros x y z _ _ _. apply fee_at_most_trans. }
  assert (sorted' = sorted) by congruence. subst sorted'.
  assert (Hstable := fun f => sort_same_fee f offers sorted Hvalid Hs).
  exists copy, τ', sorted. split; [reflexivity|]. split; [exact Hl|]. split; [exact Hstable|].
  intros best rest ->.
  assert (Nb : is_nan (fee best) = false).
  { assert (H : valid_fees (best :: rest)) by (unfold valid_fees; now rewrite <- Hp).
    now inversion H. }
  assert (Hmin : Forall (fee_at_most best) offers).
  { rewrite Hp. inversion Hsorted as [|? ? _ Hall]; subst. constructor; [|exact Hall].
    unfold fee_at_most. apply not_lt_ge; try assumption. apply ltb_irrefl. }
  split; [exact Hmin|].
  specialize (Hstable (fee best)). simpl in Hstable.
  unfold same_fee at 1 in Hstable. rewrite (number_eqb_refl _ Nb) in Hstable.
  symmetry in Hstable. apply filter_head in Hstable as (before & after & -> & Hb).
  exists before, after. split; [reflexivity|].
  apply Forall_app in Hmin as [Hmin _].
  rewrite Forall_forall in *. intros p Hp'.
  apply le_neq_lt; [exact (Hmin p Hp') | exact (Hb p Hp')].
Qed.

Lemma best_rate_is_first_lowest_witness :
  exists copy τ' sorted,
    sortedPlatforms (token_with 1%positive)
      {[ 1%positive := [offer "A" 2; offer "B" 1; offer "C" 1] ]} = (Ok copy, τ')
    /\ τ' !! copy = Some sorted
    /\ List.filter (same_fee 1) sorted = [offer "B" 1; offer "C" 1].
Proof.
  destruct (best_rate_is_first_lowest (token_with 1%positive)
              {[ 1%positive := [offer "A" 2; offer "B" 1; offer "C" 1] ]}
              [offer "A" 2; offer "B" 1; offer "C" 1])
    as (copy & τ' & sorted & E & Hl & Hstable & _).
  { reflexivity. }
  { repeat constructor. }
  exists copy, τ', sorted. split; [exact E|]. split; [exact Hl|].
  rewrite Hstable. reflexivity.
Defined.

End BestRate.

(* ===================================================================== *)
(** * What a formatted number denotes                                    *)
(* ===================================================================== *)

Section Rounding.

(** ** Reading the digits back *)

Lemma number_of_app a b acc :
  number_of acc (a ++ b) = match number_of acc a with
                           | Some v => number_of v b
                           | None => None
                           end.
Proof.
  revert acc. induction a as [|c a IH]; intros acc; simpl; [reflexivity|].
  destruct (digit c); [apply IH | reflexivity].
Qed.

Lemma number_of_zeros k s : number_of 0 (zeros k ++ s) = number_of 0 s.
Proof. induction k as [|k IH]; simpl; [reflexivity | exact IH]. Qed.

Lemma number_of_uint_acc d : forall acc,
  number_of (Zpos acc) (NilEmpty.string_of_uint d) = Some (Zpos (Pos.of_uint_acc d acc)).
Proof.
  induction d as [|d IH|d IH|d IH|d IH|d IH|d IH|d IH|d IH|d IH|d IH]; intros acc;
    [reflexivity|..];
    cbn [NilEmpty.string_of_uint number_of Pos.of_uint_acc];
    match goal with |- context [digit ?c] => change (digit c) with (Some (Z.of_N (N_of_ascii c) - 48)%Z) end;
    cbv beta iota; rewrite <- IH; f_equal; simpl; lia.
Qed.

Lemma number_of_uint d :
  number_of 0 (NilEmpty.string_of_uint d) = Some (Z.of_N (Pos.of_uint d)).
Proof.
  induction d as [|d IH|d IH|d IH|d IH|d IH|d IH|d IH|d IH|d IH|d IH];
    [reflexivity | exact IH | ..];
    cbn [NilEmpty.string_of_uint number_of Pos.of_uint];
    match goal with |- context [digit ?c] => change (digit c) with (Some (Z.of_N (N_of_ascii c) - 48)%Z) end;
    cbv beta iota; simpl Z.add; apply number_of_uint_acc.
Qed.

Lemma number_of_decimal n : (0 <= n)%Z -> number_of 0 (decimal n) = Some n.
Proof.
  intros Hn. unfold decimal, NilZero.string_of_uint.
  assert (H := number_of_uint (N.to_uint (Z.to_N n))).
  change (Pos.of_uint (N.to_uint (Z.to_N n))) with (N.of_uint (N.to_uint (Z.to_N n))) in H.
  rewrite DecimalN.Unsigned.of_to, Z2N.id in H by exact Hn.
  destruct (N.to_uint (Z.to_N n)); exact H.
Qed.


Lemma digit_not_point c d : digit c = Some d -> Ascii.eqb c "." = false /\ Ascii.eqb c "-" = false.
Proof.
  intros H. split.
  - destruct (Ascii.eqb_spec c "."); [subst; discriminate | reflexivity].
  - destruct (Ascii.eqb_spec c "-"); [subst; discriminate | reflexivity].
Qed.

Lemma fixed_value_digits a : forall point acc v rest,
  number_of acc a = Some v ->
  fixed_value point acc (a ++ rest)
  = fixed_value (option_map (Nat.add (String.length a)) point) v rest.
Proof.
  induction a as [|c a IH]; intros point acc v rest; simpl.
  - intros [= <-]. now destruct point.
  - destruct (digit c) as [d|] eqn:Hd; [|discriminate].
    destruct (digit_not_point c d Hd) as [-> _]. intros H.
    rewrite (IH _ _ _ _ H). f_equal. destruct point; simpl; [f_equal; lia | reflexivity].
Qed.

Lemma append_empty (s : string) : s ++ "" = s.
Proof.
  induction s as [|c s IH]; [reflexivity|].
  change (String c (s ++ "") = String c s). now rewrite IH.
Qed.

Lemma substring_all s : substring 0 (String.length s) s = s.
Proof. induction s as [|c s IH]; simpl; [reflexivity | now rewrite IH]. Qed.

Lemma substring_split a : forall s b,
  a + b = String.length s -> substring 0 a s ++ substring a b s = s.
Proof.
  induction a as [|a IH]; intros s b H.
  - simpl in H. subst b. destruct s; simpl; [reflexivity|]. now rewrite substring_all.
  - destruct s as [|c s]; [simpl in H; lia|]. simpl in H.
    change (String c (substring 0 a s ++ substring a b s) = String c s).
    f_equal. apply IH. lia.
Qed.

(** A number printed with [f] digits after the point reads back as
    itself. *)
Lemma decimal_of_fixed_point n f :
  (0 <= n)%Z ->
  decimal_of (fixed_point n (S f)) = Some (false, n, S f)
  /\ decimal_of ("-" ++ fixed_point n (S f)) = Some (true, n, S f).
Proof.
  intros Hn. unfold fixed_point.
  set (m := zeros (S (S f) - String.length (decimal n)) ++ decimal n).
  assert (Hm : number_of 0 m = Some n).
  { subst m. rewrite number_of_zeros. now apply number_of_decimal. }
  assert (Hl : S (S f) <= String.length m).
  { subst m. rewrite length_append, length_zeros. lia. }
  set (a := String.length m - S f).
  assert (Hs := substring_split a m (S f) ltac:(lia)).
  set (s1 := substring 0 a m) in *. set (s2 := substring a (S f) m) in *.
  assert (H2 : String.length s2 = S f) by (apply length_substring; lia).
  assert (H1 : String.length s1 = a) by (apply length_substring; lia).
  rewrite <- Hs, number_of_app in Hm.
  destruct (number_of 0 s1) as [v1|] eqn:Hv1; [|discriminate].
  assert (Hv : fixed_value None 0 (s1 ++ "." ++ s2) = Some (n, S f)).
  { rewrite (fixed_value_digits s1 None 0 v1 _ Hv1). simpl.
    change ("" ++ s2) with s2. rewrite <- (append_empty s2) at 1.
    rewrite (fixed_value_digits s2 (Some 0) v1 n "" Hm). simpl.
    rewrite H2. simpl. now rewrite Nat.add_0_r. }
  destruct s1 as [|c r]; [simpl in H1; lia|].
  simpl in Hv1. destruct (digit c) as [d|] eqn:Hd; [|discriminate].
  destruct (digit_not_point c d Hd) as [Hp Hmin].
  change (String c r ++ "." ++ s2) with (String c (r ++ "." ++ s2)) in *.
  set (t := r ++ "." ++ s2) in *.
  split.
  - unfold decimal_of. cbv beta iota. rewrite Hmin. cbv beta iota.
    rewrite Hp, Hv. reflexivity.
  - change ("-" ++ String c t) with (String "-" (String c t)).
    unfold decimal_of. cbv beta iota.
    change (Ascii.eqb "-" "-") with true. cbv beta iota.
    rewrite Hp, Hv. reflexivity.
Qed.

(** ** The nearest decimal *)

Lemma scaled_round_nearest m e f :
  (0 <= scaled_round m e f)%Z /\ nearest (scaled_round m e f) f m e.
Proof.
  unfold scaled_round, nearest.
  set (p := (Zpos m * 10 ^ Z.of_nat f)%Z).
  assert (Hp : (0 < p)%Z) by (subst p; apply Z.mul_pos_pos; [lia | apply Z.pow_pos_nonneg; lia]).
  destruct (Z.leb_spec 0 e) as [He|He].
  - rewrite Z.max_l, Z.max_r by lia. simpl (2 ^ 0)%Z.
    assert (0 < 2 ^ e)%Z by (apply Z.pow_pos_nonneg; lia). split; nia.
  - rewrite Z.max_r, Z.max_l by lia. simpl (2 ^ 0)%Z.
    replace (2 ^ (1 - e))%Z with (2 * 2 ^ (- e))%Z
      by (rewrite <- Z.pow_succ_r by lia; f_equal; lia).
    set (d := (2 ^ (- e))%Z).
    assert (Hd : (0 < d)%Z) by (subst d; apply Z.pow_pos_nonneg; lia).
    assert (Hdiv := Z.div_mod (2 * p + d) (2 * d) ltac:(lia)).
    assert (Hmod := Z.mod_pos_bound (2 * p + d) (2 * d) ltac:(lia)).
    set (n := ((2 * p + d) / (2 * d))%Z) in *.
    split; [|split]; nia.
Qed.


(** What [toFixed] prints for a number other than NaN and below 1e21
    in magnitude. *)
Lemma toFixed_rounds (x : number) (f : nat) :
  is_nan x = false -> (1e21 <=? abs x)%float = false ->
  exists d, decimal_of (toFixed x (S f)) = Some d /\ rounds_to x (S f) d.
Proof.
  intros Hnan Hbig. unfold toFixed, rounds_to.
  destruct (Prim2SF x) as [s|s| |s m e] eqn:E.
  - eexists. split; [exact (proj1 (decimal_of_fixed_point 0 f ltac:(lia))) | reflexivity].
  - exfalso. revert Hbig. rewrite leb_spec, abs_spec, E. destruct s; vm_compute; discriminate.
  - exfalso. apply is_nan_spec in E. congruence.
  - rewrite Hbig. destruct (scaled_round_nearest m e (S f)) as [Hn Hnear].
    destruct (decimal_of_fixed_point _ f Hn) as [Hplus Hminus].
    destruct s; eexists; (split; [eassumption | eauto]).
Qed.

Lemma toFixed_to_two_decimals (x : number) :
  is_nan x = false -> (1e21 <=? abs x)%float = false -> to_two_decimals x (toFixed x 2).
Proof.
  intros Hnan Hbig. split; [now apply toFixed_two_decimals | now apply toFixed_rounds].
Qed.

(** X15.  For a number other than NaN, below 1e21 in magnitude, and
    between 1 and 100 decimals, [formatNumber] of the card returns a
    string in fixed notation (an optional ["-"], digits, a point and
    that many digits) which denotes the number rounded to that many
    decimals: 0 for a zero, and otherwise the decimal nearest to the
    magnitude of the number, the larger one of two, with the sign of
    the number. *)
Theorem formatNumber_rounds (x : number) (decimals : nat) :
  1 <= decimals <= 100 ->
  is_nan x = false -> (1e21 <=? abs x)%float = false ->
  exists d, decimal_of (TokenCard.formatNumber (Some x) decimals) = Some d
            /\ rounds_to x decimals d.
Proof.
  intros [Hd _] Hnan Hbig. destruct decimals as [|f]; [lia|].
  unfold TokenCard.formatNumber, toFixed, rounds_to.
  destruct (Prim2SF x) as [s|s| |s m e] eqn:E.
  - eexists. split; [exact (proj1 (decimal_of_fixed_point 0 f ltac:(lia))) | reflexivity].
  - exfalso. revert Hbig. rewrite leb_spec, abs_spec, E. destruct s; vm_compute; discriminate.
  - exfalso. apply is_nan_spec in E. congruence.
  - rewrite Hbig. destruct (scaled_round_nearest m e (S f)) as [Hn Hnear].
    destruct (decimal_of_fixed_point _ f Hn) as [Hplus Hminus].
    destruct s.
    + eexists. split; [exact Hminus | eauto].
    + eexists. split; [exact Hplus | eauto].
Qed.

Lemma formatNumber_rounds_witness :
  exists d, decimal_of (TokenCard.formatNumber (Some 1.005%float) 2) = Some d
            /\ rounds_to 1.005%float 2 d.
Proof.
  apply (formatNumber_rounds 1.005%float 2); [lia | reflexivity | reflexivity].
Defined.

End Rounding.

(* ===================================================================== *)
(** * Amounts and percentages in fixed notation                          *)
(* ===================================================================== *)

Section Range.
#[local] Open Scope float_scope.

(** ** The magnitude of a quotient *)

Lemma shr_fexp_exponent m e l :
  (shr_fexp prec emax m e l).2 = Z.max e (Z.max (Zdigits2 m + e - 53) (-1074)).
Proof.
  unfold shr_fexp, shr. rewrite fexp_spec.
  destruct (Z.max (Zdigits2 m + e - 53) (-1074) - e)%Z eqn:E; simpl; lia.
Qed.

Lemma Zdigits2_succ m : (0 < m)%Z -> (Zdigits2 (m + 1) <= Zdigits2 m + 1)%Z.
Proof.
  intros H. rewrite !Zdigits2_log2 by lia. replace (m + 1)%Z with (Z.succ m) by lia.
  assert (Z.log2 (Z.succ m) <= Z.succ (Z.log2 m))%Z by apply Z.log2_succ_le. lia.
Qed.

(** Rounding a mantissa in range gives a finite number of the same
    magnitude, or of the next one. *)
Lemma binary_round_aux_magnitude s m e l :
  (0 < m)%Z -> (-1074 < Zdigits2 m + e)%Z -> (Zdigits2 m + e < 1024)%Z -> (e <= 971)%Z ->
  exists m' e', binary_round_aux prec emax s m e l = S754_finite s m' e'
    /\ (Zdigits2 m + e <= Zpos (digits2_pos m') + e' <= Zdigits2 m + e + 1)%Z.
Proof.
  intros Hm Hlo Hhi He. unfold binary_round_aux.
  destruct (shr_fexp_magnitude m e l Hm Hlo) as [H1 H2].
  assert (E1 := shr_fexp_exponent m e l).
  destruct (shr_fexp prec emax m e l) as [mrs' e']. simpl in H1, H2, E1.
  assert (Hr := round_nearest_even_bounds (shr_m mrs') (loc_of_shr_record mrs')).
  set (m1 := round_nearest_even (shr_m mrs') (loc_of_shr_record mrs')) in *.
  assert (Hd1 : (Zdigits2 (shr_m mrs') <= Zdigits2 m1 <= Zdigits2 (shr_m mrs') + 1)%Z).
  { split; [apply Zdigits2_mono; lia|].
    transitivity (Zdigits2 (shr_m mrs' + 1)); [apply Zdigits2_mono; lia | apply Zdigits2_succ; lia]. }
  destruct (shr_fexp_magnitude m1 e' loc_Exact ltac:(lia) ltac:(lia)) as [H3 H4].
  assert (E2 := shr_fexp_exponent m1 e' loc_Exact).
  destruct (shr_fexp prec emax m1 e' loc_Exact) as [mrs'' e'']. simpl in H3, H4, E2.
  destruct (shr_m mrs'') as [|m''|m'']; try lia.
  replace (emax - prec)%Z with 971%Z by reflexivity.
  destruct (Z.leb_spec e'' 971); [|lia].
  exists m'', e''. split; [reflexivity|]. simpl in H4. lia.
Qed.

Lemma SFdiv_core_at_most mx ex my ey :
  ((0 < (SFdiv_core_binary prec emax (Zpos mx) ex (Zpos my) ey).1.1)%Z ->
     (Zdigits2 (SFdiv_core_binary prec emax (Zpos mx) ex (Zpos my) ey).1.1
      + (SFdiv_core_binary prec emax (Zpos mx) ex (Zpos my) ey).1.2
      <= Zpos (digits2_pos mx) + ex - (Zpos (digits2_pos my) + ey) + 1)%Z)
  /\ ((SFdiv_core_binary prec emax (Zpos mx) ex (Zpos my) ey).1.2
      <= Z.max (Zpos (digits2_pos mx) + ex - (Zpos (digits2_pos my) + ey) - 53) (-1074))%Z.
Proof.
  unfold SFdiv_core_binary. cbv zeta.
  change (Zdigits2 (Zpos mx)) with (Zpos (digits2_pos mx)).
  change (Zdigits2 (Zpos my)) with (Zpos (digits2_pos my)).
  rewrite !fexp_spec.
  assert (Hx := digits2_bounds mx). assert (Hy := digits2_bounds my).
  set (dx := Zpos (digits2_pos mx)) in *. set (dy := Zpos (digits2_pos my)) in *.
  assert (Hdx : (1 <= dx)%Z) by (subst dx; lia).
  assert (Hdy : (1 <= dy)%Z) by (subst dy; lia).
  set (e' := Z.min (Z.max (dx + ex - (dy + ey) - 53) (-1074)) (ex - ey)).
  set (s := (ex - ey - e')%Z).
  assert (Hs : (0 <= s)%Z) by (subst s e'; lia).
  set (m' := match s with Zpos _ => Z.shiftl (Zpos mx) s | Z0 => Zpos mx | Zneg _ => 0%Z end).
  assert (Hm : (m' = Zpos mx * 2 ^ s)%Z).
  { subst m'. destruct s as [|p|p] eqn:Es; try lia. now rewrite Z.shiftl_mul_pow2. }
  assert (Hq := Z.mul_div_le m' (Zpos my) ltac:(lia)).
  unfold Z.div in Hq. destruct (Z.div_eucl m' (Zpos my)) as [q r]. cbn [fst snd] in *.
  split; [|subst e'; lia].
  intros Hpos. rewrite Zdigits2_log2 by exact Hpos.
  assert (Hl := Z.log2_spec q Hpos).
  assert (H2s : (0 < 2 ^ s)%Z) by (apply Z.pow_pos_nonneg; lia).
  assert (Hlog := Z.log2_nonneg q).
  assert (Hlt : (2 ^ (Z.log2 q + (dy - 1)) < 2 ^ (dx + s))%Z).
  { rewrite !Z.pow_add_r by lia.
    assert (0 < 2 ^ Z.log2 q)%Z by (apply Z.pow_pos_nonneg; lia).
    assert (0 < 2 ^ (dy - 1))%Z by (apply Z.pow_pos_nonneg; lia).
    nia. }
  apply Z.pow_lt_mono_r_iff in Hlt; subst s; lia.
Qed.

Lemma SFdiv_magnitude s mx ex my ey :
  (-1021 <= Zpos (digits2_pos mx) + ex - (Zpos (digits2_pos my) + ey) <= 1021)%Z ->
  exists m e,
    SFdiv prec emax (S754_finite s mx ex) (S754_finite false my ey) = S754_finite s m e
    /\ (Zpos (digits2_pos m) + e
        <= Zpos (digits2_pos mx) + ex - (Zpos (digits2_pos my) + ey) + 2)%Z.
Proof.
  intros Hd. simpl.
  destruct (SFdiv_core_at_least mx ex my ey ltac:(lia)) as [H1 H2].
  destruct (SFdiv_core_at_most mx ex my ey) as [H3 H4]. specialize (H3 H1).
  destruct (SFdiv_core_binary prec emax (Zpos mx) ex (Zpos my) ey) as [[mz ez] lz].
  cbn [fst snd] in *. replace (xorb s false) with s by (destruct s; reflexivity).
  destruct (binary_round_aux_magnitude s mz ez lz) as (m & e & -> & Hm); try lia.
  exists m, e. split; [reflexivity | lia].
Qed.

Lemma digits2_normal m e :
  bounded prec emax m e = true -> (-1074 < e)%Z -> Zpos (digits2_pos m) = 53%Z.
Proof.
  intros H He. destruct (bounded_spec _ _ H) as (_ & Hm & Hn). specialize (Hn He).
  assert (Hb := digits2_bounds m). set (d := Zpos (digits2_pos m)) in *.
  assert (d - 1 < 53)%Z by (apply (Z.pow_lt_mono_r_iff 2); lia).
  assert (52 < d)%Z by (apply (Z.pow_lt_mono_r_iff 2); lia).
  lia.
Qed.

(** The quotient of a number of a tier by the lower end of the tier. *)
Lemma tier_quotient (v c hi : number) mc ec mh eh :
  Prim2SF c = S754_finite false mc ec -> (-1074 < ec)%Z ->
  Prim2SF hi = S754_finite false mh eh -> (eh <= ec + 1021)%Z ->
  ge v c = true -> lt v hi = true ->
  exists m e, Prim2SF (v / c) = S754_finite false m e
              /\ (Zpos (digits2_pos m) + e <= eh - ec + 2)%Z.
Proof.
  intros Ec Hc Eh Hh Hge Hlt.
  assert (Vv := Prim2SF_valid v). assert (Vc := Prim2SF_valid c). rewrite Ec in Vc.
  unfold ge, lt in *. rewrite leb_spec, Ec in Hge. rewrite ltb_spec, Eh in Hlt.
  rewrite div_spec, Ec. unfold SF64div.
  destruct (Prim2SF v) as [sv|sv| |sv mv ev]; try (destruct sv); try discriminate.
  unfold SFleb, SFcompare in Hge. unfold SFltb, SFcompare in Hlt.
  assert (H1 : (ec <= ev)%Z) by (destruct (Z.compare_spec ec ev); try discriminate; lia).
  assert (H2 : (ev <= eh)%Z) by (destruct (Z.compare_spec ev eh); try discriminate; lia).
  simpl in Vv, Vc.
  assert (Dv := digits2_normal _ _ Vv ltac:(lia)). assert (Dc := digits2_normal _ _ Vc Hc).
  destruct (SFdiv_magnitude false mv ev mc ec ltac:(lia)) as (m & e & -> & Hm).
  exists m, e. split; [reflexivity | lia].
Qed.

(** ** Numbers that [toFixed] prints in fixed notation *)

Lemma magnitude_in_range (q : number) s m e :
  Prim2SF q = S754_finite s m e -> (Zpos (digits2_pos m) + e <= 69)%Z ->
  is_nan q = false /\ (1e21 <=? abs q) = false.
Proof.
  intros E H. split; [apply not_nan_spec; rewrite E; discriminate|].
  assert (V := Prim2SF_valid q). rewrite E in V. simpl in V.
  assert (He : (e < 17)%Z).
  { destruct (Z.le_gt_cases e (-1074)) as [Hs|Hn]; [lia|].
    assert (D := digits2_normal _ _ V Hn). lia. }
  rewrite leb_spec, abs_spec, E.
  replace (Prim2SF 1e21) with (S754_finite false 7629394531250000 17) by reflexivity.
  unfold SFabs, SFleb, SFcompare.
  destruct (Z.compare_spec 17 e); reflexivity || lia.
Qed.

Lemma magnitude_below (q : number) m e :
  Prim2SF q = S754_finite false m e -> (Zpos (digits2_pos m) + e <= 69)%Z ->
  lt q 1e21 = true.
Proof.
  intros E H.
  assert (V := Prim2SF_valid q). rewrite E in V. simpl in V.
  assert (He : (e < 17)%Z).
  { destruct (Z.le_gt_cases e (-1074)) as [Hs|Hn]; [lia|].
    assert (D := digits2_normal _ _ V Hn). lia. }
  unfold lt. rewrite ltb_spec, E.
  replace (Prim2SF 1e21) with (S754_finite false 7629394531250000 17) by reflexivity.
  unfold SFltb, SFcompare.
  destruct (Z.compare_spec e 17); reflexivity || lia.
Qed.

Lemma at_least_not_negative (v c : number) mc ec :
  Prim2SF c = S754_finite false mc ec -> ge v c = true -> zero_or_signed false (Prim2SF v).
Proof.
  intros Ec. unfold ge. rewrite leb_spec, Ec.
  destruct (Prim2SF v) as [sv|sv| |sv mv ev]; try (destruct sv); try discriminate; reflexivity.
Qed.

Lemma not_negative_in_range (q : number) :
  zero_or_signed false (Prim2SF q) -> lt q 1e21 = true ->
  is_nan q = false /\ (1e21 <=? abs q) = false.
Proof.
  intros Hs Hlt. assert (Hge := lt_not_ge _ _ Hlt). unfold ge in Hge.
  rewrite leb_spec in Hge. unfold lt in Hlt. rewrite ltb_spec in Hlt.
  split; [apply not_nan_spec; intros E; rewrite E in Hs; exact Hs|].
  rewrite leb_spec, abs_spec.
  destruct (Prim2SF q) as [s|s| |s m e]; simpl in Hs; subst; try contradiction.
  - reflexivity.
  - discriminate Hlt.
  - exact Hge.
Qed.

(** ** Texts without a point *)

Lemma dotted_append a b : dotted (a ++ b) = (dotted a || dotted b)%bool.
Proof.
  unfold dotted. induction a as [|c a IH]; [reflexivity|].
  change (String c a ++ b) with (String c (a ++ b)). simpl. rewrite IH.
  now rewrite orb_assoc.
Qed.

Lemma two_decimals_dotted s : two_decimals s -> dotted s = true.
Proof.
  intros (a & b & -> & _). rewrite dotted_append. apply orb_true_iff. right. reflexivity.
Qed.

Lemma toFixed_negative (v : number) f : lt v 0 = true -> explicit_minus (toFixed v f) = true.
Proof.
  unfold lt. rewrite ltb_spec. unfold toFixed, Number_toString.
  destruct (Prim2SF v) as [s|s| |s m e]; try destruct s; try discriminate; reflexivity.
Qed.

(** ** The tier of an amount *)

Lemma tier_B (v : number) :
  ge v 1e9 = true ->
  TokenCard.formatCurrency (Some v) = "$" ++ toFixed (v / 1e9) 2 ++ "B".
Proof. unfold TokenCard.formatCurrency. now intros ->. Qed.

Lemma tier_M (v : number) :
  ge v 1e6 = true -> lt v 1e9 = true ->
  TokenCard.formatCurrency (Some v) = "$" ++ toFixed (v / 1e6) 2 ++ "M".
Proof.
  unfold TokenCard.formatCurrency. intros H1 H2. now rewrite (lt_not_ge _ _ H2), H1.
Qed.

Lemma tier_K (v : number) :
  ge v 1e3 = true -> lt v 1e6 = true ->
  TokenCard.formatCurrency (Some v) = "$" ++ toFixed (v / 1e3) 2 ++ "K".
Proof.
  unfold TokenCard.formatCurrency. intros H1 H2.
  assert (H3 : lt v 1e9 = true) by (apply (lt_trans v 1e6 1e9); [exact H2 | reflexivity]).
  now rewrite (lt_not_ge _ _ H3), (lt_not_ge _ _ H2), H1.
Qed.

Lemma no_tier (v : number) :
  ge v 1e3 = false -> TokenCard.formatCurrency (Some v) = "$" ++ toFixed v 2.
Proof.
  unfold TokenCard.formatCurrency. intros H.
  assert (H6 : ge v 1e6 = false).
  { destruct (ge v 1e6) eqn:E; [|reflexivity].
    rewrite <- H. symmetry. apply (ge_trans v 1e6 1e3); [exact E | reflexivity]. }
  assert (H9 : ge v 1e9 = false).
  { destruct (ge v 1e9) eqn:E; [|reflexivity].
    rewrite <- H. symmetry. apply (ge_trans v 1e9 1e3); [exact E | reflexivity]. }
  now rewrite H9, H6, H.
Qed.

(** The quotients of the tiers "M" and "K" are below 1e21, and so is
    the one of the tier "B" for an amount below 1e22. *)
Lemma quotient_B (v : number) :
  ge v 1e9 = true -> lt v 1e22 = true -> lt (v / 1e9) 1e21 = true.
Proof.
  intros H1 H2.
  destruct (tier_quotient v 1e9 1e22 8388608000000000 (-23) 4768371582031250 21)
    as (m & e & E & Hm); try reflexivity; try assumption; try lia.
  apply (magnitude_below _ m e E). lia.
Qed.

Lemma quotient_M (v : number) :
  ge v 1e6 = true -> lt v 1e9 = true ->
  is_nan (v / 1e6) = false /\ (1e21 <=? abs (v / 1e6)) = false.
Proof.
  intros H1 H2.
  destruct (tier_quotient v 1e6 1e9 8589934592000000 (-33) 8388608000000000 (-23))
    as (m & e & E & Hm); try reflexivity; try assumption; try lia.
  apply (magnitude_in_range _ false m e E). lia.
Qed.

Lemma quotient_K (v : number) :
  ge v 1e3 = true -> lt v 1e6 = true ->
  is_nan (v / 1e3) = false /\ (1e21 <=? abs (v / 1e3)) = false.
Proof.
  intros H1 H2.
  destruct (tier_quotient v 1e3 1e6 8796093022208000 (-43) 8589934592000000 (-33))
    as (m & e & E & Hm); try reflexivity; try assumption; try lia.
  apply (magnitude_in_range _ false m e E). lia.
Qed.

Lemma quotient_not_negative (v c : number) mc ec :
  Prim2SF c = S754_finite false mc ec -> ge v c = true ->
  zero_or_signed false (Prim2SF (v / c)).
Proof.
  intros Ec H. rewrite div_spec, Ec.
  apply SFdiv_signed. exact (at_least_not_negative v c mc ec Ec H).
Qed.

(** C6, for amounts that [toFixed] prints in fixed notation.
    [formatCurrency] returns ["$0"] for null and undefined.  From 1e9
    upwards it returns ["$"], [toFixed(2)] of the amount divided by 1e9,
    and ["B"], which is that quotient to two decimal places when the
    quotient is below 1e21, as it is for every amount below 1e22.
    From 1e6 up to 1e9 it returns ["$"], the amount divided by 1e6 to
    two decimal places, and ["M"]; from 1e3 up to 1e6 the same with 1e3
    and ["K"].  In every other case it returns ["$"] and [toFixed(2)]
    of the amount, which is the amount to two decimal places when the
    amount is not NaN and is below 1e21 in magnitude.  The tiers change
    exactly at 1e9, 1e6 and 1e3: each of the three is in the upper
    tier and the Number just below it in the lower one.  The table's
    [formatNumber] for currencies is the same function on numbers. *)
Theorem formatCurrency_tiers (v : number) :
  TokenCard.formatCurrency None = "$0"
  /\ (ge v 1e9 = true ->
        TokenCard.formatCurrency (Some v) = "$" ++ toFixed (v / 1e9) 2 ++ "B"
        /\ (lt (v / 1e9) 1e21 = true -> to_two_decimals (v / 1e9) (toFixed (v / 1e9) 2))
        /\ (lt v 1e22 = true -> lt (v / 1e9) 1e21 = true))
  /\ (ge v 1e6 = true -> lt v 1e9 = true ->
        TokenCard.formatCurrency (Some v) = "$" ++ toFixed (v / 1e6) 2 ++ "M"
        /\ to_two_decimals (v / 1e6) (toFixed (v / 1e6) 2))
  /\ (ge v 1e3 = true -> lt v 1e6 = true ->
        TokenCard.formatCurrency (Some v) = "$" ++ toFixed (v / 1e3) 2 ++ "K"
        /\ to_two_decimals (v / 1e3) (toFixed (v / 1e3) 2))
  /\ (ge v 1e3 = false ->
        TokenCard.formatCurrency (Some v) = "$" ++ toFixed v 2
        /\ (is_nan v = false -> (1e21 <=? abs v) = false ->
              to_two_decimals v (toFixed v 2)))
  /\ (TokenCard.formatCurrency (Some 1e9) = "$1.00B"
      /\ TokenCard.formatCurrency (Some (below 1e9)) = "$1000.00M"
      /\ TokenCard.formatCurrency (Some 1e6) = "$1.00M"
      /\ TokenCard.formatCurrency (Some (below 1e6)) = "$1000.00K"
      /\ TokenCard.formatCurrency (Some 1e3) = "$1.00K"
      /\ TokenCard.formatCurrency (Some (below 1e3)) = "$1000.00")
  /\ Protocols.formatNumber v Protocols.currency = TokenCard.formatCurrency (Some v).
Proof.
  split; [reflexivity|]. split; [|split; [|split; [|split; [|split]]]].
  - intros H. split; [now apply tier_B|]. split; [|now apply quotient_B].
    intros Hq.
    destruct (not_negative_in_range (v / 1e9)) as [Hn Hr]; [|exact Hq|].
    { apply (quotient_not_negative v 1e9 8388608000000000 (-23)); [reflexivity | exact H]. }
    now apply toFixed_to_two_decimals.
  - intros H1 H2. split; [now apply tier_M|].
    destruct (quotient_M v H1 H2) as [Hn Hr]. now apply toFixed_to_two_decimals.
  - intros H1 H2. split; [now apply tier_K|].
    destruct (quotient_K v H1 H2) as [Hn Hr]. now apply toFixed_to_two_decimals.
  - intros H. split; [now apply no_tier|]. apply toFixed_to_two_decimals.
  - repeat split; vm_compute; reflexivity.
  - reflexivity.
Qed.

Lemma formatCurrency_witness :
  TokenCard.formatCurrency (Some 2500000000) = "$2.50B"
  /\ to_two_decimals (2500000 / 1e6) (toFixed (2500000 / 1e6) 2)
  /\ TokenCard.formatCurrency (Some 2500000) = "$2.50M"
  /\ TokenCard.formatCurrency (Some 2500) = "$2.50K"
  /\ TokenCard.formatCurrency (Some 2.5) = "$2.50".
Proof.
  split; [rewrite (proj1 (proj1 (proj2 (formatCurrency_tiers 2500000000)) eq_refl));
          vm_compute; reflexivity|].
  destruct (proj1 (proj2 (proj2 (formatCurrency_tiers 2500000))) eq_refl eq_refl) as [E D].
  split; [exact D|]. split; [rewrite E; vm_compute; reflexivity|].
  split; [rewrite (proj1 (proj1 (proj2 (proj2 (proj2 (formatCurrency_tiers 2500))))
                            eq_refl eq_refl)); vm_compute; reflexivity|].
  rewrite (proj1 (proj1 (proj2 (proj2 (proj2 (proj2 (formatCurrency_tiers 2.5))))) eq_refl));
    vm_compute; reflexivity.
Defined.

(** An amount of 1e30 (the product of 1e21 and 1e9), an infinite amount
    and NaN are not printed to two decimal places: [toFixed] leaves the
    fixed notation from 1e21 on, and the texts have no point. *)
Lemma amounts_without_decimals :
  ge (1e21 * 1e9) 1e9 = true
  /\ TokenCard.formatCurrency (Some (1e21 * 1e9)) = "$1e+21B"
  /\ ~ (exists t, TokenCard.formatCurrency (Some (1e21 * 1e9)) = "$" ++ t ++ "B"
                  /\ two_decimals t)
  /\ TokenCard.formatCurrency (Some infinity) = "$InfinityB"
  /\ ~ (exists t, TokenCard.formatCurrency (Some infinity) = "$" ++ t ++ "B"
                  /\ two_decimals t)
  /\ ge nan 1e3 = false
  /\ TokenCard.formatCurrency (Some nan) = "$NaN"
  /\ ~ (exists t, TokenCard.formatCurrency (Some nan) = "$" ++ t /\ two_decimals t).
Proof.
  assert (E1 : TokenCard.formatCurrency (Some (1e21 * 1e9)) = "$1e+21B")
    by (vm_compute; reflexivity).
  assert (E2 : TokenCard.formatCurrency (Some infinity) = "$InfinityB")
    by (vm_compute; reflexivity).
  assert (E3 : TokenCard.formatCurrency (Some nan) = "$NaN") by (vm_compute; reflexivity).
  rewrite E1, E2, E3. repeat split;
    intros (t & E & D); apply two_decimals_dotted in D;
    apply (f_equal dotted) in E; rewrite !dotted_append, D in E; discriminate E.
Qed.

(** C7, for numbers that [toFixed] prints in fixed notation.
    [formatPercentage] returns ["0%"] for null and undefined.  For a
    number it returns [toFixed(2)] of the number and ["%"], with a
    ["+"] in front if and only if the number is at least 0: the result
    starts with ["+"] exactly then.  For a number other than NaN and
    below 1e21 in magnitude, [toFixed(2)] of it is the number to two
    decimal places.  0 gives ["+0.00%"] and -5.5 gives ["-5.50%"]. *)
Theorem formatPercentage_sign (v : number) :
  TokenCard.formatPercentage None = "0%"
  /\ TokenCard.formatPercentage (Some v) = (if ge v 0 then "+" else "") ++ toFixed v 2 ++ "%"
  /\ explicit_plus (TokenCard.formatPercentage (Some v)) = ge v 0
  /\ (is_nan v = false -> (1e21 <=? abs v) = false -> to_two_decimals v (toFixed v 2))
  /\ TokenCard.formatPercentage (Some 0) = "+0.00%"
  /\ TokenCard.formatPercentage (Some (-5.5)) = "-5.50%".
Proof.
  split; [reflexivity|]. split; [reflexivity|]. split.
  { unfold TokenCard.formatPercentage. destruct (ge v 0); [reflexivity|].
    assert (H := toFixed_head v 2). change ("" ++ ?s) with s.
    destruct (toFixed v 2); [reflexivity | exact H]. }
  split; [apply toFixed_to_two_decimals|]. split; reflexivity.
Qed.

Lemma formatPercentage_sign_witness : to_two_decimals (-5.5) (toFixed (-5.5) 2).
Proof.
  exact (proj1 (proj2 (proj2 (proj2 (formatPercentage_sign (-5.5))))) eq_refl eq_refl).
Defined.

(** NaN, a number of 1e21 and an infinite number are not printed as
    percentages with two decimals: the texts have no point. *)
Lemma percentages_without_decimals :
  TokenCard.formatPercentage (Some nan) = "NaN%"
  /\ ~ (exists t, TokenCard.formatPercentage (Some nan) = t ++ "%" /\ two_decimals t)
  /\ TokenCard.formatPercentage (Some 1e21) = "+1e+21%"
  /\ ~ (exists t, TokenCard.formatPercentage (Some 1e21) = "+" ++ t ++ "%" /\ two_decimals t)
  /\ TokenCard.formatPercentage (Some neg_infinity) = "-Infinity%"
  /\ ~ (exists t, TokenCard.formatPercentage (Some neg_infinity) = t ++ "%"
                  /\ two_decimals t).
Proof.
  assert (E1 : TokenCard.formatPercentage (Some nan) = "NaN%") by (vm_compute; reflexivity).
  assert (E2 : TokenCard.formatPercentage (Some 1e21) = "+1e+21%")
    by (vm_compute; reflexivity).
  assert (E3 : TokenCard.formatPercentage (Some neg_infinity) = "-Infinity%")
    by (vm_compute; reflexivity).
  rewrite E1, E2, E3. repeat split;
    intros (t & E & D); apply two_decimals_dotted in D;
    apply (f_equal dotted) in E; rewrite !dotted_append, D in E; discriminate E.
Qed.

(** X17.  An amount below zero is in no tier, however large its
    magnitude: the card and the table both print ["$"] and
    [toFixed(2)] of the amount, which starts with ["-"].  For an amount
    above -1e21 this is the amount to two decimal places. *)
Theorem negative_amounts_unscaled (v : number) :
  lt v 0 = true ->
  TokenCard.formatCurrency (Some v) = "$" ++ toFixed v 2
  /\ Protocols.formatNumber v Protocols.currency = "$" ++ toFixed v 2
  /\ explicit_minus (toFixed v 2) = true
  /\ ((1e21 <=? abs v) = false -> to_two_decimals v (toFixed v 2)).
Proof.
  intros Hv.
  assert (H3 : ge v 1e3 = false).
  { apply lt_not_ge. apply (lt_trans v 0 1e3); [exact Hv | reflexivity]. }
  assert (E := no_tier v H3).
  split; [exact E|]. split; [exact E|]. split; [now apply toFixed_negative|].
  apply toFixed_to_two_decimals. apply (ge_not_nan 0 v). now apply lt_ge.
Qed.

Lemma negative_amounts_unscaled_witness :
  TokenCard.formatCurrency (Some (-5e9)) = "$-5000000000.00"
  /\ to_two_decimals (-5e9) (toFixed (-5e9) 2).
Proof.
  destruct (negative_amounts_unscaled (-5e9) eq_refl) as (E & _ & _ & D).
  split; [rewrite E; vm_compute; reflexivity | exact (D eq_refl)].
Defined.

End Range.
